(** * go-local-backup: the directive interpreter and the sync engine

    A shallow embedding of [backup.go] (package [backup]) together with
    the function slots of [dependency.go].  Go strings are byte
    sequences and are modelled by [string]; the mutable [backupContext]
    that every function receives by pointer is threaded explicitly, and
    a Go panic is an outcome that carries the context as it was when
    the panic was raised, because the deferred function of [Backup]
    reads the same context after [recover]. *)

From stdpp Require Import gmap strings list.
From Stdlib Require Import ZArith String Ascii List Bool Lia DecimalString DecimalPos.
Import ListNotations.

Local Open Scope string_scope.
Local Open Scope Z_scope.
#[local] Set Warnings "-register-all".

(** ** Strings: the pieces of [strings], [strconv] and [fmt] in use *)

Module GoStrings.

Definition byte (n : nat) : ascii := ascii_of_nat n.
Definition str1 (n : nat) : string := String (byte n) EmptyString.

(** The line feed, written ["\n"] in the Go source. *)
Definition nl : string := str1 10.

(** [strings.HasPrefix] followed by the slice [s[len(prefix):]]. *)
Fixpoint CutPrefix (s pre : string) {struct pre} : option string :=
  match pre, s with
  | EmptyString, _ => Some s
  | String a pre', String b s' =>
      if Ascii.eqb a b then CutPrefix s' pre' else None
  | String _ _, EmptyString => None
  end.

Definition HasPrefix (s pre : string) : bool :=
  match CutPrefix s pre with Some _ => true | None => false end.

(** [strings.HasSuffix]: [len(s) >= len(suffix) && s[len(s)-len(suffix):] == suffix]. *)
Definition HasSuffix (s suffix : string) : bool :=
  (String.length suffix <=? String.length s)%nat &&
  String.eqb
    (substring (String.length s - String.length suffix) (String.length suffix) s)
    suffix.

(** [strings.TrimSuffix]. *)
Definition TrimSuffix (s suffix : string) : string :=
  if HasSuffix s suffix
  then substring 0 (String.length s - String.length suffix) s
  else s.

(** The slice [s[n:]] for [n <= len(s)]. *)
Definition sliceFrom (n : nat) (s : string) : string :=
  substring n (String.length s - n) s.

(** *** [strings.TrimSpace]

    White space is what [unicode.IsSpace] accepts.  On the bytes of a
    string these are the six ASCII characters and the UTF-8 encodings
    of U+0085, U+00A0, U+1680, U+2000..U+200A, U+2028, U+2029, U+202F,
    U+205F and U+3000. *)

Definition asciiSpace (c : ascii) : bool :=
  match nat_of_ascii c with
  | 9%nat | 10%nat | 11%nat | 12%nat | 13%nat | 32%nat => true
  | _ => false
  end.

Definition space2 (a b : ascii) : bool :=
  match nat_of_ascii a, nat_of_ascii b with
  | 194%nat, 133%nat | 194%nat, 160%nat => true
  | _, _ => false
  end.

Definition space3 (a b c : ascii) : bool :=
  let x := nat_of_ascii a in
  let y := nat_of_ascii b in
  let z := nat_of_ascii c in
  ((x =? 225) && (y =? 154) && (z =? 128))%nat
  || ((x =? 226) && (y =? 128)
        && (((128 <=? z) && (z <=? 138)) || (z =? 168) || (z =? 169) || (z =? 175)))%nat
  || ((x =? 226) && (y =? 129) && (z =? 159))%nat
  || ((x =? 227) && (y =? 128) && (z =? 128))%nat.

(** Strips white space from the front of [s]; with [back = true] the
    string is read from its end, so the bytes of an encoding arrive in
    reverse. *)
Fixpoint trimFront (back : bool) (s : string) : string :=
  match s with
  | EmptyString => s
  | String a s1 =>
      if asciiSpace a then trimFront back s1
      else
        match s1 with
        | EmptyString => s
        | String b s2 =>
            if (if back then space2 b a else space2 a b) then trimFront back s2
            else
              match s2 with
              | EmptyString => s
              | String c s3 =>
                  if (if back then space3 c b a else space3 a b c)
                  then trimFront back s3
                  else s
              end
        end
  end.

Definition reverse (s : string) : string :=
  string_of_list_ascii (rev (list_ascii_of_string s)).

Definition TrimSpace (s : string) : string :=
  reverse (trimFront true (reverse (trimFront false s))).

(** *** [strings.Split(s, ",,")]

    Cuts at the occurrences of the two-byte separator, found from the
    left and not overlapping; the result always has at least one piece. *)
Fixpoint splitAcc (s acc : string) : list string :=
  match s with
  | EmptyString => [acc]
  | String a s1 =>
      match s1 with
      | String b s2 =>
          if Ascii.eqb a "," && Ascii.eqb b ","
          then acc :: splitAcc s2 EmptyString
          else splitAcc s1 (acc ++ String a EmptyString)
      | EmptyString => [acc ++ String a EmptyString]
      end
  end.

Definition SplitCommas (s : string) : list string := splitAcc s EmptyString.

(** *** [strconv.ParseInt(s, 10, 64)] and [strconv.Atoi] (64-bit [int]) *)

Definition digitOf (c : ascii) : option Z :=
  let n := Z.of_nat (nat_of_ascii c) in
  if (48 <=? n) && (n <=? 57) then Some (n - 48) else None.

Fixpoint digits (s : string) (acc : Z) : option Z :=
  match s with
  | EmptyString => Some acc
  | String c s' =>
      match digitOf c with
      | Some d => digits s' (acc * 10 + d)
      | None => None
      end
  end.

Definition minInt64 : Z := - 2 ^ 63.
Definition maxInt64 : Z := 2 ^ 63 - 1.

Definition ParseInt (s : string) : option Z :=
  let signed (neg : bool) (body : string) :=
    match body with
    | EmptyString => None
    | _ =>
        match digits body 0 with
        | Some v =>
            let v := if neg then - v else v in
            if (minInt64 <=? v) && (v <=? maxInt64) then Some v else None
        | None => None
        end
    end in
  match s with
  | String "+" body => signed false body
  | String "-" body => signed true body
  | _ => signed false s
  end.

(** The [%d] verb of [fmt]. *)
Definition itoa (z : Z) : string := NilZero.string_of_int (Z.to_int z).

(** Two's complement wrap-around of [int64] arithmetic. *)
Definition wrap64 (z : Z) : Z := (z + 2 ^ 63) mod 2 ^ 64 - 2 ^ 63.

End GoStrings.
Import GoStrings.

(** ** Data of the standard library that the engine inspects *)

(** A [time.Time] is an instant, counted in nanoseconds from the Unix
    epoch; [Before] is [<]. *)
Definition Time : Type := Z.

(** [time.Time{}], the first instant of year 1 (UTC). *)
Definition zeroTime : Time := -62135596800 * 1000000000.

Module fs.

(** What the engine reads from an [fs.FileInfo]. *)
Record FileInfo : Type := {
  Size : Z;
  ModTime : Time;
  Mode : Z;
  IsDir : bool
}.

(** [fs.ModeSymlink], bit 27 of a [FileMode]. *)
Definition ModeSymlink : Z := Z.shiftl 1 27.

(** An [fs.DirEntry] handed to the callback of a walk: a directory, or
    another entry with the result of its [Info()]. *)
Inductive DirEntry : Type :=
| EntryDir
| EntryFile (info : option FileInfo).

(** The errors a [WalkDirFunc] returns here: [nil] or [fs.SkipDir]. *)
Inductive WalkErr : Type := WalkNil | SkipDir.

(** What [filepath.WalkDir] finds below a root, with the path it passes
    to the callback for every entry.  [readErr] tells that [ReadDir] of
    the directory reported an error (next to the entries it could still
    read), in which case the walker calls the callback a second time
    for that directory. *)
Inductive DirTree : Type :=
| File (path : string) (info : option FileInfo)
| Directory (path : string) (readErr : bool) (entries : list DirTree).

End fs.

(** A Go [error] value: [nil], or the text of the error. *)
Definition error : Type := option string.

(** ** The external dependencies

    Everything the package takes from outside: the user's regular
    expressions ([regexp]), the platform ([filepath], [runtime.GOOS]),
    the clock, the package variables that the tests overwrite, and the
    five function slots of [dependency.go].

    The slots act on a file system state [World]: [stat] and [walkDir]
    read it, the other three change it and, but for [chmod], whose
    error the engine drops, return an error.  [stat] gives [None] for
    an error.  [walkDir w root] is the tree that [filepath.WalkDir]
    delivers entry by entry for [root], read when the walk starts;
    [None] stands for a root that the walker itself could not stat.

    [Separator] is [string(filepath.Separator)]; [Now] is the reading
    of the clock, one for a run, and [Midnight t] the start of the
    local day of [t]; [TimeString] is the [String] method of a time. *)
Record Deps : Type := {
  (* regexp *)
  Regexp : Type;
  Compile : string -> option Regexp;
  MatchString : Regexp -> string -> bool;
  (* path/filepath and runtime *)
  Separator : string;
  VolumeName : string -> string;
  Dir : string -> string;
  isWin : bool;
  (* time *)
  Now : Time;
  Midnight : Time -> Time;
  TimeString : Time -> string;
  (* package variables *)
  destDirPerm : Z;
  printDotFileCount : Z;
  maxErrors : Z;
  (* function slots *)
  World : Type;
  stat : World -> string -> option fs.FileInfo;
  walkDir : World -> string -> option fs.DirTree;
  chmod : World -> string -> Z -> World;
  mkdirAll : World -> string -> Z -> error * World;
  copy : World -> string -> string -> fs.FileInfo -> error * World
}.

(** A call of a slot that writes to the file system. *)
Inductive FsCall : Type :=
| CallChmod (name : string) (mode : Z)
| CallMkdirAll (path : string) (perm : Z)
| CallCopy (src dest : string) (srcInfo : fs.FileInfo).

(** The values a run can panic with. *)
Inductive PanicValue : Type :=
| TooManyErrors
| NilDereference
| SliceBounds (lo len : nat)
| DivideByZero.

(** What [fmt.Fprintln(out, r)] prints for a recovered value. *)
Definition panicText (p : PanicValue) : string :=
  match p with
  | TooManyErrors => "Quitting due to too many errors!"
  | NilDereference => "runtime error: invalid memory address or nil pointer dereference"
  | SliceBounds lo len =>
      "runtime error: slice bounds out of range [" ++ itoa (Z.of_nat lo) ++ ":"
        ++ itoa (Z.of_nat len) ++ "]"
  | DivideByZero => "runtime error: integer divide by zero"
  end.

(** ** The directive patterns

    The six package-level regular expressions are fixed, so each is
    modelled by the function it computes: [\s] is one of tab, line
    feed, form feed, carriage return and space, [.] is any byte but a
    line feed, repetition is greedy and [$] is the end of the text. *)
Module Directives.

Definition isSpace (c : ascii) : bool :=
  match nat_of_ascii c with
  | 9%nat | 10%nat | 12%nat | 13%nat | 32%nat => true
  | _ => false
  end.

Definition isNewline (c : ascii) : bool := (nat_of_ascii c =? 10)%nat.

(** [\s*]: drops the leading white space. *)
Fixpoint skipSpaces (s : string) : string :=
  match s with
  | String c s' => if isSpace c then skipSpaces s' else s
  | EmptyString => s
  end.

(** The group [.*]: the longest prefix without a line feed, and what
    follows it. *)
Fixpoint spanLine (s : string) : string * string :=
  match s with
  | String c s' =>
      if isNewline c then (EmptyString, s)
      else let '(p, q) := spanLine s' in (String c p, q)
  | EmptyString => (EmptyString, EmptyString)
  end.

Fixpoint allSpaces (s : string) : bool :=
  match s with
  | String c s' => isSpace c && allSpaces s'
  | EmptyString => true
  end.

(** [^<pre>\s*] followed by the group [.*]: group 1 of the match, if any. *)
Definition findOpen (pre line : string) : option string :=
  match CutPrefix line pre with
  | Some rest => Some (fst (spanLine (skipSpaces rest)))
  | None => None
  end.

(** [^<pre>\s*], the group [.*], then [\s*$]: the text after the group
    must be white space up to the end, which no shorter choice of the
    two repetitions can achieve when the greedy one does not. *)
Definition findClosed (pre line : string) : option string :=
  match CutPrefix line pre with
  | Some rest =>
      let '(p, q) := spanLine (skipSpaces rest) in
      if allSpaces q then Some p else None
  | None => None
  end.

(** [commentRex], the pattern [^#]. *)
Definition commentRex (line : string) : bool := HasPrefix line "#".
(** [targetRex]: [=>], white space, group. *)
Definition targetRex : string -> option string := findOpen "=>".
(** [maxAgeRex]: [!@], white space, group, white space, end of text. *)
Definition maxAgeRex : string -> option string := findClosed "!@".
(** [maxSizeRex]: [!>], white space, group, white space, end of text. *)
Definition maxSizeRex : string -> option string := findClosed "!>".
(** [excludeRex]: [!], white space, group. *)
Definition excludeRex : string -> option string := findOpen "!".
(** [extendExcludeRex]: [!+], white space, group. *)
Definition extendExcludeRex : string -> option string := findOpen "!+".

End Directives.
Import Directives.

(** ** The engine *)

(** How a computation ends: with a value, or in a panic. *)
Inductive Res (A : Type) : Type :=
| Done (a : A)
| Panic (p : PanicValue).
Arguments Done {A} a.
Arguments Panic {A} p.

Section Engine.

Context (D : Deps).

(** Stats for a directory source.  The Go counters are [int]s that
    start at zero and only ever grow by one, so they are natural
    numbers here. *)
Record backupCounts : Type := {
  dir : nat;
  files : nat;
  copied : nat
}.

(** The [backupContext] of a run, followed by what lies outside of it:
    the file system state and the log of the writing calls made so far.
    [out] holds the chunks written to the [io.Writer], oldest first. *)
Record State : Type := {
  out : list string;
  dryRun : bool;
  targetPath : string;
  startDate : Time;
  maxSize : Z;
  exclude : list (Regexp D);
  count : backupCounts;
  msgs : list string;
  world : World D;
  calls : list FsCall
}.

Definition setOut (v : list string) (s : State) : State :=
  {| out := v; dryRun := dryRun s; targetPath := targetPath s;
     startDate := startDate s; maxSize := maxSize s; exclude := exclude s;
     count := count s; msgs := msgs s; world := world s; calls := calls s |}.

Definition setTargetPath (v : string) (s : State) : State :=
  {| out := out s; dryRun := dryRun s; targetPath := v;
     startDate := startDate s; maxSize := maxSize s; exclude := exclude s;
     count := count s; msgs := msgs s; world := world s; calls := calls s |}.

Definition setStartDate (v : Time) (s : State) : State :=
  {| out := out s; dryRun := dryRun s; targetPath := targetPath s;
     startDate := v; maxSize := maxSize s; exclude := exclude s;
     count := count s; msgs := msgs s; world := world s; calls := calls s |}.

Definition setMaxSize (v : Z) (s : State) : State :=
  {| out := out s; dryRun := dryRun s; targetPath := targetPath s;
     startDate := startDate s; maxSize := v; exclude := exclude s;
     count := count s; msgs := msgs s; world := world s; calls := calls s |}.

Definition setExclude (v : list (Regexp D)) (s : State) : State :=
  {| out := out s; dryRun := dryRun s; targetPath := targetPath s;
     startDate := startDate s; maxSize := maxSize s; exclude := v;
     count := count s; msgs := msgs s; world := world s; calls := calls s |}.

Definition setCount (v : backupCounts) (s : State) : State :=
  {| out := out s; dryRun := dryRun s; targetPath := targetPath s;
     startDate := startDate s; maxSize := maxSize s; exclude := exclude s;
     count := v; msgs := msgs s; world := world s; calls := calls s |}.

Definition setMsgs (v : list string) (s : State) : State :=
  {| out := out s; dryRun := dryRun s; targetPath := targetPath s;
     startDate := startDate s; maxSize := maxSize s; exclude := exclude s;
     count := count s; msgs := v; world := world s; calls := calls s |}.

(** A call of a writing slot: the new file system state, and the call
    appended to the log. *)
Definition setWorld (v : World D) (c : FsCall) (s : State) : State :=
  {| out := out s; dryRun := dryRun s; targetPath := targetPath s;
     startDate := startDate s; maxSize := maxSize s; exclude := exclude s;
     count := count s; msgs := msgs s; world := v; calls := calls s ++ [c] |}.

(** *** Computations that change the state and may panic *)

Definition M (A : Type) : Type := State -> Res A * State.

Definition ret {A} (a : A) : M A := fun s => (Done a, s).

Definition bind {A B} (m : M A) (k : A -> M B) : M B :=
  fun s =>
    match m s with
    | (Done a, s') => k a s'
    | (Panic p, s') => (Panic p, s')
    end.

Notation "'do' x <- m ; k" := (bind m (fun x => k))
  (at level 10, x name, m at level 100, k at level 200).

Definition get : M State := fun s => (Done s, s).
Definition modify (f : State -> State) : M unit := fun s => (Done tt, f s).
Definition panic {A} (p : PanicValue) : M A := fun s => (Panic p, s).

(** [fmt.Fprint*(ctx.out, ...)] with the text it produces. *)
Definition print (text : string) : M unit :=
  modify (fun s => setOut (out s ++ [text]) s).

(** Adds to collected messages that are printed after sources are
    processed. *)
Definition msg (m : string) : M unit :=
  fun s =>
    let s' := setMsgs (msgs s ++ [m]) s in
    if Z.of_nat (length (msgs s')) >=? maxErrors D
    then (Panic TooManyErrors, s')
    else (Done tt, s').

(** Collects active regular expressions for exclusion. *)
Fixpoint parseParts (parts : list string) : M unit :=
  match parts with
  | [] => ret tt
  | part :: rest =>
      do _ <- (if String.eqb part ""
          then ret tt
          else
            match Compile D part with
            | None => msg ("Error in exlude regexp: " ++ part)
            | Some rex => modify (fun s => setExclude (exclude s ++ [rex]) s)
            end);
      parseParts rest
  end.

Definition parseExclude (arg : string) (extend : bool) : M unit :=
  do _ <- (if extend then ret tt else modify (setExclude []));
  parseParts (SplitCommas (TrimSpace arg)).

(** [time.Duration(max) * 24 * time.Hour] in [int64], subtracted from
    the clock and cut back to local midnight. *)
Definition sinceDate (max : Z) : Time :=
  let sub := wrap64 (max * 24 * 3600000000000) in
  Midnight D (Now D + wrap64 (- sub)).

(** Processes configuration lines that are not source locations. *)
Definition processNonPathLine (line : string) : M bool :=
  if String.eqb line "" || commentRex line then ret true
  else
    match targetRex line with
    | Some res1 =>
        do _ <- modify (setTargetPath (TrimSuffix res1 (Separator D)));
        do s <- get;
        do _ <- print ("target " ++ targetPath s ++ nl);
        ret true
    | None =>
    match maxAgeRex line with
    | Some res1 =>
        do _ <- (match ParseInt res1 with
            | None => print ("WARN: Expected only number in: " ++ line ++ nl)
            | Some max =>
                do _ <- modify (setStartDate (sinceDate max));
                do s <- get;
                print ("since " ++ TimeString D (startDate s) ++ nl)
            end);
        ret true
    | None =>
    match maxSizeRex line with
    | Some res1 =>
        do _ <- (match ParseInt res1 with
            | None => print ("WARN: Expected only number in: " ++ line ++ nl)
            | Some max =>
                do _ <- modify (setMaxSize max);
                do s <- get;
                print ("max size " ++ itoa (maxSize s) ++ nl)
            end);
        ret true
    | None =>
    match extendExcludeRex line with
    | Some res1 =>
        do _ <- parseExclude res1 true;
        do _ <- print ("extend exclude " ++ res1 ++ nl);
        ret true
    | None =>
    match excludeRex line with
    | Some res1 =>
        do _ <- parseExclude res1 false;
        do _ <- print ("exclude " ++ res1 ++ nl);
        ret true
    | None => ret false
    end end end end end.

Definition incFiles (s : State) : State :=
  setCount {| dir := dir (count s); files := S (files (count s));
              copied := copied (count s) |} s.

Definition incCopied (s : State) : State :=
  setCount {| dir := dir (count s); files := files (count s);
              copied := S (copied (count s)) |} s.

Definition incDir (s : State) : State :=
  setCount {| dir := S (dir (count s)); files := files (count s);
              copied := copied (count s) |} s.

(** The three writing slots, each logged with its arguments.  The
    engine drops the error of [chmod]. *)
Definition callChmod (name : string) (mode : Z) : M unit :=
  modify (fun s => setWorld (chmod D (world s) name mode) (CallChmod name mode) s).

Definition callMkdirAll (path : string) (perm : Z) : M error :=
  fun s =>
    let '(err, w) := mkdirAll D (world s) path perm in
    (Done err, setWorld w (CallMkdirAll path perm) s).

Definition callCopy (src dest : string) (srcInfo : fs.FileInfo) : M error :=
  fun s =>
    let '(err, w) := copy D (world s) src dest srcInfo in
    (Done err, setWorld w (CallCopy src dest srcInfo) s).

(** [rex.MatchString(path)] for some [rex] of the exclude list. *)
Definition excluded (s : State) (path : string) : bool :=
  existsb (fun rex => MatchString D rex path) (exclude s).

(** [ctx.targetPath + srcPath[len(vol):]]; the slice panics when the
    volume name is longer than the path. *)
Definition destPathOf (target srcPath : string) : string :=
  target ++ sliceFrom (String.length (VolumeName D srcPath)) srcPath.

(** The tail of [handleFile], from the dry-run test on. *)
Definition copyStep (srcPath destPath : string) (srcInfo : fs.FileInfo) : M unit :=
  do s <- get;
  if dryRun s then
    do _ <- print (srcPath ++ nl);
    modify incCopied
  else
    do err <- callCopy srcPath destPath srcInfo;
    match err with
    | Some e => msg e
    | None => modify incCopied
    end.

(** The head of [handleFile]: the file is counted and, outside of a
    dry run, every [printDotFileCount]-th file prints a dot. *)
Definition countFile : M unit :=
  do _ <- modify incFiles;
  do s <- get;
  if dryRun s then ret tt
  else if printDotFileCount D =? 0 then panic DivideByZero
  else if Z.rem (Z.of_nat (files (count s))) (printDotFileCount D) =? 0
       then print "."
       else ret tt.

(** The four tests of [handleFile] that return early: a symbolic link,
    too large, too old, excluded by a pattern. *)
Definition filtered (s : State) (srcPath : string) (srcInfo : fs.FileInfo) : bool :=
  negb (Z.land (fs.Mode srcInfo) fs.ModeSymlink =? 0)
  || (fs.Size srcInfo >? maxSize s)
  || (fs.ModTime srcInfo <? startDate s)
  || excluded s srcPath.

(** The rest of [handleFile]: the destination is compared with the
    source and brought up to date. *)
Definition syncFile (srcPath : string) (srcInfo : fs.FileInfo) : M unit :=
  do s <- get;
  let vol := VolumeName D srcPath in
  if (String.length srcPath <? String.length vol)%nat
  then panic (SliceBounds (String.length vol) (String.length srcPath))
  else
    let destPath := destPathOf (targetPath s) srcPath in
    match stat D (world s) destPath with
    | Some destInfo =>
        if negb (fs.ModTime destInfo <? fs.ModTime srcInfo) then ret tt
        else
          do _ <- (if isWin D && negb (Z.land (fs.Mode destInfo) 128 =? 0)
                   then callChmod destPath (destDirPerm D)
                   else ret tt);
          copyStep srcPath destPath srcInfo
    | None =>
        if dryRun s then copyStep srcPath destPath srcInfo
        else
          do err <- callMkdirAll (Dir D destPath) (destDirPerm D);
          match err with
          | Some _ => msg ("Cannot create dirs for: " ++ destPath)
          | None => copyStep srcPath destPath srcInfo
          end
    end.

(** Copies a file if not filtered. *)
Definition handleFile (srcPath : string) (srcInfo : fs.FileInfo) : M unit :=
  do _ <- countFile;
  do s <- get;
  if filtered s srcPath srcInfo then ret tt
  else syncFile srcPath srcInfo.

(** The callback that [handleDir] passes to [walkDir].  The walker
    passes [None] for the entry when it could not even stat the root;
    the callback calls [d.IsDir()] all the same.  The [err] argument is
    never looked at. *)
Definition walkCallback (path : string) (d : option fs.DirEntry) : M fs.WalkErr :=
  match d with
  | None => panic NilDereference
  | Some fs.EntryDir =>
      do s <- get;
      if excluded s (path ++ Separator D) then ret fs.SkipDir
      else
        do _ <- modify incDir;
        ret fs.WalkNil
  | Some (fs.EntryFile (Some info)) =>
      do _ <- handleFile path info;
      ret fs.WalkNil
  | Some (fs.EntryFile None) => ret fs.WalkNil
  end.

(** [filepath.WalkDir] below the root: the callback is called for the
    entry; [SkipDir] from a directory skips its content, [SkipDir] from
    another entry skips the rest of the directory it is in; a directory
    that could not be read in full is reported by a second call. *)
Fixpoint walkTree (t : fs.DirTree) : M fs.WalkErr :=
  match t with
  | fs.File path info => walkCallback path (Some (fs.EntryFile info))
  | fs.Directory path readErr entries =>
      do r <- walkCallback path (Some fs.EntryDir);
      match r with
      | fs.SkipDir => ret fs.WalkNil
      | fs.WalkNil =>
          do r2 <- (if readErr then walkCallback path (Some fs.EntryDir)
                    else ret fs.WalkNil);
          match r2 with
          | fs.SkipDir => ret fs.WalkNil
          | fs.WalkNil =>
              (fix walkEntries (l : list fs.DirTree) : M fs.WalkErr :=
                 match l with
                 | [] => ret fs.WalkNil
                 | t1 :: l' =>
                     do r1 <- walkTree t1;
                     match r1 with
                     | fs.SkipDir => ret fs.WalkNil
                     | fs.WalkNil => walkEntries l'
                     end
                 end) entries
          end
      end
  end.

(** The loop of the walker over the entries of a directory, as it
    occurs inside [walkTree]. *)
Definition walkEntries : list fs.DirTree -> M fs.WalkErr :=
  fix walkEntries (l : list fs.DirTree) : M fs.WalkErr :=
    match l with
    | [] => ret fs.WalkNil
    | t1 :: l' =>
        do r1 <- walkTree t1;
        match r1 with
        | fs.SkipDir => ret fs.WalkNil
        | fs.WalkNil => walkEntries l'
        end
    end.

(** [walkDir(path, walkCallback)] through the slot: the walker stats
    the root, then walks what it finds there. *)
Definition walk (path : string) : M unit :=
  do s <- get;
  match walkDir D (world s) path with
  | None =>
      do _ <- walkCallback path None;
      ret tt
  | Some t =>
      do _ <- walkTree t;
      ret tt
  end.

(** Recurses a source directory, filters excluded subdirectories. *)
Definition handleDir (path : string) : M unit :=
  do _ <- modify (setCount {| dir := 0; files := 0; copied := 0 |});
  do _ <- walk path;
  do s <- get;
  do _ <- (if Z.of_nat (files (count s)) >=? printDotFileCount D
           then print nl else ret tt);
  print ("Dirs: " ++ itoa (Z.of_nat (dir (count s)))
         ++ ", Files: " ++ itoa (Z.of_nat (files (count s)))
         ++ ", Copied: " ++ itoa (Z.of_nat (copied (count s))) ++ nl).

Definition errText : string :=
  "target path must be specified before any source paths".

(** The body of the loop of [Backup] for one line.  [Some e] is the
    [return e] that leaves the loop; [None] goes on with the next line. *)
Definition backupLine (line : string) : M error :=
  let line := TrimSpace line in
  do directive <- processNonPathLine line;
  if directive then ret None
  else
    do s <- get;
    if String.eqb (targetPath s) "" then
      do _ <- print ("FATAL: " ++ errText ++ nl);
      ret (Some errText)
    else
      let path := line in
      match stat D (world s) path with
      | None =>
          do _ <- msg ("Cannot stat, skipping: " ++ path);
          ret None
      | Some info =>
          do _ <- print (nl ++ path ++ nl);
          do _ <- (if fs.IsDir info then handleDir path else handleFile path info);
          ret None
      end.

Fixpoint backupLoop (config : list string) : M error :=
  match config with
  | [] => ret None
  | line :: rest =>
      do r <- backupLine line;
      match r with
      | Some e => ret (Some e)
      | None => backupLoop rest
      end
  end.

(** The context at the start of a run, before a file system [w]. *)
Definition initial (dry : bool) (w : World D) : State :=
  {| out := []; dryRun := dry; targetPath := ""; startDate := zeroTime;
     maxSize := maxInt64; exclude := []; count := {| dir := 0; files := 0; copied := 0 |};
     msgs := []; world := w; calls := [] |}.

(** The deferred function of [Backup]: prints a recovered panic, then
    the collected messages, which replace the result [ev]. *)
Definition deferred (r : Res error) (s : State) : error * State :=
  let '(ev, s1) :=
    match r with
    | Done e => (e, s)
    | Panic p => (None, setOut (out s ++ [panicText p ++ nl]) s)
    end in
  if (0 <? length (msgs s1))%nat then
    (Some (itoa (Z.of_nat (length (msgs s1))) ++ " errors"),
     setOut (out s1 ++ [nl ++ itoa (Z.of_nat (length (msgs s1))) ++ " errors:" ++ nl]
                    ++ map (fun m => m ++ nl) (msgs s1)) s1)
  else (ev, s1).

(** Invoke this function to perform a backup: the error it returns and
    the state it leaves. *)
Definition Backup (config : list string) (dry : bool) (w : World D) : error * State :=
  let '(r, s) := backupLoop config (initial dry w) in
  deferred r s.

End Engine.

Arguments out {D} s.
Arguments dryRun {D} s.
Arguments targetPath {D} s.
Arguments startDate {D} s.
Arguments maxSize {D} s.
Arguments exclude {D} s.
Arguments count {D} s.
Arguments msgs {D} s.
Arguments world {D} s.
Arguments calls {D} s.
Arguments setOut {D} v s.
Arguments setTargetPath {D} v s.
Arguments setStartDate {D} v s.
Arguments setMaxSize {D} v s.
Arguments setExclude {D} v s.
Arguments setCount {D} v s.
Arguments setMsgs {D} v s.
Arguments setWorld {D} v c s.
Arguments incFiles {D} s.
Arguments incCopied {D} s.
Arguments incDir {D} s.
Arguments excluded {D} s path.
Arguments filtered {D} s srcPath srcInfo.
Arguments ret {D A} a s.
Arguments bind {D A B} m k s.
Arguments get {D} s.
Arguments modify {D} f s.
Arguments panic {D A} p s.

(** ** Stand-ins for the dependencies

    Closed examples need concrete dependencies, as the tests of the
    package need theirs ([mockDependencies]).  These are small models
    for slash-separated (and, for Windows, drive-letter) paths, an
    in-memory file system, and a regular expression engine reduced to
    what the examples use. *)
Module Double.

(** *** [regexp]: a pattern is kept as its text; it compiles when its
    parentheses are balanced and matches a text that contains it. *)
Fixpoint balanced (s : string) (depth : nat) : bool :=
  match s with
  | EmptyString => (depth =? 0)%nat
  | String c s' =>
      if Ascii.eqb c "(" then balanced s' (S depth)
      else if Ascii.eqb c ")" then
        match depth with O => false | S d => balanced s' d end
      else balanced s' depth
  end.

Definition compile (p : string) : option string :=
  if balanced p 0 then Some p else None.

Fixpoint contains (text p : string) : bool :=
  HasPrefix text p ||
  match text with
  | EmptyString => false
  | String _ text' => contains text' p
  end.

Definition matchString (p text : string) : bool := contains text p.

(** *** [filepath]: [Clean] and [Dir], lexically *)

Fixpoint splitOn (sep : ascii) (s acc : string) : list string :=
  match s with
  | EmptyString => [acc]
  | String c s' =>
      if Ascii.eqb c sep then acc :: splitOn sep s' EmptyString
      else splitOn sep s' (acc ++ String c EmptyString)
  end.

(** The elements that remain, innermost first. *)
Fixpoint cleanElems (rooted : bool) (elems kept : list string) : list string :=
  match elems with
  | [] => kept
  | e :: rest =>
      if String.eqb e "" || String.eqb e "." then cleanElems rooted rest kept
      else if String.eqb e ".." then
        match kept with
        | k :: kept' =>
            if String.eqb k ".." then cleanElems rooted rest (e :: kept)
            else cleanElems rooted rest kept'
        | [] => if rooted then cleanElems rooted rest kept
                else cleanElems rooted rest [e]
        end
      else cleanElems rooted rest (e :: kept)
  end.

Definition Clean (sep : ascii) (path : string) : string :=
  let s := String sep EmptyString in
  let rooted := HasPrefix path s in
  let body := String.concat s (rev (cleanElems rooted (splitOn sep path EmptyString) [])) in
  let r := (if rooted then s else EmptyString) ++ body in
  if String.eqb r "" then "." else r.

(** Everything up to and including the last separator. *)
Fixpoint dropLastElem (sep : ascii) (reversed : string) : string :=
  match reversed with
  | EmptyString => EmptyString
  | String c r' => if Ascii.eqb c sep then reversed else dropLastElem sep r'
  end.

Definition dirOf (sep : ascii) (volume : string -> string) (path : string) : string :=
  let vol := volume path in
  let rest := sliceFrom (String.length vol) path in
  let d := Clean sep (reverse (dropLastElem sep (reverse rest))) in
  if String.eqb d "." && (2 <? String.length vol)%nat then vol else vol ++ d.

(** A drive letter and its colon, if the path starts with them. *)
Definition driveOf (path : string) : string :=
  match path with
  | String a (String ":" _) => String a ":"
  | _ => EmptyString
  end.

(** *** The in-memory file system: what [stat] reports for each path.
    The trees below the source directories are fixed. *)

Definition dirInfo : fs.FileInfo :=
  {| fs.Size := 0; fs.ModTime := 0; fs.Mode := Z.shiftl 1 31; fs.IsDir := true |}.

Definition chmodMem (w : gmap string fs.FileInfo) (name : string) (mode : Z)
  : gmap string fs.FileInfo :=
  alter (fun i => {| fs.Size := fs.Size i; fs.ModTime := fs.ModTime i;
                     fs.Mode := mode; fs.IsDir := fs.IsDir i |}) name w.

Definition mkdirAllMem (fails : string -> bool) (w : gmap string fs.FileInfo)
    (path : string) (perm : Z) : error * gmap string fs.FileInfo :=
  if fails path then (Some "mkdir failed", w)
  else
    match w !! path with
    | Some _ => (None, w)
    | None => (None, <[path := dirInfo]> w)
    end.

(** A copy that succeeds leaves the size and the modification time of
    the source and mode 0660 at the destination, as [copyImpl] does. *)
Definition copyMem (fails : string -> bool) (w : gmap string fs.FileInfo)
    (src dest : string) (srcInfo : fs.FileInfo) : error * gmap string fs.FileInfo :=
  if fails src then (Some "cannot copy", w)
  else (None, <[dest := {| fs.Size := fs.Size srcInfo; fs.ModTime := fs.ModTime srcInfo;
                           fs.Mode := 432; fs.IsDir := false |}]> w).

Definition deps (win : bool) (cap : Z) (trees : string -> option fs.DirTree)
    (copyFails mkdirFails : string -> bool) : Deps :=
  let sep : ascii := if win then "\"%char else "/"%char in
  let volume := if win then driveOf else (fun _ => EmptyString) in
  {| Regexp := string;
     Compile := compile;
     MatchString := matchString;
     Separator := String sep EmptyString;
     VolumeName := volume;
     Dir := dirOf sep volume;
     isWin := win;
     Now := 0;
     Midnight := fun t => t;
     TimeString := itoa;
     destDirPerm := if win then 511 else 504;
     printDotFileCount := 100;
     maxErrors := cap;
     World := gmap string fs.FileInfo;
     stat := fun w name => w !! name;
     walkDir := fun _ root => trees root;
     chmod := chmodMem;
     mkdirAll := mkdirAllMem mkdirFails;
     copy := copyMem copyFails |}.

Definition never (_ : string) : bool := false.

End Double.

(** *** The scenarios of the package's tests

    The files of [pathsNoErrors] and [pathsErrors] with their ages in
    days, the trees of [walkedDirs], and the copies in the target as
    [statTestImpl] reports them: a day older than the source, but for
    [/d3/d4/f1].  The third exclude pattern of [configNoErrors] is
    shortened to [middle], which the stand-in engine can match. *)
Module Scenario.

Definition day : Z := 86400000000000.

Definition file (age size : Z) : fs.FileInfo :=
  {| fs.Size := size; fs.ModTime := - (age * day); fs.Mode := 0; fs.IsDir := false |}.

Definition withMode (mode : Z) (i : fs.FileInfo) : fs.FileInfo :=
  {| fs.Size := fs.Size i; fs.ModTime := fs.ModTime i; fs.Mode := mode;
     fs.IsDir := fs.IsDir i |}.

Definition trees (root : string) : option fs.DirTree :=
  if String.eqb root "/er1" then
    Some (fs.Directory "/er1" false
            [fs.File "/er1/f1" (Some (file 10 100));
             fs.File "/er1/d1/f2" (Some (file 10 100))])
  else if String.eqb root "/d1" then
    Some (fs.Directory "/d1" false
            [fs.Directory "/d1/d2" false
               [fs.File "/d1/d2/f1" (Some (file 10 100));
                fs.File "/d1/d2/s1" (Some (withMode fs.ModeSymlink (file 10 0)))]])
  else if String.eqb root "/d3/d4" then
    Some (fs.Directory "/d3/d4" false
            [fs.File "/d3/d4/f1" (Some (file 10 100));
             fs.File "/d3/d4/f2" (Some (file 10 200));
             fs.File "/d3/d4/f3" (Some (file 30 100));
             fs.File "/d3/d4/f4" (Some (file 30 200))])
  else if String.eqb root "/d5" then
    Some (fs.Directory "/d5" false
            [fs.File "/d5/f1" (Some (file 10 100));
             fs.File "/d5/f5" (Some (file 10 100));
             fs.Directory "/d5/d6" false [fs.File "/d5/d6/f1" (Some (file 10 100))]])
  else if String.eqb root "/d7" then
    Some (fs.Directory "/d7" false
            [fs.Directory "/d7/d_has_middle_part" false
               [fs.File "/d7/d_has_middle_part/f1" (Some (file 10 100))]])
  else None.

Definition disk : gmap string fs.FileInfo :=
  list_to_map
    [("/er1", Double.dirInfo); ("/backup/er1/f1", file 11 100);
     ("/d1", Double.dirInfo); ("/d3/d4", Double.dirInfo); ("/d5", Double.dirInfo);
     ("/d7", Double.dirInfo); ("/d8/f1", file 10 100);
     ("/backup/d1/d2/f1", withMode 128 (file 11 100));
     ("/backup/d3/d4/f1", file 10 100);
     ("/backup/d5/f1", file 11 100);
     ("/backup/d8/f1", file 11 100)].

Definition deps (cap : Z) : Deps :=
  Double.deps false cap trees (String.eqb "/er1/f1") (String.eqb "/backup/er1/d1").

Definition configNoErrors : list string :=
  [""; "=> /backup"; ""; "!@20"; "!>150"; "!f5,,/d6/"; "!+middle"; "";
   "/d1"; "/d3/d4"; "/d5"; "/d7"; "/d8/f1"; ""].

Definition configErrors : list string :=
  [""; "=> /backup"; "!@100 days"; "!>10MB"; "# bad and empty regexp";
   "!(notclosed,,"; "/nostat"; "/er1"; ""].

Definition configNoTarget : list string := [""; "/any_source"; ""].

End Scenario.

(** * Vocabulary of the properties *)

Section Vocabulary.

Context (D : Deps).

(** Fewer messages are recorded than the cap allows. *)
Definition belowCap (s : State D) : Prop :=
  Z.of_nat (length (msgs s)) < maxErrors D.

(** How a computation that started below the cap may end: aborted for
    too many errors with exactly [maxErrors] messages, or in any other
    way and still below the cap. *)
Definition capped {A} (x : Res A * State D) : Prop :=
  match fst x with
  | Panic TooManyErrors => Z.of_nat (length (msgs (snd x))) = maxErrors D
  | _ => belowCap (snd x)
  end.

Definition Cap {A} (m : M D A) : Prop :=
  forall s, belowCap s -> capped (m s).

End Vocabulary.

Arguments belowCap {D} s.
Arguments capped {D A} x.
Arguments Cap {D A} m.

Section Patterns.

Context (D : Deps).

(** What a trimmed line is, the first pattern that matches deciding. *)
Inductive Directive : Type :=
| Blank
| Target (arg : string)
| MaxAge (arg : string)
| MaxSize (arg : string)
| ExtendExclude (arg : string)
| Exclude (arg : string)
| Source.

Definition classify (line : string) : Directive :=
  if String.eqb line "" || commentRex line then Blank
  else match targetRex line with
  | Some arg => Target arg
  | None =>
  match maxAgeRex line with
  | Some arg => MaxAge arg
  | None =>
  match maxSizeRex line with
  | Some arg => MaxSize arg
  | None =>
  match extendExcludeRex line with
  | Some arg => ExtendExclude arg
  | None =>
  match excludeRex line with
  | Some arg => Exclude arg
  | None => Source
  end end end end end.

(** A trimmed line that none of the directive patterns accepts: a
    source path. *)
Definition isSource (line : string) : bool :=
  match classify line with Source => true | _ => false end.

(** The patterns of a directive argument, in the words of the
    configuration format: the argument is cut at every [,,]; each piece
    that is not empty is compiled; a piece that does not compile is
    left out. *)
Definition parsePatterns (arg : string) : list (Regexp D) :=
  flat_map
    (fun part =>
       if String.eqb part "" then []
       else match Compile D part with Some rex => [rex] | None => [] end)
    (SplitCommas (TrimSpace arg)).

(** Only ASCII white space. *)
Fixpoint allAsciiSpace (s : string) : bool :=
  match s with
  | EmptyString => true
  | String c s' => asciiSpace c && allAsciiSpace s'
  end.

End Patterns.

Section Observations.

Context (D : Deps).

(** A computation relates the state it starts in to the state it
    leaves by [R]. *)
Definition Respects (R : State D -> State D -> Prop) {A} (m : M D A) : Prop :=
  forall s, R s (snd (m s)).

(** A computation leaves an observation [f] of the state unchanged. *)
Definition Keeps {X A} (f : State D -> X) (m : M D A) : Prop :=
  Respects (fun s s' => f s' = f s) m.

(** The settings of a run that only directives change. *)
Definition settings (s : State D) : bool * string * Time * Z * list (Regexp D) :=
  (dryRun s, targetPath s, startDate s, maxSize s, exclude s).

(** A writing call as the engine issues it for a source path, given
    the target in force: [chmod] and the destination of [copy] receive
    the destination path; [mkdirAll] receives its [filepath.Dir]. *)
Definition okCall (target : string) (c : FsCall) : Prop :=
  match c with
  | CallChmod name _ => exists src, name = destPathOf D target src
  | CallMkdirAll path _ => exists src, path = Dir D (destPathOf D target src)
  | CallCopy src dest _ => dest = destPathOf D target src
  end.

(** The target stays, and the log of calls grows by calls for it. *)
Definition Grow (s s' : State D) : Prop :=
  targetPath s' = targetPath s
  /\ exists l, calls s' = (calls s ++ l)%list /\ Forall (okCall (targetPath s)) l.

End Observations.

Arguments Respects {D} R {A} m.
Arguments Keeps {D X A} f m.
Arguments settings {D} s.
Arguments Grow {D} s s'.

(** *** Single files on both platforms *)
Module Cases.

Definition noTrees (_ : string) : option fs.DirTree := None.

Definition unixDeps : Deps := Double.deps false 100 noTrees Double.never Double.never.
Definition winDeps : Deps := Double.deps true 100 noTrees Double.never Double.never.

Definition file (mtime mode : Z) : fs.FileInfo :=
  {| fs.Size := 100; fs.ModTime := mtime; fs.Mode := mode; fs.IsDir := false |}.

(** A source given by a relative path. *)
Definition relativeConfig : list string := ["=> /backup"; "f1"].
Definition relativeDisk : gmap string fs.FileInfo := {[ "f1" := file 20 420 ]}.

(** A source on drive [c:] whose copy in the target is older and
    writable (mode 0666). *)
Definition winConfig : list string := ["=> c:\backup"; "c:\d1\f1"].
Definition winStale : gmap string fs.FileInfo :=
  {[ "c:\d1\f1" := file 20 438; "c:\backup\d1\f1" := file 10 438 ]}.

(** The same source with a copy in the target that is as new as the
    source and read-only (mode 0444). *)
Definition winReadOnly : gmap string fs.FileInfo :=
  {[ "c:\d1\f1" := file 20 438; "c:\backup\d1\f1" := file 20 292 ]}.

End Cases.

Section CallsOfAFile.

Context (D : Deps).

(** The writing calls that [syncFile] makes for a source, read off the
    state in which it starts. *)
Definition syncCalls (s : State D) (src : string) (info : fs.FileInfo) : list FsCall :=
  let dest := destPathOf D (targetPath s) src in
  if (String.length src <? String.length (VolumeName D src))%nat then []
  else
    match stat D (world s) dest with
    | Some destInfo =>
        if negb (fs.ModTime destInfo <? fs.ModTime info) then []
        else
          ((if isWin D && negb (Z.land (fs.Mode destInfo) 128 =? 0)
            then [CallChmod dest (destDirPerm D)] else [])
           ++ (if dryRun s then [] else [CallCopy src dest info]))%list
    | None =>
        if dryRun s then []
        else
          CallMkdirAll (Dir D dest) (destDirPerm D)
          :: match fst (mkdirAll D (world s) (Dir D dest) (destDirPerm D)) with
             | Some _ => []
             | None => [CallCopy src dest info]
             end
    end.

(** The same for [handleFile], which first counts and filters. *)
Definition fileCalls (s : State D) (src : string) (info : fs.FileInfo) : list FsCall :=
  if (negb (dryRun s) && (printDotFileCount D =? 0)) || filtered s src info then []
  else syncCalls s src info.

End CallsOfAFile.

Section Pruning.

Context (D : Deps).

(** The test of the callback on a directory: some pattern of the list
    matches the path of the directory followed by the separator. *)
Definition pruned (excl : list (Regexp D)) (path : string) : bool :=
  existsb (fun rex => MatchString D rex (path ++ Separator D)) excl.

(** How often a walk over [t] that runs to its end counts a directory:
    not at all in a pruned directory, once for any other directory,
    once more when the walker reports a read error for it, and then
    for the entries of the directory in turn. *)
Fixpoint dirCount (excl : list (Regexp D)) (t : fs.DirTree) : nat :=
  match t with
  | fs.File _ _ => 0%nat
  | fs.Directory path readErr entries =>
      if pruned excl path then 0%nat
      else
        S ((if readErr then 1 else 0)
           + (fix sum (l : list fs.DirTree) : nat :=
                match l with
                | [] => 0
                | t1 :: l' => dirCount excl t1 + sum l'
                end) entries)%nat
  end.

Definition dirCounts (excl : list (Regexp D)) (l : list fs.DirTree) : nat :=
  (fix sum (l : list fs.DirTree) : nat :=
     match l with
     | [] => 0
     | t1 :: l' => dirCount excl t1 + sum l'
     end)%nat l.

End Pruning.

(** *** A source directory with an excluded subdirectory *)
Module Pruned.

Definition trees (root : string) : option fs.DirTree :=
  if String.eqb root "/d5" then
    Some (fs.Directory "/d5" false
            [fs.File "/d5/f1" (Some (Cases.file 20 420));
             fs.Directory "/d5/d6" false [fs.File "/d5/d6/f1" (Some (Cases.file 20 420))];
             fs.Directory "/d5/d7" false [fs.File "/d5/d7/f2" (Some (Cases.file 20 420))]])
  else None.

Definition deps : Deps := Double.deps false 100 trees Double.never Double.never.
Definition disk : gmap string fs.FileInfo := {[ "/d5" := Double.dirInfo ]}.
Definition config : list string := ["=> /backup"; "!/d6/"; "/d5"].

End Pruned.

Section Idempotence.

Context (D : Deps).

(** The file system [w] has an entry at [p] that was modified at [t]
    or later. *)
Definition NotOlder (w : World D) (p : string) (t : Time) : Prop :=
  exists d, stat D w p = Some d /\ t <= fs.ModTime d.

(** Whatever exists in [w] exists in [w'] and is not older there. *)
Definition Ahead (w w' : World D) : Prop :=
  forall p t, NotOlder w p t -> NotOlder w' p t.

(** What the engine relies on from the writing slots: none of them
    removes an entry or makes it older; a copy leaves every other path
    in this sense alone and, when it succeeds, gives the destination
    the modification time of the source at least (as [copyImpl] does
    with [os.Chtimes]). *)
Record FsLaws : Prop := {
  chmod_ahead : forall w name mode, Ahead w (chmod D w name mode);
  mkdirAll_ahead : forall w path perm, Ahead w (snd (mkdirAll D w path perm));
  copy_other :
    forall w src dest info p t,
      p <> dest -> NotOlder w p t -> NotOlder (snd (copy D w src dest info)) p t;
  copy_time :
    forall w src dest info w',
      copy D w src dest info = (None, w') -> NotOlder w' dest (fs.ModTime info)
}.

(** The file system after the calls of a log, oldest first. *)
Definition applyCall (w : World D) (c : FsCall) : World D :=
  match c with
  | CallChmod name mode => chmod D w name mode
  | CallMkdirAll path perm => snd (mkdirAll D w path perm)
  | CallCopy src dest info => snd (copy D w src dest info)
  end.

Definition replay (l : list FsCall) (w : World D) : World D :=
  fold_left applyCall l w.

(** The sources of a configuration are the same in [w] as in [w0]:
    for each of its lines, [stat] and [walkDir] answer alike. *)
Definition sameSources (config : list string) (w0 w : World D) : Prop :=
  forall line,
    In line config ->
    stat D w (TrimSpace line) = stat D w0 (TrimSpace line)
    /\ walkDir D w (TrimSpace line) = walkDir D w0 (TrimSpace line).

(** The sources stay as they are in [w0] while the calls of [log] are
    made one after the other. *)
Definition sourcesUnchanged (config : list string) (w0 : World D) (log : list FsCall)
  : Prop :=
  forall k, sameSources config w0 (replay (firstn k log) w0).

(** One state of a run and a later one: the log has grown by the calls
    that changed the file system, and, if no message is recorded at
    the later state, none was before and the file system has moved
    ahead. *)
Definition Later (s s' : State D) : Prop :=
  (exists l, calls s' = (calls s ++ l)%list /\ world s' = replay l (world s))
  /\ (msgs s' = [] -> msgs s = [] /\ Ahead (world s) (world s')).

End Idempotence.

Arguments NotOlder {D} w p t.
Arguments Ahead {D} w w'.
Arguments Later {D} s s'.

Section SecondRun.

Context (D : Deps).

(** A state [s] of the first run and the state [t] that the second
    run, over the file system [wF] left by the first, is in at the same
    point: the same settings, and in the second run no message, no
    call, and nothing copied. *)
Definition Sim (wF : World D) (s t : State D) : Prop :=
  dryRun s = false /\ dryRun t = false
  /\ targetPath t = targetPath s /\ startDate t = startDate s
  /\ maxSize t = maxSize s /\ exclude t = exclude s
  /\ msgs t = [] /\ calls t = [] /\ world t = wF
  /\ copied (count t) = 0%nat.

(** A state of the first run between its first state [s0] and its
    last state [sF]. *)
Definition Mid (s0 sF s : State D) : Prop := Later s0 s /\ Later s sF.

(** The second run does with [m] what the first run did, as long as
    the first run stays between [s0] and [sF]. *)
Definition SimOf (s0 sF : State D) {A} (m : M D A) : Prop :=
  forall s t r s',
    Sim (world sF) s t -> Mid s0 sF s ->
    m s = (r, s') -> Mid s0 sF s' ->
    exists t', m t = (r, t') /\ Sim (world sF) s' t'.

End SecondRun.

Arguments Sim {D} wF s t.
Arguments Mid {D} s0 sF s.
Arguments SimOf {D} s0 sF {A} m.

(** ** Vocabulary of the further properties *)

Section DirectiveArguments.

(** An argument that a directive pattern captures whole: it does not
    begin with white space, which the pattern skips, and it holds no
    line feed, where the group ends. *)
Fixpoint noNewline (s : string) : bool :=
  match s with
  | EmptyString => true
  | String c s' => negb (isNewline c) && noNewline s'
  end.

Definition wholeArg (arg : string) : bool :=
  match arg with
  | EmptyString => true
  | String c _ => negb (isSpace c)
  end
  && noNewline arg.

End DirectiveArguments.

Section ExcludeErrors.

Context (D : Deps).

(** The messages of a directive argument, in the words of the
    configuration format: one for each piece between [,,] that is not
    empty and does not compile, in the order of the pieces. *)
Definition patternErrors (arg : string) : list string :=
  flat_map
    (fun part =>
       if String.eqb part "" then []
       else match Compile D part with
            | Some _ => []
            | None => ["Error in exlude regexp: " ++ part]
            end)
    (SplitCommas (TrimSpace arg)).

End ExcludeErrors.

Section FilteredCalls.

Context (D : Deps).


End FilteredCalls.

Section CopyCalls.

(** How many calls of the copy slot a log holds. *)
Definition copyCalls (log : list FsCall) : nat :=
  length (filter (fun c => match c with CallCopy _ _ _ => true | _ => false end) log).

End CopyCalls.

Section Counting.

Context (D : Deps).

(** How many files a walk over [t] that runs to its end hands to
    [handleFile]: every entry that is not a directory and whose
    [Info()] succeeds, outside of the pruned directories. *)
Fixpoint fileCount (excl : list (Regexp D)) (t : fs.DirTree) : nat :=
  match t with
  | fs.File _ (Some _) => 1%nat
  | fs.File _ None => 0%nat
  | fs.Directory path _ entries =>
      if pruned D excl path then 0%nat
      else
        (fix sum (l : list fs.DirTree) : nat :=
           match l with
           | [] => 0
           | t1 :: l' => fileCount excl t1 + sum l'
           end)%nat entries
  end.

Definition fileCounts (excl : list (Regexp D)) (l : list fs.DirTree) : nat :=
  (fix sum (l : list fs.DirTree) : nat :=
     match l with
     | [] => 0
     | t1 :: l' => fileCount excl t1 + sum l'
     end)%nat l.

(** The summary that [handleDir] prints. *)
Definition summary (c : backupCounts) : string :=
  "Dirs: " ++ itoa (Z.of_nat (dir c))
  ++ ", Files: " ++ itoa (Z.of_nat (files c))
  ++ ", Copied: " ++ itoa (Z.of_nat (copied c)) ++ nl.

End Counting.

Section DueFiles.

Context (D : Deps).

(** A file is due in the state [s]: it passes the filters, and its
    destination below the target is missing or older than the file. *)
Definition due (s : State D) (src : string) (info : fs.FileInfo) : bool :=
  negb (filtered s src info)
  && match stat D (world s) (destPathOf D (targetPath s) src) with
     | Some destInfo => fs.ModTime destInfo <? fs.ModTime info
     | None => true
     end.

(** The due files that a walk over [t] comes by, in its order: the
    entries that are not directories, whose [Info()] succeeds and that
    are due, outside of the pruned directories. *)
Fixpoint dueFiles (s : State D) (t : fs.DirTree) : list string :=
  match t with
  | fs.File path (Some info) => if due s path info then [path] else []
  | fs.File _ None => []
  | fs.Directory path _ entries =>
      if pruned D (exclude s) path then []
      else
        (fix all (l : list fs.DirTree) : list string :=
           match l with
           | [] => []
           | t1 :: l' => (dueFiles s t1 ++ all l')%list
           end) entries
  end.

Definition dueFilesOf (s : State D) (l : list fs.DirTree) : list string :=
  (fix all (l : list fs.DirTree) : list string :=
     match l with
     | [] => []
     | t1 :: l' => (dueFiles s t1 ++ all l')%list
     end) l.

(** What a walk that lists the files [l] leaves behind in a dry run
    off Windows. *)
Definition dryWalked (l : list string) (s s' : State D) : Prop :=
  settings s' = settings s
  /\ world s' = world s
  /\ out s' = (out s ++ map (fun p => (p ++ nl)%string) l)%list
  /\ copied (count s') = (copied (count s) + length l)%nat.

End DueFiles.

(** *** A short interval between the progress dots *)
Module Dotted.

(** The dependencies [D] with another [printDotFileCount]. *)
Definition withDotCount (n : Z) (D : Deps) : Deps :=
  {| Regexp := Regexp D; Compile := Compile D; MatchString := MatchString D;
     Separator := Separator D; VolumeName := VolumeName D; Dir := Dir D;
     isWin := isWin D; Now := Now D; Midnight := Midnight D;
     TimeString := TimeString D; destDirPerm := destDirPerm D;
     printDotFileCount := n; maxErrors := maxErrors D;
     World := World D; stat := stat D; walkDir := walkDir D;
     chmod := chmod D; mkdirAll := mkdirAll D; copy := copy D |}.

Definition deps : Deps := withDotCount 2 Pruned.deps.

End Dotted.

(** ** [copyImpl], the copy slot of [dependency.go]

    The function is a sequence of calls of [os], [io] and [time].
    These are the operations of an operating system [Os] on its state
    [Fs]; each call is logged with its arguments and with what it
    returned.  A deferred [Close] runs when the function returns, the
    one registered last first, and its error is dropped.  [Quote] is
    the [%q] verb of [fmt]; a wrapped error prints as its text. *)
Module Copying.

Record Os : Type := {
  Fs : Type;
  File : Type;
  Open : Fs -> string -> (string + File) * Fs;
  Create : Fs -> string -> (string + File) * Fs;
  ioCopy : Fs -> File -> File -> error * Fs;
  Close : Fs -> File -> error * Fs;
  Chmod : Fs -> string -> Z -> error * Fs;
  Chtimes : Fs -> string -> Time -> Time -> error * Fs;
  timeNow : Fs -> Time;
  Quote : string -> string
}.

Inductive Event (F : Type) : Type :=
| DidOpen (name : string) (file : option F)
| DidCreate (name : string) (file : option F)
| DidCopy (dst src : F) (ok : bool)
| DidChmod (name : string) (mode : Z)
| DidChtimes (name : string) (atime mtime : Time)
| DidClose (file : F).
Arguments DidOpen {F} name file.
Arguments DidCreate {F} name file.
Arguments DidCopy {F} dst src ok.
Arguments DidChmod {F} name mode.
Arguments DidChtimes {F} name atime mtime.
Arguments DidClose {F} file.

Section CopyImpl.

Context (os : Os).

(** The deferred calls of [Close], the one registered last first. *)
Fixpoint runDeferred (deferred : list (File os)) (fs0 : Fs os)
  : Fs os * list (Event (File os)) :=
  match deferred with
  | [] => (fs0, [])
  | f :: rest =>
      let '(_, fs1) := Close os fs0 f in
      let '(fs2, log) := runDeferred rest fs1 in
      (fs2, DidClose f :: log)
  end.

Definition copyImpl (src dest : string) (srcInfo : fs.FileInfo) (fs0 : Fs os)
  : error * Fs os * list (Event (File os)) :=
  match Open os fs0 src with
  | (inl err, fs1) =>
      (Some ("cannot open " ++ Quote os src ++ " for reading: " ++ err), fs1,
       [DidOpen src None])
  | (inr srcReader, fs1) =>
      match Create os fs1 dest with
      | (inl err, fs2) =>
          let '(fs3, closed) := runDeferred [srcReader] fs2 in
          (Some ("cannot open " ++ Quote os dest ++ " for writing: " ++ err), fs3,
           ([DidOpen src (Some srcReader); DidCreate dest None] ++ closed)%list)
      | (inr destWriter, fs2) =>
          match ioCopy os fs2 destWriter srcReader with
          | (Some err, fs3) =>
              let '(fs4, closed) := runDeferred [destWriter; srcReader] fs3 in
              (Some ("error copying content of " ++ Quote os src ++ ": " ++ err), fs4,
               ([DidOpen src (Some srcReader); DidCreate dest (Some destWriter);
                 DidCopy destWriter srcReader false] ++ closed)%list)
          | (None, fs3) =>
              let '(_, fs4) := Chmod os fs3 dest 432 in
              let now := timeNow os fs4 in
              let '(_, fs5) := Chtimes os fs4 dest now (fs.ModTime srcInfo) in
              let '(fs6, closed) := runDeferred [destWriter; srcReader] fs5 in
              (None, fs6,
               ([DidOpen src (Some srcReader); DidCreate dest (Some destWriter);
                 DidCopy destWriter srcReader true;
                 DidChmod dest 432;
                 DidChtimes dest now (fs.ModTime srcInfo)] ++ closed)%list)
          end
      end
  end.

(** The files that a log opens, and the files that it closes. *)
Definition opened (log : list (Event (File os))) : list (File os) :=
  flat_map (fun e => match e with
                     | DidOpen _ (Some f) | DidCreate _ (Some f) => [f]
                     | _ => []
                     end) log.

Definition closed (log : list (Event (File os))) : list (File os) :=
  flat_map (fun e => match e with DidClose f => [f] | _ => [] end) log.

(** The names that the calls of a log are given. *)
Definition touched (log : list (Event (File os))) : list string :=
  flat_map (fun e => match e with
                     | DidOpen name _ | DidCreate name _ | DidChmod name _
                     | DidChtimes name _ _ => [name]
                     | _ => []
                     end) log.

End CopyImpl.

End Copying.

(** * Properties *)

(** ** The models of the library functions on examples *)

Example TrimSpace_ex :
  TrimSpace ("  " ++ str1 9 ++ "=> /backup " ++ String (byte 194) (str1 160) ++ nl) = "=> /backup".
Proof. reflexivity. Qed.

Example Split_ex : SplitCommas "f5,,/d6/,,,x,," = ["f5"; "/d6/"; ",x"; ""].
Proof. reflexivity. Qed.

Example ParseInt_ex :
  ParseInt "-150" = Some (-150) /\ ParseInt "10MB" = None /\ ParseInt "" = None
  /\ ParseInt "9223372036854775808" = None /\ itoa 104 = "104" /\ itoa 0 = "0"
  /\ itoa (-7) = "-7" /\ TrimSuffix "/backup/" "/" = "/backup" /\ TrimSuffix "" "/" = "".
Proof. repeat split; reflexivity. Qed.

Example targetRex_ex :
  targetRex "=> /backup" = Some "/backup" /\ targetRex "=>" = Some ""
  /\ targetRex " =>" = None /\ maxAgeRex "!@20" = Some "20"
  /\ maxAgeRex ("!@ 1" ++ nl ++ "2") = None
  /\ excludeRex ("!@ 1" ++ nl ++ "2") = Some "@ 1"
  /\ extendExcludeRex "!+/[^/]*middle[^/]*/" = Some "/[^/]*middle[^/]*/"
  /\ excludeRex "!f5,,/d6/" = Some "f5,,/d6/" /\ maxSizeRex "!>10MB" = Some "10MB".
Proof. repeat split; reflexivity. Qed.

Example Dir_ex :
  Double.dirOf "/" (fun _ => "") "/backup/er1/d1/f2" = "/backup/er1/d1"
  /\ Double.dirOf "/" (fun _ => "") "/backupf1" = "/"
  /\ Double.dirOf "/" (fun _ => "") "f1" = "."
  /\ Double.dirOf "/" (fun _ => "") "/a/../b//c/./d" = "/b/c"
  /\ Double.dirOf "\" Double.driveOf "c:\backup\d1\f1" = "c:\backup\d1".
Proof. repeat split; reflexivity. Qed.

Example TestBackup_NoErrors :
  let result := Backup (Scenario.deps 100) Scenario.configNoErrors false Scenario.disk in
  fst result = None
  /\ calls (snd result)
     = [CallCopy "/d1/d2/f1" "/backup/d1/d2/f1" (Scenario.file 10 100);
        CallCopy "/d5/f1" "/backup/d5/f1" (Scenario.file 10 100);
        CallCopy "/d8/f1" "/backup/d8/f1" (Scenario.file 10 100)]
  /\ out (snd result)
     = ["target /backup" ++ nl; "since -1728000000000000" ++ nl; "max size 150" ++ nl;
        "exclude f5,,/d6/" ++ nl; "extend exclude middle" ++ nl;
        nl ++ "/d1" ++ nl; "Dirs: 2, Files: 2, Copied: 1" ++ nl;
        nl ++ "/d3/d4" ++ nl; "Dirs: 1, Files: 4, Copied: 0" ++ nl;
        nl ++ "/d5" ++ nl; "Dirs: 1, Files: 2, Copied: 1" ++ nl;
        nl ++ "/d7" ++ nl; "Dirs: 1, Files: 0, Copied: 0" ++ nl;
        nl ++ "/d8/f1" ++ nl].
Proof. vm_compute. repeat split; reflexivity. Qed.

Example TestBackup_DryRun :
  let result := Backup (Scenario.deps 100) Scenario.configNoErrors true Scenario.disk in
  fst result = None
  /\ calls (snd result) = []
  /\ In ("Dirs: 2, Files: 2, Copied: 1" ++ nl) (out (snd result))
  /\ In ("/d1/d2/f1" ++ nl) (out (snd result)).
Proof. vm_compute. repeat split; auto 20. Qed.

Example TestBackup_Errors :
  fst (Backup (Scenario.deps 100) Scenario.configErrors false Scenario.disk)
  = Some "4 errors".
Proof. vm_compute. reflexivity. Qed.

Example TestBackup_TooManyErrors :
  fst (Backup (Scenario.deps 2) Scenario.configErrors false Scenario.disk)
  = Some "2 errors".
Proof. vm_compute. reflexivity. Qed.

Example TestBackup_NoTarget :
  fst (Backup (Scenario.deps 100) Scenario.configNoTarget false Scenario.disk)
  = Some errText.
Proof. vm_compute. reflexivity. Qed.

(** ** Working with computations *)

Section Basics.

Context (D : Deps).

Lemma bind_Done {A B} (m : M D A) (k : A -> M D B) s a s1 :
  m s = (Done a, s1) -> bind m k s = k a s1.
Proof. intros E. unfold bind. now rewrite E. Qed.

Lemma bind_Panic {A B} (m : M D A) (k : A -> M D B) s p s1 :
  m s = (Panic p, s1) -> bind m k s = (Panic p, s1).
Proof. intros E. unfold bind. now rewrite E. Qed.

Lemma bind_inv {A B} (m : M D A) (k : A -> M D B) s r s' :
  bind m k s = (r, s') ->
  (exists a s1, m s = (Done a, s1) /\ k a s1 = (r, s'))
  \/ (exists p, m s = (Panic p, s') /\ r = Panic p).
Proof.
  unfold bind. destruct (m s) as [[a | p] s1] eqn:E; intros H.
  - left. eauto.
  - right. inversion H; subst. eauto.
Qed.

(** A message is recorded in any case; the run goes on exactly when
    the cap is not reached by it. *)
Lemma msg_spec m (s : State D) :
  msg D m s =
  (if Z.of_nat (length (msgs s)) + 1 >=? maxErrors D
   then Panic TooManyErrors else Done tt,
   setMsgs (msgs s ++ [m]) s).
Proof.
  unfold msg. simpl. rewrite length_app. simpl.
  replace (Z.of_nat (length (msgs s) + 1)) with (Z.of_nat (length (msgs s)) + 1) by lia.
  now destruct (_ >=? _).
Qed.

(** Induction over a directory tree with its entries. *)
Lemma DirTree_induction (P : fs.DirTree -> Prop) :
  (forall path info, P (fs.File path info)) ->
  (forall path readErr entries,
      Forall P entries -> P (fs.Directory path readErr entries)) ->
  forall t, P t.
Proof.
  intros HF HD.
  fix IH 1.
  intros [path info | path readErr entries].
  - apply HF.
  - apply HD. induction entries as [| t1 l IHl]; constructor.
    + apply IH.
    + exact IHl.
Qed.

Lemma walkTree_File path info :
  walkTree D (fs.File path info) = walkCallback D path (Some (fs.EntryFile info)).
Proof. reflexivity. Qed.

Lemma walkTree_Directory path readErr entries :
  walkTree D (fs.Directory path readErr entries) =
  bind (walkCallback D path (Some fs.EntryDir))
    (fun r =>
       match r with
       | fs.SkipDir => ret fs.WalkNil
       | fs.WalkNil =>
           bind (if readErr then walkCallback D path (Some fs.EntryDir)
                 else ret fs.WalkNil)
             (fun r2 =>
                match r2 with
                | fs.SkipDir => ret fs.WalkNil
                | fs.WalkNil => walkEntries D entries
                end)
       end).
Proof. reflexivity. Qed.

Lemma walkEntries_cons t l :
  walkEntries D (t :: l) =
  bind (walkTree D t)
    (fun r1 => match r1 with
               | fs.SkipDir => ret fs.WalkNil
               | fs.WalkNil => walkEntries D l
               end).
Proof. reflexivity. Qed.

End Basics.

(** ** The error cap *)

Section ErrorCap.

Context (D : Deps).

Lemma Cap_ret {A} (a : A) : Cap (D:=D) (ret a).
Proof. intros s H. exact H. Qed.

Lemma Cap_bind {A B} (m : M D A) (k : A -> M D B) :
  Cap m -> (forall a, Cap (k a)) -> Cap (bind m k).
Proof.
  intros Hm Hk s Hs. specialize (Hm s Hs). unfold bind.
  destruct (m s) as [[a | p] s1]; simpl in *.
  - apply Hk. exact Hm.
  - exact Hm.
Qed.

Lemma Cap_get : Cap (D:=D) get.
Proof. intros s H. exact H. Qed.

Lemma Cap_modify (f : State D -> State D) :
  (forall s, msgs (f s) = msgs s) -> Cap (modify f).
Proof. intros Hf s H. unfold capped, belowCap in *. simpl. now rewrite Hf. Qed.

Lemma Cap_panic {A} p : p <> TooManyErrors -> Cap (D:=D) (A:=A) (panic p).
Proof. intros Hp s H. unfold capped. simpl. destruct p; congruence || exact H. Qed.

Lemma Cap_print text : Cap (print D text).
Proof. apply Cap_modify. reflexivity. Qed.

Lemma Cap_msg m : Cap (msg D m).
Proof.
  intros s H. rewrite msg_spec. unfold capped, belowCap in *.
  destruct (Z.geb_spec (Z.of_nat (length (msgs s)) + 1) (maxErrors D));
    simpl; rewrite length_app; simpl; lia.
Qed.

Lemma Cap_callChmod name mode : Cap (callChmod D name mode).
Proof. apply Cap_modify. reflexivity. Qed.

Lemma Cap_callMkdirAll path perm : Cap (callMkdirAll D path perm).
Proof.
  intros s H. unfold callMkdirAll.
  destruct (mkdirAll D (world s) path perm). exact H.
Qed.

Lemma Cap_callCopy src dest info : Cap (callCopy D src dest info).
Proof.
  intros s H. unfold callCopy.
  destruct (copy D (world s) src dest info). exact H.
Qed.

Create HintDb cap.
#[local] Hint Resolve Cap_ret Cap_get Cap_print Cap_msg Cap_callChmod Cap_callMkdirAll
  Cap_callCopy : cap.

(** Walks through the binds and the branches of a computation. *)
Ltac cap_step :=
  first
    [ solve [ auto with cap ]
    | apply Cap_bind; [ | intros ? ]
    | apply Cap_modify; reflexivity
    | apply Cap_panic; discriminate
    | match goal with
      | |- Cap (if ?c then _ else _) => destruct c
      | |- Cap (match ?x with _ => _ end) => destruct x
      | |- Cap (let _ := _ in _) => cbv zeta
      end ].

Ltac cap_auto := repeat cap_step.

Lemma Cap_parseParts parts : Cap (parseParts D parts).
Proof. induction parts as [| part rest IH]; simpl; cap_auto. Qed.
#[local] Hint Resolve Cap_parseParts : cap.

Lemma Cap_parseExclude arg extend : Cap (parseExclude D arg extend).
Proof. unfold parseExclude. cap_auto. Qed.
#[local] Hint Resolve Cap_parseExclude : cap.

Lemma Cap_processNonPathLine line : Cap (processNonPathLine D line).
Proof. unfold processNonPathLine. cap_auto. Qed.
#[local] Hint Resolve Cap_processNonPathLine : cap.

Lemma Cap_copyStep src dest info : Cap (copyStep D src dest info).
Proof. unfold copyStep. cap_auto. Qed.
#[local] Hint Resolve Cap_copyStep : cap.

Lemma Cap_handleFile path info : Cap (handleFile D path info).
Proof. unfold handleFile, countFile, syncFile. cap_auto. Qed.
#[local] Hint Resolve Cap_handleFile : cap.

Lemma Cap_walkCallback path d : Cap (walkCallback D path d).
Proof. unfold walkCallback. cap_auto. Qed.
#[local] Hint Resolve Cap_walkCallback : cap.

Lemma Cap_walkEntries l :
  Forall (fun t => Cap (walkTree D t)) l -> Cap (walkEntries D l).
Proof.
  induction 1 as [| t l Ht _ IH].
  - apply Cap_ret.
  - rewrite walkEntries_cons. cap_auto.
Qed.

Lemma Cap_walkTree t : Cap (walkTree D t).
Proof.
  induction t as [path info | path readErr entries IH] using DirTree_induction.
  - rewrite walkTree_File. apply Cap_walkCallback.
  - rewrite walkTree_Directory. pose proof (Cap_walkEntries _ IH). cap_auto.
Qed.
#[local] Hint Resolve Cap_walkTree : cap.

Lemma Cap_walk path : Cap (walk D path).
Proof.
  unfold walk. apply Cap_bind; [apply Cap_get | intros s].
  destruct (walkDir D (world s) path); cap_auto.
Qed.
#[local] Hint Resolve Cap_walk : cap.

Lemma Cap_handleDir path : Cap (handleDir D path).
Proof. unfold handleDir. cap_auto. Qed.
#[local] Hint Resolve Cap_handleDir : cap.

Lemma Cap_backupLine line : Cap (backupLine D line).
Proof. unfold backupLine. cap_auto. Qed.
#[local] Hint Resolve Cap_backupLine : cap.

Lemma Cap_backupLoop config : Cap (backupLoop D config).
Proof. induction config as [| line rest IH]; simpl; cap_auto. Qed.

End ErrorCap.

Section ErrorCapRun.

Context (D : Deps).

(** Once a computation has panicked, what would have followed it is
    not run: lines after the abort, and entries after the abort. *)
Lemma backupLoop_abort config more s p s' :
  backupLoop D config s = (Panic p, s') ->
  backupLoop D (config ++ more) s = (Panic p, s').
Proof.
  revert s. induction config as [| line rest IH]; intros s H.
  - discriminate H.
  - simpl in *. apply bind_inv in H as [(r & s1 & E & H) | (q & E & ->)].
    + rewrite (bind_Done D _ _ _ _ _ E). destruct r; [discriminate H | now apply IH].
    + now rewrite (bind_Panic D _ _ _ _ _ E).
Qed.

Lemma walkEntries_abort l more s p s' :
  walkEntries D l s = (Panic p, s') ->
  walkEntries D (l ++ more) s = (Panic p, s').
Proof.
  revert s. induction l as [| t l IH]; intros s H.
  - discriminate H.
  - rewrite <- app_comm_cons, walkEntries_cons in *.
    apply bind_inv in H as [(r & s1 & E & H) | (q & E & ->)].
    + rewrite (bind_Done D _ _ _ _ _ E). destruct r; [now apply IH | discriminate H].
    + now rewrite (bind_Panic D _ _ _ _ _ E).
Qed.

Lemma initial_belowCap dry w : 0 < maxErrors D -> belowCap (initial D dry w).
Proof. intros H. exact H. Qed.

(** C2.  With a positive cap, a run never records more messages than
    the cap; the loop over the configuration ends in the
    too-many-errors panic exactly when the number of messages has
    reached the cap; [Backup] then returns the error that reports the
    cap itself, with the file system and the log of calls left as they
    were at the abort; and neither configuration lines nor directory
    entries that come after the abort are processed.  In the error
    scenario of the package's tests, which produces four errors, a cap
    of 2 reports exactly two. *)
Theorem error_cap_aborts config dry w :
  0 < maxErrors D ->
  let run := backupLoop D config (initial D dry w) in
  let result := Backup D config dry w in
  Z.of_nat (length (msgs (snd result))) <= maxErrors D
  /\ (Z.of_nat (length (msgs (snd run))) = maxErrors D
      <-> fst run = Panic TooManyErrors)
  /\ (fst run = Panic TooManyErrors ->
      fst result = Some (itoa (maxErrors D) ++ " errors")
      /\ msgs (snd result) = msgs (snd run)
      /\ calls (snd result) = calls (snd run)
      /\ world (snd result) = world (snd run)
      /\ forall more, Backup D (config ++ more) dry w = result)
  /\ (forall l more s p s',
         walkEntries D l s = (Panic p, s') ->
         walkEntries D (l ++ more) s = (Panic p, s'))
  /\ (forall m s,
         fst (msg D m s) = Panic TooManyErrors
         <-> Z.of_nat (length (msgs s)) + 1 >= maxErrors D)
  /\ fst (Backup (Scenario.deps 2) Scenario.configErrors false Scenario.disk)
     = Some "2 errors"
  /\ fst (Backup (Scenario.deps 100) Scenario.configErrors false Scenario.disk)
     = Some "4 errors".
Proof.
  intros Hpos. cbv zeta. unfold Backup.
  pose proof (Cap_backupLoop D config _ (initial_belowCap dry w Hpos)) as Hcap.
  destruct (backupLoop D config (initial D dry w)) as [r s1] eqn:Erun.
  unfold capped, belowCap in Hcap. simpl in Hcap. simpl fst. simpl snd.
  assert (Hdef : r = Panic TooManyErrors ->
                 deferred D r s1 =
                 (Some (itoa (maxErrors D) ++ " errors"),
                  setOut (out s1 ++ [panicText TooManyErrors ++ nl]
                            ++ [nl ++ itoa (maxErrors D) ++ " errors:" ++ nl]
                            ++ map (fun m => m ++ nl) (msgs s1)) s1)).
  { intros ->. unfold deferred. simpl.
    destruct (Nat.ltb_spec 0 (length (msgs s1))); [ | lia ].
    rewrite Hcap. unfold setOut. simpl. now rewrite <- app_assoc. }
  split; [ | split; [ | split; [ | split; [ | split; [ | split ] ] ] ] ].
  - unfold deferred.
    destruct r as [e | p]; simpl in *; [ | destruct p ];
      match goal with
      | |- context [(0 <? ?n)%nat] => destruct (0 <? n)%nat
      end; simpl; lia.
  - split.
    + intros Hlen. destruct r as [e | []]; trivial; lia.
    + intros ->. exact Hcap.
  - intros Hr. subst r. rewrite (Hdef eq_refl). simpl. repeat split.
    intros more. rewrite (backupLoop_abort _ more _ _ _ Erun).
    exact (Hdef eq_refl).
  - apply walkEntries_abort.
  - intros m s. rewrite msg_spec. simpl.
    destruct (Z.geb_spec (Z.of_nat (length (msgs s)) + 1) (maxErrors D));
      split; intros; lia || congruence.
  - vm_compute. reflexivity.
  - vm_compute. reflexivity.
Qed.

End ErrorCapRun.

Lemma error_cap_aborts_witness :
  0 < maxErrors (Scenario.deps 2)
  /\ fst (Backup (Scenario.deps 2) Scenario.configErrors false Scenario.disk)
     = Some (itoa (maxErrors (Scenario.deps 2)) ++ " errors").
Proof.
  assert (H : 0 < maxErrors (Scenario.deps 2)) by reflexivity.
  split; [exact H | ].
  apply (error_cap_aborts (Scenario.deps 2) Scenario.configErrors false Scenario.disk H).
Defined.

(** ** Lines of the configuration *)

Section LineFacts.

Context (D : Deps).

Lemma isSource_spec line :
  isSource line = true ->
  (String.eqb line "" || commentRex line) = false
  /\ targetRex line = None /\ maxAgeRex line = None /\ maxSizeRex line = None
  /\ extendExcludeRex line = None /\ excludeRex line = None.
Proof.
  unfold isSource, classify.
  destruct (String.eqb line "" || commentRex line); [discriminate | ].
  destruct (targetRex line); [discriminate | ].
  destruct (maxAgeRex line); [discriminate | ].
  destruct (maxSizeRex line); [discriminate | ].
  destruct (extendExcludeRex line); [discriminate | ].
  destruct (excludeRex line); [discriminate | ].
  repeat split.
Qed.

(** A source line is no directive and leaves the context alone. *)
Lemma processNonPathLine_source line (s : State D) :
  isSource line = true -> processNonPathLine D line s = (Done false, s).
Proof.
  intros H. apply isSource_spec in H as (H1 & H2 & H3 & H4 & H5 & H6).
  unfold processNonPathLine. now rewrite H1, H2, H3, H4, H5, H6.
Qed.

Lemma skipSpaces_allSpaces ws : allSpaces ws = true -> skipSpaces ws = "".
Proof.
  induction ws as [| c ws IH]; simpl; [reflexivity | ].
  intros H. apply andb_prop in H as [Hc Hws]. rewrite Hc. auto.
Qed.

Lemma TrimSuffix_empty suffix : TrimSuffix "" suffix = "".
Proof. unfold TrimSuffix. now destruct (HasSuffix "" suffix). Qed.

(** A target directive without a path empties the target. *)
Lemma processNonPathLine_empty_target ws (s : State D) :
  allSpaces ws = true ->
  processNonPathLine D ("=>" ++ ws) s =
  (Done true, setOut (out s ++ ["target " ++ nl]) (setTargetPath "" s)).
Proof.
  intros H.
  assert (Htarget : targetRex ("=>" ++ ws) = Some "").
  { unfold targetRex, findOpen.
    change (CutPrefix ("=>" ++ ws) "=>") with (Some ws). cbv beta iota.
    now rewrite (skipSpaces_allSpaces _ H). }
  unfold processNonPathLine. rewrite Htarget.
  change (String.eqb ("=>" ++ ws) "" || commentRex ("=>" ++ ws)) with false.
  cbv iota. unfold bind, modify, get, print, ret. simpl.
  now rewrite TrimSuffix_empty.
Qed.

Lemma isSpace_asciiSpace c : isSpace c = true -> asciiSpace c = true.
Proof.
  unfold isSpace, asciiSpace.
  destruct (nat_of_ascii c) as [| n]; [discriminate | ].
  do 32 (destruct n as [| n]; try discriminate; try reflexivity).
Qed.

Lemma trimFront_spaces back ws t :
  allSpaces ws = true -> trimFront back (ws ++ t) = trimFront back t.
Proof.
  induction ws as [| c ws IH]; simpl; [reflexivity | ].
  intros H. apply andb_prop in H as [Hc Hws].
  now rewrite (isSpace_asciiSpace _ Hc), IH.
Qed.

Lemma reverse_app a b : reverse (a ++ b) = reverse b ++ reverse a.
Proof.
  unfold reverse.
  assert (Happ : forall x y, list_ascii_of_string (x ++ y)
                             = (list_ascii_of_string x ++ list_ascii_of_string y)%list).
  { induction x as [| c x IHx]; intros y; simpl; [reflexivity | now rewrite IHx]. }
  assert (Hstr : forall x y, string_of_list_ascii (x ++ y)%list
                             = string_of_list_ascii x ++ string_of_list_ascii y).
  { induction x as [| c x IHx]; intros y; simpl; [reflexivity | now rewrite IHx]. }
  now rewrite Happ, rev_app_distr, Hstr.
Qed.

Lemma allSpaces_reverse ws : allSpaces ws = true -> allSpaces (reverse ws) = true.
Proof.
  assert (Happ : forall x y, allSpaces (x ++ y) = allSpaces x && allSpaces y).
  { induction x as [| c x IHx]; intros y; simpl; [reflexivity | ].
    now rewrite IHx, andb_assoc. }
  induction ws as [| c ws IH]; [reflexivity | ].
  simpl. intros H. apply andb_prop in H as [Hc Hws].
  change (String c ws) with (String c "" ++ ws).
  rewrite reverse_app, Happ, (IH Hws). simpl. now rewrite Hc.
Qed.

Lemma TrimSpace_empty_target ws :
  allSpaces ws = true -> TrimSpace ("=>" ++ ws) = "=>".
Proof.
  intros H. unfold TrimSpace.
  replace (trimFront false ("=>" ++ ws)) with ("=>" ++ ws)
    by (destruct ws; reflexivity).
  rewrite reverse_app, trimFront_spaces by now apply allSpaces_reverse.
  reflexivity.
Qed.

(** C9.  A target directive that consists of [=>] alone, or of [=>]
    and white space, sets [targetPath] to the empty string; a source
    line that follows it is refused with the fatal missing-target
    error, the loop stops there, and no slot is called.  Started on
    such a configuration, [Backup] returns that error. *)
Theorem empty_target_is_no_target ws line rest :
  allSpaces ws = true ->
  isSource (TrimSpace line) = true ->
  (forall s : State D,
      backupLine D ("=>" ++ ws) s =
      (Done None, setOut (out s ++ ["target " ++ nl]) (setTargetPath "" s))
      /\ backupLoop D (("=>" ++ ws) :: line :: rest) s =
         (Done (Some errText),
          setOut (out s ++ ["target " ++ nl; "FATAL: " ++ errText ++ nl])
            (setTargetPath "" s)))
  /\ forall dry w,
      fst (Backup D (("=>" ++ ws) :: line :: rest) dry w) = Some errText
      /\ calls (snd (Backup D (("=>" ++ ws) :: line :: rest) dry w)) = []
      /\ targetPath (snd (Backup D (("=>" ++ ws) :: line :: rest) dry w)) = "".
Proof.
  intros Hws Hsrc.
  assert (Hline : forall s : State D,
             backupLine D ("=>" ++ ws) s =
             (Done None, setOut (out s ++ ["target " ++ nl]) (setTargetPath "" s))).
  { intros s. unfold backupLine. rewrite (TrimSpace_empty_target _ Hws).
    change "=>" with ("=>" ++ "").
    erewrite bind_Done by (apply processNonPathLine_empty_target; reflexivity).
    reflexivity. }
  assert (Hloop : forall s : State D,
             backupLoop D (("=>" ++ ws) :: line :: rest) s =
             (Done (Some errText),
              setOut (out s ++ ["target " ++ nl; "FATAL: " ++ errText ++ nl])
                (setTargetPath "" s))).
  { intros s. cbn [backupLoop].
    erewrite bind_Done by apply Hline.
    unfold backupLine at 1.
    erewrite bind_Done by (erewrite bind_Done by (now apply processNonPathLine_source); reflexivity).
    unfold ret, setOut, setTargetPath. simpl. now rewrite <- app_assoc. }
  split; [ intros s; split; [apply Hline | apply Hloop] | ].
  intros dry w. unfold Backup. rewrite Hloop. simpl. auto.
Qed.

End LineFacts.

Lemma empty_target_is_no_target_witness :
  allSpaces "  " = true
  /\ isSource (TrimSpace "/any_source") = true
  /\ fst (Backup (Scenario.deps 100) ["=>  "; "/any_source"] false Scenario.disk)
     = Some errText.
Proof.
  assert (H1 : allSpaces "  " = true) by reflexivity.
  assert (H2 : isSource (TrimSpace "/any_source") = true) by reflexivity.
  split; [exact H1 | split; [exact H2 | ]].
  apply (empty_target_is_no_target (Scenario.deps 100) "  " "/any_source" [] H1 H2).
Defined.

(** ** Exclude directives *)

Section ExcludeDirectives.

Context (D : Deps).

Lemma parseParts_exclude parts (s s' : State D) :
  parseParts D parts s = (Done tt, s') ->
  exclude s' =
  (exclude s ++
   flat_map (fun part =>
               if String.eqb part "" then []
               else match Compile D part with Some rex => [rex] | None => [] end)
     parts)%list.
Proof.
  revert s. induction parts as [| part rest IH]; intros s H.
  - inversion H. simpl. now rewrite app_nil_r.
  - simpl in H. apply bind_inv in H as [([] & s1 & E & H) | (q & _ & Hq)];
      [ | discriminate Hq ].
    rewrite (IH _ H). simpl.
    destruct (String.eqb part "").
    + inversion E. reflexivity.
    + destruct (Compile D part) as [rex | ].
      * inversion E. simpl. now rewrite <- app_assoc.
      * rewrite msg_spec in E. inversion E. reflexivity.
Qed.

Lemma TrimSpace_allAsciiSpace arg : allAsciiSpace arg = true -> TrimSpace arg = "".
Proof.
  intros H. unfold TrimSpace.
  replace (trimFront false arg) with "" ; [reflexivity | ].
  induction arg as [| c arg IH]; [reflexivity | ].
  simpl in *. apply andb_prop in H as [Hc Harg]. rewrite Hc. auto.
Qed.

Lemma processNonPathLine_ExtendExclude line arg :
  classify line = ExtendExclude arg ->
  processNonPathLine D line =
  bind (parseExclude D arg true)
    (fun _ => bind (print D ("extend exclude " ++ arg ++ nl)) (fun _ => ret true)).
Proof.
  unfold classify, processNonPathLine.
  destruct (String.eqb line "" || commentRex line); [discriminate | ].
  destruct (targetRex line); [discriminate | ].
  destruct (maxAgeRex line); [discriminate | ].
  destruct (maxSizeRex line); [discriminate | ].
  destruct (extendExcludeRex line); [ | destruct (excludeRex line); discriminate ].
  now intros [= ->].
Qed.

Lemma processNonPathLine_Exclude line arg :
  classify line = Exclude arg ->
  processNonPathLine D line =
  bind (parseExclude D arg false)
    (fun _ => bind (print D ("exclude " ++ arg ++ nl)) (fun _ => ret true)).
Proof.
  unfold classify, processNonPathLine.
  destruct (String.eqb line "" || commentRex line); [discriminate | ].
  destruct (targetRex line); [discriminate | ].
  destruct (maxAgeRex line); [discriminate | ].
  destruct (maxSizeRex line); [discriminate | ].
  destruct (extendExcludeRex line); [discriminate | ].
  destruct (excludeRex line); [ | discriminate ].
  now intros [= ->].
Qed.

Lemma parseExclude_exclude arg extend (s s' : State D) :
  parseExclude D arg extend s = (Done tt, s') ->
  exclude s' = ((if extend then exclude s else []) ++ parsePatterns D arg)%list.
Proof.
  unfold parseExclude, parsePatterns. intros H.
  apply bind_inv in H as [([] & s1 & E & H) | (q & _ & Hq)]; [ | discriminate Hq ].
  rewrite (parseParts_exclude _ _ _ H).
  destruct extend; inversion E; reflexivity.
Qed.

(** C5.  An exclude directive that is carried out to its end leaves
    exactly the patterns parsed from its argument as the exclude list;
    an extend-exclude directive leaves the former list followed by its
    parsed patterns; a plain exclude directive with an empty or
    all-blank argument leaves the empty list.  With two patterns that
    compile, [! \.log$] then [!+ \.tmp$] leaves both and [! \.log$]
    then [! \.tmp$] leaves the second one alone. *)
Theorem exclude_replaces_extend_appends :
  (forall line arg (s s' : State D),
      classify line = Exclude arg ->
      processNonPathLine D line s = (Done true, s') ->
      exclude s' = parsePatterns D arg)
  /\ (forall line arg (s s' : State D),
      classify line = ExtendExclude arg ->
      processNonPathLine D line s = (Done true, s') ->
      exclude s' = (exclude s ++ parsePatterns D arg)%list)
  /\ (forall arg (s : State D),
      allAsciiSpace arg = true ->
      parsePatterns D arg = []
      /\ parseExclude D arg false s = (Done tt, setExclude [] s))
  /\ (forall s : State D,
      classify "!" = Exclude ""
      /\ processNonPathLine D "!" s
         = (Done true, setOut (out s ++ ["exclude " ++ nl]) (setExclude [] s)))
  /\ (forall log tmp (s : State D),
      Compile D "\.log$" = Some log ->
      Compile D "\.tmp$" = Some tmp ->
      exclude (snd (backupLoop D ["! \.log$"; "!+ \.tmp$"] s)) = [log; tmp]
      /\ exclude (snd (backupLoop D ["! \.log$"; "! \.tmp$"] s)) = [tmp]).
Proof.
  split; [ | split; [ | split; [ | split ] ] ].
  - intros line arg s s' Hc H.
    rewrite (processNonPathLine_Exclude _ _ Hc) in H.
    apply bind_inv in H as [([] & s1 & E & H) | (q & _ & Hq)]; [ | discriminate Hq ].
    inversion H; subst. simpl.
    now rewrite (parseExclude_exclude _ _ _ _ E).
  - intros line arg s s' Hc H.
    rewrite (processNonPathLine_ExtendExclude _ _ Hc) in H.
    apply bind_inv in H as [([] & s1 & E & H) | (q & _ & Hq)]; [ | discriminate Hq ].
    inversion H; subst. simpl.
    now rewrite (parseExclude_exclude _ _ _ _ E).
  - intros arg s H. unfold parsePatterns, parseExclude.
    rewrite (TrimSpace_allAsciiSpace _ H). split; reflexivity.
  - intros s. split; reflexivity.
  - intros log tmp s Hlog Htmp.
    assert (E1 : forall s0 : State D,
               backupLine D "! \.log$" s0 =
               (Done None, setOut (out s0 ++ ["exclude \.log$" ++ nl]) (setExclude [log] s0))).
    { intros s0. unfold backupLine.
      change (TrimSpace "! \.log$") with "! \.log$".
      rewrite (processNonPathLine_Exclude "! \.log$" "\.log$" eq_refl).
      unfold parseExclude. change (SplitCommas (TrimSpace "\.log$")) with ["\.log$"].
      unfold bind, modify, print, ret. simpl. now rewrite Hlog. }
    assert (E2 : forall s0 : State D,
               backupLine D "!+ \.tmp$" s0 =
               (Done None, setOut (out s0 ++ ["extend exclude \.tmp$" ++ nl])
                             (setExclude (exclude s0 ++ [tmp]) s0))).
    { intros s0. unfold backupLine.
      change (TrimSpace "!+ \.tmp$") with "!+ \.tmp$".
      rewrite (processNonPathLine_ExtendExclude "!+ \.tmp$" "\.tmp$" eq_refl).
      unfold parseExclude. change (SplitCommas (TrimSpace "\.tmp$")) with ["\.tmp$"].
      unfold bind, modify, print, ret. simpl. now rewrite Htmp. }
    assert (E3 : forall s0 : State D,
               backupLine D "! \.tmp$" s0 =
               (Done None, setOut (out s0 ++ ["exclude \.tmp$" ++ nl]) (setExclude [tmp] s0))).
    { intros s0. unfold backupLine.
      change (TrimSpace "! \.tmp$") with "! \.tmp$".
      rewrite (processNonPathLine_Exclude "! \.tmp$" "\.tmp$" eq_refl).
      unfold parseExclude. change (SplitCommas (TrimSpace "\.tmp$")) with ["\.tmp$"].
      unfold bind, modify, print, ret. simpl. now rewrite Htmp. }
    cbn [backupLoop]. unfold bind at 1 3. rewrite !E1.
    unfold bind at 1 2. rewrite E2, E3. split; reflexivity.
Qed.

End ExcludeDirectives.

Lemma exclude_replaces_extend_appends_witness :
  Compile (Scenario.deps 100) "\.log$" = Some "\.log$"
  /\ Compile (Scenario.deps 100) "\.tmp$" = Some "\.tmp$"
  /\ exclude (snd (backupLoop (Scenario.deps 100) ["! \.log$"; "!+ \.tmp$"]
                     (initial (Scenario.deps 100) false Scenario.disk)))
     = ["\.log$"; "\.tmp$"]
  /\ exclude (snd (backupLoop (Scenario.deps 100) ["! \.log$"; "! \.tmp$"]
                     (initial (Scenario.deps 100) false Scenario.disk)))
     = ["\.tmp$"].
Proof.
  assert (H1 : Compile (Scenario.deps 100) "\.log$" = Some "\.log$") by reflexivity.
  assert (H2 : Compile (Scenario.deps 100) "\.tmp$" = Some "\.tmp$") by reflexivity.
  split; [exact H1 | split; [exact H2 | ]].
  apply (exclude_replaces_extend_appends (Scenario.deps 100)); assumption.
Defined.

(** ** Relations between the states of a run

    Any reflexive and transitive relation that each elementary update
    of the state respects, and that [syncFile] respects, relates the
    state before any part of the engine to the state after it. *)

Section Run.

Context (D : Deps) (R : State D -> State D -> Prop).

#[local] Abbreviation Respects := (Respects R).

Hypothesis R_refl : forall s, R s s.
Hypothesis R_trans : forall s1 s2 s3, R s1 s2 -> R s2 s3 -> R s1 s3.

Lemma Respects_ret {A} (a : A) : Respects (ret a).
Proof using R_refl. intros s. apply R_refl. Qed.

Lemma Respects_get : Respects get.
Proof using R_refl. intros s. apply R_refl. Qed.

Lemma Respects_panic {A} p : Respects (panic (A:=A) p).
Proof using R_refl. intros s. apply R_refl. Qed.

Lemma Respects_bind {A B} (m : M D A) (k : A -> M D B) :
  Respects m -> (forall a, Respects (k a)) -> Respects (bind m k).
Proof using R_trans.
  intros Hm Hk s. unfold bind. specialize (Hm s).
  destruct (m s) as [[a | p] s1]; simpl in *.
  - eapply R_trans; [exact Hm | apply Hk].
  - exact Hm.
Qed.

Hypothesis R_out : forall v s, R s (setOut v s).
Hypothesis R_msg : forall m s, R s (setMsgs (msgs s ++ [m]) s).

Lemma Respects_print text : Respects (print D text).
Proof using R_out. intros s. apply R_out. Qed.

Lemma Respects_msg m : Respects (msg D m).
Proof using R_msg. intros s. rewrite msg_spec. apply R_msg. Qed.

Hypothesis R_files : forall s, R s (incFiles s).
Hypothesis R_copied : forall s, R s (incCopied s).
Hypothesis R_dir : forall s, R s (incDir s).
Hypothesis R_reset : forall s, R s (setCount {| dir := 0; files := 0; copied := 0 |} s).
Hypothesis R_target : forall v s, R s (setTargetPath v s).
Hypothesis R_start : forall v s, R s (setStartDate v s).
Hypothesis R_max : forall v s, R s (setMaxSize v s).
Hypothesis R_exclude : forall v s, R s (setExclude v s).

Ltac respects_step :=
  first
    [ solve [ auto ]
    | apply Respects_ret | apply Respects_get | apply Respects_panic
    | apply Respects_print | apply Respects_msg
    | apply Respects_bind; [ | intros ? ]
    | match goal with
      | |- Respects (modify _) =>
          intros ?;
          first [ apply R_files | apply R_copied | apply R_dir | apply R_reset
                | apply R_target | apply R_start | apply R_max | apply R_exclude
                | apply R_out ]
      | |- Respects (callChmod _ _ _) => unfold callChmod
      | |- Respects (if ?c then _ else _) => destruct c
      | |- Respects (match ?x with _ => _ end) => destruct x
      | |- Respects (let _ := _ in _) => cbv zeta
      end ].

Ltac respects_auto := repeat respects_step.

Lemma Respects_countFile : Respects (countFile D).
Proof using R_refl R_trans R_out R_files. unfold countFile. respects_auto. Qed.

Section Slots.

(** A relation that a call of a writing slot respects whatever the
    slot does is respected by [syncFile]. *)
Hypothesis R_call : forall w c s, R s (setWorld w c s).

Lemma Respects_callMkdirAll path perm : Respects (callMkdirAll D path perm).
Proof using R_call.
  intros s. unfold callMkdirAll. destruct (mkdirAll D (world s) path perm). apply R_call.
Qed.

Lemma Respects_callCopy src dest info : Respects (callCopy D src dest info).
Proof using R_call.
  intros s. unfold callCopy. destruct (copy D (world s) src dest info). apply R_call.
Qed.

Lemma Respects_copyStep src dest info : Respects (copyStep D src dest info).
Proof using R_refl R_trans R_out R_msg R_copied R_call.
  pose proof Respects_callCopy. unfold copyStep. respects_auto.
Qed.

Lemma Respects_syncFile src info : Respects (syncFile D src info).
Proof using R_refl R_trans R_out R_msg R_copied R_call.
  pose proof Respects_callMkdirAll. pose proof Respects_copyStep.
  assert (Hchmod : forall name mode, Respects (callChmod D name mode))
    by (intros name mode s; apply R_call).
  unfold syncFile. respects_auto.
Qed.

End Slots.

Hypothesis R_sync : forall src info, Respects (syncFile D src info).

Lemma Respects_handleFile path info : Respects (handleFile D path info).
Proof using R_refl R_trans R_out R_files R_sync.
  pose proof Respects_countFile. unfold handleFile. respects_auto.
Qed.

Lemma Respects_walkCallback path d : Respects (walkCallback D path d).
Proof using R_refl R_trans R_out R_files R_dir R_sync.
  pose proof Respects_handleFile. unfold walkCallback. respects_auto.
Qed.

Lemma Respects_walkEntries l :
  Forall (fun t => Respects (walkTree D t)) l -> Respects (walkEntries D l).
Proof using R_refl R_trans.
  induction 1 as [| t l Ht _ IH].
  - apply Respects_ret.
  - rewrite walkEntries_cons. respects_auto.
Qed.

Lemma Respects_walkTree t : Respects (walkTree D t).
Proof using R_refl R_trans R_out R_files R_dir R_sync.
  pose proof Respects_walkCallback.
  induction t as [path info | path readErr entries IH] using DirTree_induction.
  - rewrite walkTree_File. auto.
  - rewrite walkTree_Directory. pose proof (Respects_walkEntries _ IH). respects_auto.
Qed.

Lemma Respects_walk path : Respects (walk D path).
Proof using R_refl R_trans R_out R_files R_dir R_sync.
  pose proof Respects_walkCallback. pose proof Respects_walkTree.
  unfold walk. respects_auto.
Qed.

Lemma Respects_handleDir path : Respects (handleDir D path).
Proof using R_refl R_trans R_out R_files R_dir R_reset R_sync.
  pose proof Respects_walk. unfold handleDir. respects_auto.
Qed.

Lemma Respects_parseParts parts : Respects (parseParts D parts).
Proof using R_refl R_trans R_exclude R_msg.
  induction parts as [| part rest IH]; simpl; respects_auto.
Qed.

Lemma Respects_processNonPathLine line : Respects (processNonPathLine D line).
Proof using R_refl R_trans R_out R_target R_start R_max R_exclude R_msg.
  pose proof Respects_parseParts.
  unfold processNonPathLine, parseExclude. respects_auto.
Qed.

Lemma Respects_backupLine line : Respects (backupLine D line).
Proof using R_refl R_trans R_out R_msg R_files R_dir R_reset R_target R_start R_max
  R_exclude R_sync.
  pose proof Respects_processNonPathLine. pose proof Respects_handleDir.
  pose proof Respects_handleFile.
  unfold backupLine. respects_auto.
Qed.

Lemma Respects_backupLoop config : Respects (backupLoop D config).
Proof using R_refl R_trans R_out R_msg R_files R_dir R_reset R_target R_start R_max
  R_exclude R_sync.
  pose proof Respects_backupLine.
  induction config as [| line rest IH]; simpl; respects_auto.
Qed.

End Run.

(** ** What the parts of the engine leave unchanged *)

(** The side conditions of the lemmas above for the relation that says
    that an observation of the state is kept. *)
Ltac keeps_basics :=
  first
    [ intros; reflexivity
    | intros; cbv beta in *; congruence
    | apply Respects_syncFile; keeps_basics ].

Section Settings.

Context (D : Deps).

(** Handling a file changes none of the settings. *)
Lemma syncFile_settings path info : Keeps settings (syncFile D path info).
Proof.
  apply (Respects_syncFile D (fun s s' => settings s' = settings s)); keeps_basics.
Qed.

Lemma handleFile_settings path info : Keeps settings (handleFile D path info).
Proof.
  apply (Respects_handleFile D (fun s s' => settings s' = settings s)); keeps_basics.
Qed.

(** Handling a file does not touch the directory counter. *)
Lemma handleFile_dir path info :
  Keeps (fun s => dir (count s)) (handleFile D path info).
Proof.
  apply (Respects_handleFile D (fun s s' => dir (count s') = dir (count s)));
    keeps_basics.
Qed.

(** A directive calls no slot and counts nothing. *)
Lemma processNonPathLine_world line :
  Keeps (fun s => (dryRun s, world s, calls s, count s)) (processNonPathLine D line).
Proof.
  apply (Respects_processNonPathLine D
           (fun s s' => (dryRun s', world s', calls s', count s')
                        = (dryRun s, world s, calls s, count s)));
    keeps_basics.
Qed.

End Settings.

(** ** Where the writing calls go *)

Section Calls.

Context (D : Deps).

Lemma Grow_refl (s : State D) : Grow s s.
Proof. split; [reflexivity | ]. exists []. now rewrite app_nil_r. Qed.

Lemma Grow_trans (s1 s2 s3 : State D) : Grow s1 s2 -> Grow s2 s3 -> Grow s1 s3.
Proof.
  intros [T1 (l1 & C1 & F1)] [T2 (l2 & C2 & F2)]. split; [congruence | ].
  exists (l1 ++ l2)%list. split.
  - now rewrite C2, C1, app_assoc.
  - apply Forall_app. split; [exact F1 | now rewrite <- T1].
Qed.

(** A step that leaves target and log alone. *)
Lemma Grow_same (s s' : State D) :
  targetPath s' = targetPath s -> calls s' = calls s -> Grow s s'.
Proof.
  intros T C. split; [exact T | ]. exists []. now rewrite app_nil_r.
Qed.

(** A step that logs one call for the target. *)
Lemma Grow_call (s : State D) w c : okCall D (targetPath s) c -> Grow s (setWorld w c s).
Proof. intros H. split; [reflexivity | ]. exists [c]. split; [reflexivity | now constructor]. Qed.

Lemma Grow_record m (s : State D) : Grow s (snd (msg D m s)).
Proof. rewrite msg_spec. now apply Grow_same. Qed.

(** The copy step logs at most the copy to the given destination. *)
Lemma Grow_copyStep src info (s : State D) :
  Grow s (snd (copyStep D src (destPathOf D (targetPath s) src) info s)).
Proof.
  unfold copyStep, bind, get. simpl. destruct (dryRun s).
  - now apply Grow_same.
  - unfold callCopy.
    destruct (copy D (world s) src _ info) as [[e | ] w] eqn:E; simpl.
    + eapply Grow_trans; [ | apply Grow_record ]. apply Grow_call. exact eq_refl.
    + apply (Grow_trans s (setWorld w (CallCopy src (destPathOf D (targetPath s) src) info) s));
        [apply Grow_call; exact eq_refl | now apply Grow_same].
Qed.

Lemma Grow_syncFile src info : Respects Grow (syncFile D src info).
Proof.
  intros s. unfold syncFile, bind at 1, get. simpl.
  destruct (_ <? _)%nat; [apply Grow_refl | ].
  set (dest := destPathOf D (targetPath s) src).
  destruct (stat D (world s) dest) as [destInfo | ].
  - destruct (negb _); [apply Grow_refl | ].
    destruct (isWin D && _).
    + unfold bind, callChmod, modify. simpl.
      eapply Grow_trans; [ | apply (Grow_copyStep src info (setWorld _ _ s)) ].
      apply Grow_call. now exists src.
    + apply Grow_copyStep.
  - destruct (dryRun s); [apply Grow_copyStep | ].
    unfold bind, callMkdirAll.
    destruct (mkdirAll D (world s) (Dir D dest) (destDirPerm D)) as [[e | ] w].
    + eapply Grow_trans; [ | apply Grow_record ]. apply Grow_call. now exists src.
    + eapply Grow_trans; [ | apply (Grow_copyStep src info (setWorld _ _ s)) ].
      apply Grow_call. now exists src.
Qed.

Ltac grow_basics :=
  first
    [ exact Grow_refl | exact Grow_trans | exact Grow_syncFile
    | intros; now apply Grow_same ].

Lemma Grow_handleFile path info : Respects Grow (handleFile D path info).
Proof. apply Respects_handleFile; grow_basics. Qed.

Lemma Grow_handleDir path : Respects Grow (handleDir D path).
Proof. apply Respects_handleDir; grow_basics. Qed.

Lemma CutPrefix_app a b : CutPrefix (a ++ b) a = Some b.
Proof.
  induction a as [| c a IH]; [now destruct b | ].
  simpl. now rewrite Ascii.eqb_refl.
Qed.

Lemma destPathOf_HasPrefix target src : HasPrefix (destPathOf D target src) target = true.
Proof. unfold HasPrefix, destPathOf. now rewrite CutPrefix_app. Qed.

End Calls.

Section CallsOfALine.

Context (D : Deps).

Lemma backupLine_Grow line (s : State D) :
  let s' := snd (backupLine D line s) in
  exists l, calls s' = (calls s ++ l)%list /\ Forall (okCall D (targetPath s')) l.
Proof.
  cbv zeta. unfold backupLine.
  pose proof (processNonPathLine_world D (TrimSpace line) s) as Hw.
  destruct (processNonPathLine D (TrimSpace line) s) as [[directive | p] s1] eqn:E;
    simpl in Hw; injection Hw as _ _ Hcalls _;
    [ rewrite (bind_Done D _ _ _ _ _ E) | rewrite (bind_Panic D _ _ _ _ _ E) ].
  - assert (Hrest : forall (m : M D error), Respects Grow m ->
               exists l, calls (snd (m s1)) = (calls s ++ l)%list
                         /\ Forall (okCall D (targetPath (snd (m s1)))) l).
    { intros m Hm. destruct (Hm s1) as [T (l & C & F)].
      exists l. rewrite T, C, Hcalls. auto. }
    assert (Hret : forall A (a : A), Respects Grow (ret (D:=D) a))
      by (intros; apply Respects_ret, Grow_refl).
    assert (Hbind : forall A B (m : M D A) (k : A -> M D B),
               Respects Grow m -> (forall a, Respects Grow (k a)) ->
               Respects Grow (bind m k))
      by (intros; apply Respects_bind; [apply Grow_trans | assumption ..]).
    destruct directive; apply Hrest; [apply Hret | ].
    apply Hbind; [apply Respects_get, Grow_refl | intros s2].
    destruct (String.eqb (targetPath s2) "").
    + apply Hbind; [ | intros; apply Hret ].
      intros s3. now apply Grow_same.
    + destruct (stat D (world s2) (TrimSpace line)) as [info | ].
      * apply Hbind; [intros s3; now apply Grow_same | intros _].
        apply Hbind; [ | intros; apply Hret ].
        destruct (fs.IsDir info); [apply Grow_handleDir | apply Grow_handleFile].
      * apply Hbind; [ | intros; apply Hret ].
        intros s3. apply Grow_record.
  - exists []. simpl. rewrite app_nil_r. auto.
Qed.

(** C10, as the engine has it.  For every line of a configuration and
    from every state, each writing call that the line adds to the log
    is made for the target in force: [chmod] and the destination of
    [copy] receive the target followed by the source path without its
    volume name, which begins with the target; [mkdirAll] receives the
    [filepath.Dir] of such a path. *)
Theorem writes_are_for_the_target line (s : State D) :
  let s' := snd (backupLine D line s) in
  exists l,
    calls s' = (calls s ++ l)%list
    /\ Forall (okCall D (targetPath s')) l
    /\ Forall (fun c =>
                 match c with
                 | CallChmod name _ => HasPrefix name (targetPath s') = true
                 | CallCopy _ dest _ => HasPrefix dest (targetPath s') = true
                 | CallMkdirAll path _ =>
                     exists dest,
                       HasPrefix dest (targetPath s') = true /\ path = Dir D dest
                 end) l.
Proof.
  destruct (backupLine_Grow line s) as (l & C & F). cbv zeta.
  exists l. repeat split; trivial.
  eapply Forall_impl; [ | exact F ].
  intros [name mode | path perm | src dest info]; simpl.
  - intros (src & ->). apply destPathOf_HasPrefix.
  - intros (src & ->). eexists. split; [apply destPathOf_HasPrefix | reflexivity].
  - intros ->. apply destPathOf_HasPrefix.
Qed.

End CallsOfALine.

(** C10 as stated fails for [mkdirAll]: with the target [/backup] and
    the source [f1], the destination is [/backupf1] and the directory
    that [mkdirAll] is asked to create is [/], which does not begin
    with the target. *)
Lemma mkdirAll_outside_target :
  calls (snd (Backup Cases.unixDeps Cases.relativeConfig false Cases.relativeDisk))
  = [CallMkdirAll "/" 504; CallCopy "f1" "/backupf1" (Cases.file 20 420)]
  /\ targetPath (snd (Backup Cases.unixDeps Cases.relativeConfig false Cases.relativeDisk))
     = "/backup"
  /\ HasPrefix "/" "/backup" = false.
Proof. vm_compute. repeat split; reflexivity. Qed.

(** ** The calls made for one file *)

Section FileCalls.

Context (D : Deps).

Lemma copyStep_calls src dest info (s : State D) :
  calls (snd (copyStep D src dest info s)) =
  (calls s ++ if dryRun s then [] else [CallCopy src dest info])%list.
Proof.
  unfold copyStep, bind, get. simpl. destruct (dryRun s).
  - simpl. now rewrite app_nil_r.
  - unfold callCopy. destruct (copy D (world s) src dest info) as [[e | ] w]; simpl.
    + now rewrite msg_spec.
    + reflexivity.
Qed.

Lemma syncFile_calls src info (s : State D) :
  calls (snd (syncFile D src info s)) = (calls s ++ syncCalls D s src info)%list.
Proof.
  unfold syncFile, syncCalls, bind at 1, get. simpl.
  destruct (_ <? _)%nat; [simpl; now rewrite app_nil_r | ].
  set (dest := destPathOf D (targetPath s) src).
  destruct (stat D (world s) dest) as [destInfo | ].
  - destruct (negb _); [simpl; now rewrite app_nil_r | ].
    destruct (isWin D && _).
    + unfold bind, callChmod, modify. simpl.
      rewrite copyStep_calls. simpl. now rewrite <- app_assoc.
    + unfold bind, ret. now rewrite copyStep_calls.
  - destruct (dryRun s) eqn:Edry.
    + rewrite copyStep_calls, Edry. reflexivity.
    + unfold bind, callMkdirAll.
      destruct (mkdirAll D (world s) (Dir D dest) (destDirPerm D)) as [[e | ] w]; simpl.
      * now rewrite msg_spec.
      * rewrite copyStep_calls. simpl. rewrite Edry. now rewrite <- app_assoc.
Qed.

(** Counting a file changes the counter of files and the output only. *)
Lemma countFile_keeps (s : State D) :
  let s1 := snd (countFile D s) in
  settings s1 = settings s /\ world s1 = world s /\ calls s1 = calls s
  /\ msgs s1 = msgs s /\ copied (count s1) = copied (count s)
  /\ dir (count s1) = dir (count s).
Proof.
  cbv zeta. repeat split.
  - apply (Respects_countFile D (fun s s' => settings s' = settings s)); keeps_basics.
  - apply (Respects_countFile D (fun s s' => world s' = world s)); keeps_basics.
  - apply (Respects_countFile D (fun s s' => calls s' = calls s)); keeps_basics.
  - apply (Respects_countFile D (fun s s' => msgs s' = msgs s)); keeps_basics.
  - apply (Respects_countFile D (fun s s' => copied (count s') = copied (count s)));
      keeps_basics.
  - apply (Respects_countFile D (fun s s' => dir (count s') = dir (count s)));
      keeps_basics.
Qed.

Lemma countFile_result (s : State D) :
  fst (countFile D s) =
  if negb (dryRun s) && (printDotFileCount D =? 0) then Panic DivideByZero else Done tt.
Proof.
  unfold countFile, bind, modify, get. simpl.
  destruct (dryRun s); [reflexivity | ]. simpl.
  destruct (printDotFileCount D =? 0); [reflexivity | ].
  now destruct (Z.rem _ _ =? 0).
Qed.

Lemma filtered_settings (s1 s : State D) path info :
  settings s1 = settings s -> filtered s1 path info = filtered s path info.
Proof. unfold settings, filtered, excluded. now intros [= _ _ -> -> ->]. Qed.

Lemma syncCalls_settings (s1 s : State D) path info :
  settings s1 = settings s -> world s1 = world s ->
  syncCalls D s1 path info = syncCalls D s path info.
Proof. unfold settings, syncCalls. now intros [= -> -> _ _ _] ->. Qed.

(** What [handleFile] does once the file is counted. *)
Lemma handleFile_unfold path info (s : State D) :
  handleFile D path info s =
  match countFile D s with
  | (Done _, s1) =>
      if filtered s path info then (Done tt, s1) else syncFile D path info s1
  | (Panic p, s1) => (Panic p, s1)
  end.
Proof.
  unfold handleFile, bind at 1.
  pose proof (countFile_keeps s) as (Hs & _). cbv zeta in Hs.
  destruct (countFile D s) as [[[] | p] s1]; [ | reflexivity ].
  cbn [snd] in Hs. unfold bind, get. cbv beta iota.
  rewrite (filtered_settings _ _ _ _ Hs). now destruct (filtered s path info).
Qed.

Lemma handleFile_calls path info (s : State D) :
  calls (snd (handleFile D path info s)) = (calls s ++ fileCalls D s path info)%list.
Proof.
  rewrite handleFile_unfold. unfold fileCalls.
  pose proof (countFile_keeps s) as (Hs & Hw & Hc & _).
  pose proof (countFile_result s) as Hr. cbv zeta in *.
  destruct (countFile D s) as [[[] | p] s1]; simpl in *.
  - destruct (negb (dryRun s) && _); [discriminate Hr | ]. simpl.
    destruct (filtered s path info); simpl.
    + now rewrite Hc, app_nil_r.
    + now rewrite syncFile_calls, Hc, (syncCalls_settings _ _ _ _ Hs Hw).
  - destruct (negb (dryRun s) && _); [ | discriminate Hr ]. simpl.
    now rewrite Hc, app_nil_r.
Qed.

End FileCalls.

(** ** A destination that is up to date, and the chmod before a copy *)

Section UpToDate.

Context (D : Deps).

(** A file whose destination exists and is not older is counted, and
    nothing else happens. *)
Lemma handleFile_in_sync path info destInfo (s : State D) :
  stat D (world s) (destPathOf D (targetPath s) path) = Some destInfo ->
  fs.ModTime info <= fs.ModTime destInfo ->
  snd (handleFile D path info s) = snd (countFile D s).
Proof.
  intros Hstat Hle. rewrite handleFile_unfold.
  pose proof (countFile_keeps D s) as (Hs & Hw & _). cbv zeta in *.
  destruct (countFile D s) as [[[] | p] s1]; [ | reflexivity ].
  destruct (filtered s path info); [reflexivity | ].
  simpl in *. unfold syncFile, bind, get. simpl.
  destruct (_ <? _)%nat; [reflexivity | ].
  injection Hs as _ Ht _ _ _. rewrite Ht, Hw, Hstat.
  destruct (Z.ltb_spec (fs.ModTime destInfo) (fs.ModTime info)); [lia | reflexivity].
Qed.

Lemma fileCalls_chmod path info (s : State D) name mode :
  In (CallChmod name mode) (fileCalls D s path info) ->
  isWin D = true
  /\ name = destPathOf D (targetPath s) path
  /\ mode = destDirPerm D
  /\ exists destInfo,
      stat D (world s) name = Some destInfo
      /\ fs.ModTime destInfo < fs.ModTime info.
Proof.
  unfold fileCalls, syncCalls.
  destruct (_ || _); [intros [] | ].
  destruct (_ <? _)%nat; [intros [] | ].
  destruct (stat D (world s) _) as [destInfo | ] eqn:Hstat.
  - destruct (Z.ltb_spec (fs.ModTime destInfo) (fs.ModTime info)); [ | intros [] ].
    simpl. destruct (isWin D); simpl.
    + destruct (negb _); simpl.
      * intros [[= <- <-] | Hin].
        -- repeat split. now exists destInfo.
        -- destruct (dryRun s); [destruct Hin | ].
           destruct Hin as [[=] | []].
      * intros Hin. destruct (dryRun s); [destruct Hin | ].
        destruct Hin as [[=] | []].
    + intros Hin. destruct (dryRun s); [destruct Hin | ].
      destruct Hin as [[=] | []].
  - destruct (dryRun s); [intros [] | ].
    intros [[=] | Hin].
    destruct (fst _); [destruct Hin | destruct Hin as [[=] | []]].
Qed.

(** C4, as the engine has it.  A file whose destination exists and is
    not older than the source is skipped after it is counted: no slot
    is called, so no [chmod] precedes the skip, and the file system is
    as before.  A [chmod] is only ever issued on Windows, for the
    destination path, with [destDirPerm], and when the destination
    exists and is older than the source, that is, before it is
    overwritten. *)
Theorem chmod_precedes_overwrite_only path info (s : State D) :
  (forall destInfo,
      stat D (world s) (destPathOf D (targetPath s) path) = Some destInfo ->
      fs.ModTime info <= fs.ModTime destInfo ->
      calls (snd (handleFile D path info s)) = calls s
      /\ world (snd (handleFile D path info s)) = world s
      /\ copied (count (snd (handleFile D path info s))) = copied (count s))
  /\ (forall l name mode,
      calls (snd (handleFile D path info s)) = (calls s ++ l)%list ->
      In (CallChmod name mode) l ->
      isWin D = true
      /\ name = destPathOf D (targetPath s) path
      /\ mode = destDirPerm D
      /\ exists destInfo,
          stat D (world s) name = Some destInfo
          /\ fs.ModTime destInfo < fs.ModTime info).
Proof.
  split.
  - intros destInfo Hstat Hle.
    rewrite (handleFile_in_sync _ _ _ _ Hstat Hle).
    pose proof (countFile_keeps D s) as (_ & Hw & Hc & _ & Hcop & _).
    auto.
  - intros l name mode Hcalls Hin.
    rewrite handleFile_calls in Hcalls. apply app_inv_head in Hcalls. subst l.
    now apply fileCalls_chmod.
Qed.

(** C3 fails on Windows.  In a dry run, a file that passes the filters
    and whose destination exists, is older than the source and has the
    owner-write bit set has its destination [chmod]ed: the call is made
    before the dry-run test of [handleFile]. *)
Theorem dry_run_still_calls_chmod path info destInfo (s : State D) :
  dryRun s = true ->
  isWin D = true ->
  filtered s path info = false ->
  (String.length (VolumeName D path) <= String.length path)%nat ->
  stat D (world s) (destPathOf D (targetPath s) path) = Some destInfo ->
  fs.ModTime destInfo < fs.ModTime info ->
  Z.land (fs.Mode destInfo) 128 <> 0 ->
  calls (snd (handleFile D path info s)) =
  (calls s ++ [CallChmod (destPathOf D (targetPath s) path) (destDirPerm D)])%list.
Proof.
  intros Hdry Hwin Hfil Hvol Hstat Hlt Hbit.
  rewrite handleFile_calls. f_equal.
  unfold fileCalls, syncCalls. rewrite Hdry, Hfil, Hstat, Hwin. simpl.
  destruct (Nat.ltb_spec (String.length path) (String.length (VolumeName D path)));
    [lia | ].
  destruct (Z.ltb_spec (fs.ModTime destInfo) (fs.ModTime info)); [ | lia ].
  simpl. destruct (Z.eqb_spec (Z.land (fs.Mode destInfo) 128) 0); [contradiction | ].
  reflexivity.
Qed.

(** In a dry run the other two writing slots are never called for a
    file, and off Windows none is. *)
Lemma dry_run_other_slots path info (s : State D) :
  dryRun s = true ->
  Forall (fun c => isWin D = true /\ exists name mode, c = CallChmod name mode)
    (fileCalls D s path info).
Proof.
  intros Hdry. unfold fileCalls, syncCalls. rewrite Hdry. simpl.
  destruct (filtered s path info); [constructor | ].
  destruct (_ <? _)%nat; [constructor | ].
  destruct (stat D (world s) _) as [destInfo | ]; [ | constructor ].
  destruct (negb _); [constructor | ].
  destruct (isWin D); simpl; [ | constructor ].
  destruct (negb _); simpl; repeat constructor; eauto.
Qed.

End UpToDate.

Lemma dry_run_still_calls_chmod_witness :
  let s := snd (backupLine Cases.winDeps "=> c:\backup"
                  (initial Cases.winDeps true Cases.winStale)) in
  (dryRun s = true
   /\ isWin Cases.winDeps = true
   /\ filtered s "c:\d1\f1" (Cases.file 20 438) = false
   /\ (String.length (VolumeName Cases.winDeps "c:\d1\f1") <= String.length "c:\d1\f1")%nat
   /\ stat Cases.winDeps (world s) (destPathOf Cases.winDeps (targetPath s) "c:\d1\f1")
      = Some (Cases.file 10 438)
   /\ fs.ModTime (Cases.file 10 438) < fs.ModTime (Cases.file 20 438)
   /\ Z.land (fs.Mode (Cases.file 10 438)) 128 <> 0)
  /\ calls (snd (handleFile Cases.winDeps "c:\d1\f1" (Cases.file 20 438) s))
     = [CallChmod "c:\backup\d1\f1" 511].
Proof.
  intros s.
  assert (H1 : dryRun s = true) by reflexivity.
  assert (H2 : isWin Cases.winDeps = true) by reflexivity.
  assert (H3 : filtered s "c:\d1\f1" (Cases.file 20 438) = false) by reflexivity.
  assert (H4 : (String.length (VolumeName Cases.winDeps "c:\d1\f1")
                <= String.length "c:\d1\f1")%nat) by (vm_compute; lia).
  assert (H5 : stat Cases.winDeps (world s)
                 (destPathOf Cases.winDeps (targetPath s) "c:\d1\f1")
               = Some (Cases.file 10 438)) by (vm_compute; reflexivity).
  assert (H6 : fs.ModTime (Cases.file 10 438) < fs.ModTime (Cases.file 20 438))
    by (simpl; lia).
  assert (H7 : Z.land (fs.Mode (Cases.file 10 438)) 128 <> 0) by (vm_compute; discriminate).
  split; [repeat split; assumption | ].
  exact (dry_run_still_calls_chmod Cases.winDeps "c:\d1\f1" (Cases.file 20 438)
           (Cases.file 10 438) s H1 H2 H3 H4 H5 H6 H7).
Defined.

(** The same on a whole run: the dry run over [winConfig] calls
    [chmod], and the mode of the destination is no longer what it was. *)
Lemma dry_run_changes_the_disk :
  calls (snd (Backup Cases.winDeps Cases.winConfig true Cases.winStale))
  = [CallChmod "c:\backup\d1\f1" 511]
  /\ Cases.winStale !! "c:\backup\d1\f1" = Some (Cases.file 10 438)
  /\ world (snd (Backup Cases.winDeps Cases.winConfig true Cases.winStale))
     !! "c:\backup\d1\f1" = Some (Cases.file 10 511).
Proof. vm_compute. repeat split; reflexivity. Qed.

(** C4 as stated fails: a destination that is as new as the source and
    read-only (mode 0444) is skipped without any call; it is read-only
    afterwards as before. *)
Lemma read_only_destination_not_cleared :
  isWin Cases.winDeps = true
  /\ Cases.winReadOnly !! "c:\backup\d1\f1" = Some (Cases.file 20 292)
  /\ Z.land 292 128 = 0
  /\ calls (snd (Backup Cases.winDeps Cases.winConfig false Cases.winReadOnly)) = []
  /\ world (snd (Backup Cases.winDeps Cases.winConfig false Cases.winReadOnly))
     !! "c:\backup\d1\f1" = Some (Cases.file 20 292).
Proof. vm_compute. repeat split; reflexivity. Qed.

Lemma chmod_precedes_overwrite_only_witness :
  let s := snd (backupLine Cases.winDeps "=> c:\backup"
                  (initial Cases.winDeps false Cases.winReadOnly)) in
  stat Cases.winDeps (world s) (destPathOf Cases.winDeps (targetPath s) "c:\d1\f1")
  = Some (Cases.file 20 292)
  /\ fs.ModTime (Cases.file 20 438) <= fs.ModTime (Cases.file 20 292)
  /\ calls (snd (handleFile Cases.winDeps "c:\d1\f1" (Cases.file 20 438) s)) = calls s.
Proof.
  intros s.
  assert (H1 : stat Cases.winDeps (world s)
                 (destPathOf Cases.winDeps (targetPath s) "c:\d1\f1")
               = Some (Cases.file 20 292)) by (vm_compute; reflexivity).
  assert (H2 : fs.ModTime (Cases.file 20 438) <= fs.ModTime (Cases.file 20 292))
    by (simpl; lia).
  split; [exact H1 | split; [exact H2 | ]].
  apply (proj1 (chmod_precedes_overwrite_only Cases.winDeps "c:\d1\f1"
                  (Cases.file 20 438) s) (Cases.file 20 292) H1 H2).
Defined.

(** ** The missing target *)

Section MissingTarget.

Context (D : Deps).

(** A source line met with an empty target stops the loop at once with
    the fatal error: the FATAL line is printed and nothing else
    changes. *)
Lemma backupLine_no_target line (s : State D) :
  isSource (TrimSpace line) = true ->
  targetPath s = "" ->
  backupLine D line s =
  (Done (Some errText), setOut (out s ++ ["FATAL: " ++ errText ++ nl]) s).
Proof.
  intros Hsrc Ht. unfold backupLine.
  rewrite (bind_Done D _ _ _ _ _ (processNonPathLine_source D _ s Hsrc)).
  unfold bind, get. now rewrite Ht.
Qed.

Lemma errors_text_differs n : n ++ " errors" <> errText.
Proof.
  intros H. apply (f_equal reverse) in H. rewrite reverse_app in H.
  discriminate H.
Qed.

(** C1 fails when messages were recorded before the offending line.
    [Backup] returns the fatal error from inside the loop, but its
    deferred function then replaces the result by the count of the
    recorded messages, so the caller receives the aggregated error. *)
Theorem fatal_error_is_overwritten config dry w (s : State D) :
  backupLoop D config (initial D dry w) = (Done (Some errText), s) ->
  msgs s <> [] ->
  fst (Backup D config dry w) = Some (itoa (Z.of_nat (length (msgs s))) ++ " errors")
  /\ fst (Backup D config dry w) <> Some errText.
Proof.
  intros Hloop Hmsgs. unfold Backup. rewrite Hloop. unfold deferred.
  destruct (msgs s) as [| m l] eqn:E; [contradiction | ].
  change (0 <? length (m :: l))%nat with true. cbv iota. simpl fst.
  split; [reflexivity | ].
  intros [= H]. exact (errors_text_differs _ H).
Qed.

(** Without recorded messages the fatal error does reach the caller. *)
Lemma fatal_error_returned config dry w (s : State D) :
  backupLoop D config (initial D dry w) = (Done (Some errText), s) ->
  msgs s = [] ->
  fst (Backup D config dry w) = Some errText.
Proof. intros Hloop Hmsgs. unfold Backup. rewrite Hloop. unfold deferred. now rewrite Hmsgs. Qed.

End MissingTarget.

Lemma fatal_error_is_overwritten_witness :
  let config := ["!(notclosed"; "/any_source"] in
  let s := snd (backupLoop Cases.unixDeps config (initial Cases.unixDeps false Cases.relativeDisk)) in
  backupLoop Cases.unixDeps config (initial Cases.unixDeps false Cases.relativeDisk)
  = (Done (Some errText), s)
  /\ msgs s <> []
  /\ fst (Backup Cases.unixDeps config false Cases.relativeDisk) = Some "1 errors"
  /\ calls (snd (Backup Cases.unixDeps config false Cases.relativeDisk)) = [].
Proof.
  intros config s.
  assert (H1 : backupLoop Cases.unixDeps config (initial Cases.unixDeps false Cases.relativeDisk)
               = (Done (Some errText), s)) by (vm_compute; reflexivity).
  assert (H2 : msgs s <> []) by (vm_compute; discriminate).
  split; [exact H1 | split; [exact H2 | split]].
  - exact (proj1 (fatal_error_is_overwritten Cases.unixDeps config false
                    Cases.relativeDisk s H1 H2)).
  - vm_compute. reflexivity.
Defined.

(** ** Failures of single files *)

Section Failures.

Context (D : Deps).

(** C8, as the engine has it.  A source line that cannot be stat'ed, a
    destination directory that cannot be created and a copy that fails
    each add one message to the collected ones; the file is not counted
    as copied and nothing else is done for it.  Unless that message
    brings the number of messages to [maxErrors], in which case the run
    is aborted, the computation ends normally, and then the loop over
    the configuration goes on with the next line and the walker with
    the next entry. *)
Theorem file_failure_is_recorded :
  (forall line (s : State D),
      isSource (TrimSpace line) = true ->
      targetPath s <> "" ->
      stat D (world s) (TrimSpace line) = None ->
      backupLine D line s =
      (if Z.of_nat (length (msgs s)) + 1 >=? maxErrors D
       then Panic TooManyErrors else Done None,
       setMsgs (msgs s ++ ["Cannot stat, skipping: " ++ TrimSpace line]) s))
  /\ (forall src info (s : State D) e w,
      dryRun s = false ->
      (String.length (VolumeName D src) <= String.length src)%nat ->
      stat D (world s) (destPathOf D (targetPath s) src) = None ->
      mkdirAll D (world s) (Dir D (destPathOf D (targetPath s) src)) (destDirPerm D)
      = (Some e, w) ->
      syncFile D src info s =
      (if Z.of_nat (length (msgs s)) + 1 >=? maxErrors D
       then Panic TooManyErrors else Done tt,
       setMsgs (msgs s ++ ["Cannot create dirs for: " ++ destPathOf D (targetPath s) src])
         (setWorld w (CallMkdirAll (Dir D (destPathOf D (targetPath s) src))
                        (destDirPerm D)) s)))
  /\ (forall src dest info (s : State D) e w,
      dryRun s = false ->
      copy D (world s) src dest info = (Some e, w) ->
      copyStep D src dest info s =
      (if Z.of_nat (length (msgs s)) + 1 >=? maxErrors D
       then Panic TooManyErrors else Done tt,
       setMsgs (msgs s ++ [e]) (setWorld w (CallCopy src dest info) s)))
  /\ (forall line rest (s s' : State D),
      backupLine D line s = (Done None, s') ->
      backupLoop D (line :: rest) s = backupLoop D rest s')
  /\ (forall path info rest (s s' : State D),
      handleFile D path info s = (Done tt, s') ->
      walkEntries D (fs.File path (Some info) :: rest) s = walkEntries D rest s').
Proof.
  split; [ | split; [ | split; [ | split ] ] ].
  - intros line s Hsrc Ht Hstat. unfold backupLine.
    rewrite (bind_Done D _ _ _ _ _ (processNonPathLine_source D _ s Hsrc)).
    unfold bind at 1, get.
    destruct (String.eqb_spec (targetPath s) ""); [contradiction | ].
    rewrite Hstat. unfold bind. rewrite msg_spec.
    now destruct (_ >=? _).
  - intros src info s e w Hdry Hvol Hstat Hmk.
    unfold syncFile, bind at 1, get.
    destruct (Nat.ltb_spec (String.length src) (String.length (VolumeName D src)));
      [lia | ].
    cbv zeta. rewrite Hstat, Hdry. unfold bind, callMkdirAll. rewrite Hmk.
    now rewrite msg_spec.
  - intros src dest info s e w Hdry Hcopy.
    unfold copyStep, bind at 1, get. rewrite Hdry.
    unfold bind, callCopy. rewrite Hcopy. now rewrite msg_spec.
  - intros line rest s s' H. cbn [backupLoop]. now rewrite (bind_Done D _ _ _ _ _ H).
  - intros path info rest s s' H. rewrite walkEntries_cons, walkTree_File.
    unfold walkCallback. unfold bind at 1 2. now rewrite H.
Qed.

End Failures.

Lemma file_failure_is_recorded_witness :
  let s := snd (backupLine (Scenario.deps 100) "=> /backup"
                  (initial (Scenario.deps 100) false Scenario.disk)) in
  isSource (TrimSpace "/nostat") = true
  /\ targetPath s <> ""
  /\ stat (Scenario.deps 100) (world s) (TrimSpace "/nostat") = None
  /\ backupLine (Scenario.deps 100) "/nostat" s
     = (Done None, setMsgs ["Cannot stat, skipping: /nostat"] s).
Proof.
  intros s.
  assert (H1 : isSource (TrimSpace "/nostat") = true) by reflexivity.
  assert (H2 : targetPath s <> "") by (vm_compute; discriminate).
  assert (H3 : stat (Scenario.deps 100) (world s) (TrimSpace "/nostat") = None)
    by (vm_compute; reflexivity).
  split; [exact H1 | split; [exact H2 | split; [exact H3 | ]]].
  exact (proj1 (file_failure_is_recorded (Scenario.deps 100)) "/nostat" s H1 H2 H3).
Defined.

(** C8 as stated fails at the cap: with [maxErrors = 2] the source
    that cannot be stat'ed is the second failure of the test scenario,
    the run is aborted there, and the source [/er1] that follows is
    never walked, while with a cap of 100 it is. *)
Lemma failure_at_the_cap_aborts :
  fst (backupLoop (Scenario.deps 2) Scenario.configErrors
         (initial (Scenario.deps 2) false Scenario.disk)) = Panic TooManyErrors
  /\ msgs (snd (Backup (Scenario.deps 2) Scenario.configErrors false Scenario.disk))
     = ["Error in exlude regexp: (notclosed"; "Cannot stat, skipping: /nostat"]
  /\ calls (snd (Backup (Scenario.deps 2) Scenario.configErrors false Scenario.disk)) = []
  /\ files (count (snd (Backup (Scenario.deps 2) Scenario.configErrors false Scenario.disk)))
     = 0%nat
  /\ files (count (snd (Backup (Scenario.deps 100) Scenario.configErrors false Scenario.disk)))
     = 2%nat.
Proof. vm_compute. repeat split; reflexivity. Qed.

(** ** Pruning during the traversal *)

Section Traversal.

Context (D : Deps).

Lemma walkCallback_dir path (s : State D) :
  walkCallback D path (Some fs.EntryDir) s =
  if pruned D (exclude s) path then (Done fs.SkipDir, s)
  else (Done fs.WalkNil, incDir s).
Proof.
  unfold walkCallback, bind, get, pruned, excluded.
  now destruct (existsb _ _).
Qed.

Lemma walkCallback_file path info (s : State D) r s' :
  walkCallback D path (Some (fs.EntryFile info)) s = (Done r, s') ->
  r = fs.WalkNil
  /\ dir (count s') = dir (count s)
  /\ exclude s' = exclude s.
Proof.
  unfold walkCallback. destruct info as [info | ].
  - intros H. apply bind_inv in H as [([] & s1 & E & H) | (q & _ & Hq)];
      [ | discriminate Hq ].
    inversion H; subst. split; [reflexivity | ].
    pose proof (handleFile_dir D path info s) as Hd.
    pose proof (handleFile_settings D path info s) as Hs.
    rewrite E in Hd, Hs. simpl in Hd, Hs. split; [exact Hd | ].
    now injection Hs.
  - intros [= <- <-]. auto.
Qed.

Lemma walkEntries_count l :
  Forall (fun t => forall (s : State D) r s',
              walkTree D t s = (Done r, s') ->
              r = fs.WalkNil
              /\ dir (count s') = (dir (count s) + dirCount D (exclude s) t)%nat
              /\ exclude s' = exclude s) l ->
  forall (s : State D) r s',
    walkEntries D l s = (Done r, s') ->
    r = fs.WalkNil
    /\ dir (count s') = (dir (count s) + dirCounts D (exclude s) l)%nat
    /\ exclude s' = exclude s.
Proof.
  induction 1 as [| t l Ht _ IH]; intros s r s' H.
  - inversion H; subst. simpl. auto with arith.
  - rewrite walkEntries_cons in H.
    apply bind_inv in H as [(r1 & s1 & E & H) | (q & _ & Hq)]; [ | discriminate Hq ].
    destruct (Ht _ _ _ E) as (-> & Hd1 & He1).
    destruct (IH _ _ _ H) as (-> & Hd & He).
    split; [reflexivity | ]. rewrite Hd, Hd1, He, He1.
    split; [ | reflexivity ]. unfold dirCounts. simpl. lia.
Qed.

Lemma walkTree_count t :
  forall (s : State D) r s',
    walkTree D t s = (Done r, s') ->
    r = fs.WalkNil
    /\ dir (count s') = (dir (count s) + dirCount D (exclude s) t)%nat
    /\ exclude s' = exclude s.
Proof.
  induction t as [path info | path readErr entries IH] using DirTree_induction;
    intros s r s' H.
  - rewrite walkTree_File in H. apply walkCallback_file in H as (-> & Hd & He).
    simpl. rewrite Hd. auto with arith.
  - rewrite walkTree_Directory in H. unfold bind at 1 in H.
    rewrite walkCallback_dir in H. cbn [dirCount].
    destruct (pruned D (exclude s) path) eqn:Hp.
    + inversion H; subst. auto with arith.
    + assert (Hp' : pruned D (exclude (incDir s)) path = false) by exact Hp.
      destruct readErr.
      * unfold bind at 1 in H. rewrite walkCallback_dir, Hp' in H.
        destruct (walkEntries_count _ IH _ _ _ H) as (-> & Hd & He).
        split; [reflexivity | ]. rewrite Hd, He. simpl.
        split; [ | reflexivity ]. unfold dirCounts. lia.
      * unfold bind at 1, ret in H.
        destruct (walkEntries_count _ IH _ _ _ H) as (-> & Hd & He).
        split; [reflexivity | ]. rewrite Hd, He. simpl.
        split; [ | reflexivity ]. unfold dirCounts. lia.
Qed.

(** C7.  The callback tests a directory, the root of the walk
    included, by matching its path followed by the separator against
    the exclude list, and the test succeeds exactly when some pattern
    of the list matches.  A directory that passes the test of no
    pattern is counted; a directory that some pattern matches is
    pruned: the walk over it is over at once and leaves the state as it
    was, so that the directory is not counted and nothing below it is
    visited.  A walk that runs to its end has counted each directory
    that was not pruned, once per call of the callback for it, and the
    summary of [handleDir] reports this number for the tree of the
    source. *)
Theorem excluded_directories_are_pruned :
  (forall (s : State D) path,
      excluded s (path ++ Separator D) = pruned D (exclude s) path
      /\ (pruned D (exclude s) path = true
          <-> exists rex, In rex (exclude s)
                          /\ MatchString D rex (path ++ Separator D) = true))
  /\ (forall (s : State D) path readErr entries,
      pruned D (exclude s) path = true ->
      walkTree D (fs.Directory path readErr entries) s = (Done fs.WalkNil, s))
  /\ (forall (s : State D) path,
      pruned D (exclude s) path = false ->
      walkCallback D path (Some fs.EntryDir) s = (Done fs.WalkNil, incDir s)
      /\ dir (count (incDir s)) = S (dir (count s)))
  /\ (forall t (s : State D) r s',
      walkTree D t s = (Done r, s') ->
      dir (count s') = (dir (count s) + dirCount D (exclude s) t)%nat)
  /\ (forall path t (s s' : State D),
      walkDir D (world s) path = Some t ->
      handleDir D path s = (Done tt, s') ->
      dir (count s') = dirCount D (exclude s) t).
Proof.
  split; [ | split; [ | split; [ | split ] ] ].
  - intros s path. split; [reflexivity | ].
    unfold pruned. rewrite existsb_exists. reflexivity.
  - intros s path readErr entries Hp.
    rewrite walkTree_Directory. unfold bind. now rewrite walkCallback_dir, Hp.
  - intros s path Hp. rewrite walkCallback_dir, Hp. split; reflexivity.
  - intros t s r s' H. now apply walkTree_count in H.
  - intros path t s s' Hwalk H. unfold handleDir in H.
    unfold bind at 1, modify in H. unfold walk in H.
    unfold bind at 1 2, get in H. cbn [world setCount] in H. rewrite Hwalk in H.
    unfold bind at 1 2 in H.
    destruct (walkTree D t (setCount _ s)) as [[r | p] s1] eqn:E; [ | discriminate H ].
    apply walkTree_count in E as (_ & Hd & _).
    unfold ret, bind at 1, get in H.
    assert (Hlast : dir (count s') = dir (count s1)).
    { destruct (_ >=? _) in H; unfold bind, print, modify in H; inversion H; reflexivity. }
    rewrite Hlast, Hd. reflexivity.
Qed.

End Traversal.

Lemma excluded_directories_are_pruned_witness :
  let s := snd (backupLoop Pruned.deps ["=> /backup"; "!/d6/"]
                  (initial Pruned.deps false Pruned.disk)) in
  let sub := [fs.File "/d5/d6/f1" (Some (Cases.file 20 420))] in
  pruned Pruned.deps (exclude s) "/d5/d6" = true
  /\ walkTree Pruned.deps (fs.Directory "/d5/d6" false sub) s = (Done fs.WalkNil, s)
  /\ count (snd (Backup Pruned.deps Pruned.config false Pruned.disk))
     = {| dir := 2; files := 2; copied := 2 |}.
Proof.
  intros s sub.
  assert (H : pruned Pruned.deps (exclude s) "/d5/d6" = true) by reflexivity.
  split; [exact H | split].
  - exact (proj1 (proj2 (excluded_directories_are_pruned Pruned.deps))
             s "/d5/d6" false sub H).
  - vm_compute. reflexivity.
Defined.

(** ** A run moves the file system ahead *)

Section RunAhead.

Context (D : Deps) (laws : FsLaws D).

Lemma Ahead_refl (w : World D) : Ahead w w.
Proof. intros p t H. exact H. Qed.

Lemma Ahead_trans (w1 w2 w3 : World D) : Ahead w1 w2 -> Ahead w2 w3 -> Ahead w1 w3.
Proof. intros H1 H2 p t H. auto. Qed.

Lemma NotOlder_le (w : World D) p t t' : t' <= t -> NotOlder w p t -> NotOlder w p t'.
Proof. intros Hle (d & Hd & Ht). exists d. split; [exact Hd | lia]. Qed.

Lemma replay_app l1 l2 (w : World D) : replay D (l1 ++ l2) w = replay D l2 (replay D l1 w).
Proof. apply fold_left_app. Qed.

Lemma Later_refl (s : State D) : Later s s.
Proof.
  split.
  - exists []. now rewrite app_nil_r.
  - intros H. split; [exact H | apply Ahead_refl].
Qed.

Lemma Later_trans (s1 s2 s3 : State D) : Later s1 s2 -> Later s2 s3 -> Later s1 s3.
Proof.
  intros [(l1 & C1 & W1) M1] [(l2 & C2 & W2) M2]. split.
  - exists (l1 ++ l2)%list. split.
    + now rewrite C2, C1, app_assoc.
    + now rewrite W2, W1, replay_app.
  - intros H. destruct (M2 H) as [H2 A2]. destruct (M1 H2) as [H1 A1].
    split; [exact H1 | eapply Ahead_trans; eassumption].
Qed.

Lemma Later_same (s s' : State D) :
  calls s' = calls s -> world s' = world s -> msgs s' = msgs s -> Later s s'.
Proof.
  intros C W Hm. split.
  - exists []. rewrite app_nil_r. auto.
  - rewrite Hm, W. intros H. split; [exact H | apply Ahead_refl].
Qed.

Lemma Later_record m (s : State D) : Later s (setMsgs (msgs s ++ [m]) s).
Proof.
  split.
  - exists []. rewrite app_nil_r. auto.
  - simpl. intros H. now apply app_eq_nil in H as [_ H].
Qed.

(** A logged call that moves the file system ahead. *)
Lemma Later_call c (s : State D) :
  Ahead (world s) (applyCall D (world s) c) ->
  Later s (setWorld (applyCall D (world s) c) c s).
Proof.
  intros H. split.
  - exists [c]. split; reflexivity.
  - intros Hm. split; [exact Hm | exact H].
Qed.

(** The copy step, seen from an earlier state [s0] in which the
    destination, if it exists, is older than the source. *)
Lemma Later_copyStep src dest info (s0 s : State D) :
  Later s0 s ->
  (forall t, NotOlder (world s0) dest t -> t <= fs.ModTime info) ->
  Later s0 (snd (copyStep D src dest info s)).
Proof.
  intros Hs Hold. unfold copyStep, bind, get. simpl.
  destruct (dryRun s).
  - eapply Later_trans; [exact Hs | now apply Later_same].
  - unfold callCopy.
    destruct (copy D (world s) src dest info) as [[e | ] w] eqn:E; cbv beta iota.
    + eapply Later_trans; [exact Hs | ]. rewrite msg_spec. simpl. split.
      * exists [CallCopy src dest info]. split; [reflexivity | ].
        simpl. now rewrite E.
      * simpl. intros H. now apply app_eq_nil in H as [_ H].
    + destruct Hs as [(l & C & W) Hm]. split.
      * exists (l ++ [CallCopy src dest info])%list. simpl. split.
        -- now rewrite C, app_assoc.
        -- rewrite replay_app, <- W. simpl. now rewrite E.
      * simpl. intros H. destruct (Hm H) as [H0 HA]. split; [exact H0 | ].
        intros p t Hp. destruct (String.eqb_spec p dest) as [-> | Hne].
        -- eapply NotOlder_le; [apply (Hold _ Hp) | ].
           eapply copy_time; eassumption.
        -- pose proof (copy_other D laws (world s) src dest info p t Hne (HA _ _ Hp)) as H1.
           now rewrite E in H1.
Qed.

Lemma Later_syncFile src info : Respects Later (syncFile D src info).
Proof.
  intros s. unfold syncFile, bind at 1, get. simpl.
  destruct (_ <? _)%nat; [apply Later_refl | ].
  set (dest := destPathOf D (targetPath s) src).
  destruct (stat D (world s) dest) as [destInfo | ] eqn:Hstat.
  - destruct (Z.ltb_spec (fs.ModTime destInfo) (fs.ModTime info)) as [Hlt | Hge];
      [ | apply Later_refl ].
    assert (Hold : forall t, NotOlder (world s) dest t -> t <= fs.ModTime info).
    { intros t (d & Hd & Ht). rewrite Hstat in Hd. injection Hd as <-. lia. }
    simpl. destruct (isWin D && _).
    + unfold bind at 1, callChmod, modify. apply Later_copyStep; [ | exact Hold ].
      apply (Later_call (CallChmod dest (destDirPerm D))). apply chmod_ahead, laws.
    + unfold bind at 1, ret. apply Later_copyStep; [apply Later_refl | exact Hold].
  - assert (Hold : forall t, NotOlder (world s) dest t -> t <= fs.ModTime info).
    { intros t (d & Hd & _). rewrite Hstat in Hd. discriminate Hd. }
    destruct (dryRun s).
    + apply Later_copyStep; [apply Later_refl | exact Hold].
    + unfold bind, callMkdirAll.
      pose proof (Later_call (CallMkdirAll (Dir D dest) (destDirPerm D)) s
                    (mkdirAll_ahead D laws _ _ _)) as Hmk.
      simpl in Hmk.
      destruct (mkdirAll D (world s) (Dir D dest) (destDirPerm D)) as [[e | ] w].
      * eapply Later_trans; [exact Hmk | ]. rewrite msg_spec. apply Later_record.
      * apply Later_copyStep; [exact Hmk | exact Hold].
Qed.

(** Every part of a run relates its states by [Later]. *)
Ltac later_basics :=
  first
    [ exact Later_refl | exact Later_trans | exact Later_syncFile | exact Later_record
    | intros; now apply Later_same ].

Lemma Later_handleFile path info : Respects Later (handleFile D path info).
Proof. apply Respects_handleFile; later_basics. Qed.

Lemma Later_walkCallback path d : Respects Later (walkCallback D path d).
Proof. apply Respects_walkCallback; later_basics. Qed.

Lemma Later_walkTree t : Respects Later (walkTree D t).
Proof. apply Respects_walkTree; later_basics. Qed.

Lemma Later_walkEntries l : Respects Later (walkEntries D l).
Proof.
  apply Respects_walkEntries; try later_basics.
  apply Forall_forall. intros t _. apply Later_walkTree.
Qed.

Lemma Later_handleDir path : Respects Later (handleDir D path).
Proof. apply Respects_handleDir; later_basics. Qed.

Lemma Later_processNonPathLine line : Respects Later (processNonPathLine D line).
Proof. apply Respects_processNonPathLine; later_basics. Qed.

Lemma Later_backupLine line : Respects Later (backupLine D line).
Proof. apply Respects_backupLine; later_basics. Qed.

Lemma Later_backupLoop config : Respects Later (backupLoop D config).
Proof. apply Respects_backupLoop; later_basics. Qed.

End RunAhead.

Lemma Later_print D text : Respects Later (print D text).
Proof. intros s. now apply Later_same. Qed.

Lemma Later_msg D m : Respects Later (msg D m).
Proof. intros s. rewrite msg_spec. apply Later_record. Qed.

Lemma Later_ret D {A} (a : A) : Respects Later (ret (D:=D) a).
Proof. intros s. apply Later_refl. Qed.

Lemma Later_get D : Respects Later (get (D:=D)).
Proof. intros s. apply Later_refl. Qed.

Lemma Later_panic D {A} p : Respects Later (panic (D:=D) (A:=A) p).
Proof. intros s. apply Later_refl. Qed.

Lemma Later_bind D {A B} (m : M D A) (k : A -> M D B) :
  Respects Later m -> (forall a, Respects Later (k a)) -> Respects Later (bind m k).
Proof. apply Respects_bind. apply Later_trans. Qed.

Lemma Later_parseParts D parts : Respects Later (parseParts D parts).
Proof.
  apply Respects_parseParts;
    first [ exact (Later_refl D) | exact (Later_trans D) | exact (Later_record D)
          | intros; now apply Later_same ].
Qed.

Lemma Later_walk D (laws : FsLaws D) path : Respects Later (walk D path).
Proof.
  apply Respects_walk;
    first [ exact (Later_refl D) | exact (Later_trans D) | exact (Later_syncFile D laws)
          | intros; now apply Later_same ].
Qed.

Create HintDb later.
#[local] Hint Resolve Later_print Later_msg Later_ret Later_get Later_panic
  Later_parseParts Later_walk Later_handleFile Later_walkCallback Later_walkTree
  Later_walkEntries Later_handleDir Later_processNonPathLine Later_backupLine
  Later_backupLoop : later.

(** Proves that a computation put together from parts of the engine
    relates its states by [Later]. *)
Ltac later_step :=
  first
    [ solve [ auto with later ]
    | apply Later_bind; [ | intros ? ]
    | match goal with
      | |- Respects Later (modify _) => intros ?; apply Later_same; reflexivity
      | |- Respects Later (if ?c then _ else _) => destruct c
      | |- Respects Later (match ?x with _ => _ end) => destruct x
      | |- Respects Later (let _ := _ in _) => cbv zeta
      end ].

Ltac later_auto := repeat later_step.

(** ** A second run over what the first run left *)

Section TwoRuns.

Context (D : Deps) (laws : FsLaws D) (config : list string) (w0 : World D).
Context (sF : State D).

#[local] Abbreviation s0 := (initial D false w0).

Hypothesis sF_clean : msgs sF = [].
Hypothesis sF_sources : sourcesUnchanged D config w0 (calls sF).

Lemma Mid_msgs s : Mid s0 sF s -> msgs s = [].
Proof using sF_clean. intros [_ [_ H]]. now apply H. Qed.

Lemma Mid_ahead s : Mid s0 sF s -> Ahead (world s) (world sF).
Proof using sF_clean. intros [_ [_ H]]. now apply H. Qed.

Lemma Mid_next {A} (m : M D A) s :
  Respects Later m -> Mid s0 sF s -> Later (snd (m s)) sF -> Mid s0 sF (snd (m s)).
Proof.
  intros Hm [H0 _] HF. split; [ | exact HF ].
  eapply Later_trans; [exact H0 | apply Hm].
Qed.

Lemma Mid_between s s1 s' :
  Mid s0 sF s -> Later s s1 -> Later s1 s' -> Mid s0 sF s' -> Mid s0 sF s1.
Proof.
  intros [H0 _] H1 H2 [_ HF]. split; eapply Later_trans; eassumption.
Qed.

(** In a state of the first run the sources are as at its end. *)
Lemma Mid_sources s line :
  Mid s0 sF s -> In line config ->
  stat D (world s) (TrimSpace line) = stat D (world sF) (TrimSpace line)
  /\ walkDir D (world s) (TrimSpace line) = walkDir D (world sF) (TrimSpace line).
Proof using sF_sources.
  assert (Hmid : forall s, Mid s0 sF s ->
             exists k, world s = replay D (firstn k (calls sF)) w0).
  { intros s1 [[(l0 & C0 & W0) _] [(l & C & _) _]]. simpl in C0, W0.
    exists (length (calls s1)).
    now rewrite C, firstn_app, Nat.sub_diag, firstn_all, firstn_O, app_nil_r, C0. }
  intros Hs Hin.
  assert (HF : Mid s0 sF sF).
  { split; [ | apply Later_refl ]. destruct Hs as [H1 H2]. eapply Later_trans; eassumption. }
  destruct (Hmid _ Hs) as (k & ->). destruct (Hmid _ HF) as (kF & ->).
  destruct (sF_sources k line Hin) as [E1 E2].
  destruct (sF_sources kF line Hin) as [F1 F2].
  split; congruence.
Qed.

Lemma SimOf_ret {A} (a : A) : SimOf s0 sF (ret (D:=D) a).
Proof. intros s t r s' HS _ [= <- <-] _. exists t. split; [reflexivity | exact HS]. Qed.

Lemma SimOf_panic {A} p : SimOf s0 sF (panic (D:=D) (A:=A) p).
Proof. intros s t r s' HS _ [= <- <-] _. exists t. split; [reflexivity | exact HS]. Qed.

Lemma SimOf_bind {A B} (m : M D A) (k : A -> M D B) :
  SimOf s0 sF m -> (forall a, SimOf s0 sF (k a)) ->
  Respects Later m -> (forall a, Respects Later (k a)) ->
  SimOf s0 sF (bind m k).
Proof.
  intros Hm Hk Lm Lk s t r s' HS Hmid H Hmid'.
  apply bind_inv in H as [(a & s1 & E & H) | (p & E & ->)].
  - assert (Hmid1 : Mid s0 sF s1).
    { apply (Mid_between s s1 s' Hmid); [ | | exact Hmid' ].
      - specialize (Lm s). now rewrite E in Lm.
      - specialize (Lk a s1). now rewrite H in Lk. }
    destruct (Hm _ _ _ _ HS Hmid E Hmid1) as (t1 & Et & HS1).
    destruct (Hk a _ _ _ _ HS1 Hmid1 H Hmid') as (t' & Et' & HS').
    exists t'. split; [ | exact HS' ]. now rewrite (bind_Done D _ _ _ _ _ Et).
  - destruct (Hm _ _ _ _ HS Hmid E Hmid') as (t' & Et & HS').
    exists t'. split; [ | exact HS' ]. now rewrite (bind_Panic D _ _ _ _ _ Et).
Qed.

(** An update of the output or of the counters of files and
    directories is the same in both runs. *)
Lemma SimOf_modify f :
  (forall s t, Sim (world sF) s t -> Sim (world sF) (f s) (f t)) ->
  SimOf s0 sF (modify f).
Proof. intros Hf s t r s' HS _ [= <- <-] _. exists (f t). split; [reflexivity | auto]. Qed.

Lemma SimOf_print text : SimOf s0 sF (print D text).
Proof. apply SimOf_modify. intros s t HS. exact HS. Qed.

Lemma SimOf_msg m : SimOf s0 sF (msg D m).
Proof using sF_clean.
  intros s t r s' _ _ H Hmid'. exfalso.
  rewrite msg_spec in H. injection H as _ <-.
  apply Mid_msgs in Hmid'. simpl in Hmid'. now apply app_eq_nil in Hmid' as [_ H].
Qed.

(** After [get], both runs go on with their own state. *)
Lemma SimOf_get {A} (k : State D -> M D A) :
  (forall s t, Sim (world sF) s t -> Mid s0 sF s ->
               forall r s', k s s = (r, s') -> Mid s0 sF s' ->
                            exists t', k t t = (r, t') /\ Sim (world sF) s' t') ->
  SimOf s0 sF (bind get k).
Proof. intros Hk s t r s' HS Hmid H Hmid'. exact (Hk s t HS Hmid r s' H Hmid'). Qed.

Ltac sim_parts H :=
  destruct H as (?Hd1 & ?Hd2 & ?Ht & ?Hsd & ?Hms & ?Hex & ?Hm & ?Hc & ?Hw & ?Hcp).

Ltac sim_solve :=
  match goal with
  | H : Sim _ _ _ |- Sim _ _ _ =>
      sim_parts H; unfold Sim; simpl; repeat split; congruence
  end.

Ltac simof_step :=
  first
    [ match goal with |- SimOf _ _ (bind get _) => fail 2 end
    | solve [ auto using SimOf_ret, SimOf_panic, SimOf_print, SimOf_msg ]
    | apply SimOf_bind; [ | intros ? | solve [ later_auto ] | intros ?; solve [ later_auto ] ]
    | apply SimOf_modify; intros ? ? ?; sim_solve
    | match goal with
      | |- SimOf _ _ (if ?c then _ else _) => destruct c
      | |- SimOf _ _ (match ?x with _ => _ end) => destruct x
      | |- SimOf _ _ (let _ := _ in _) => cbv zeta
      end ].

Ltac simof_auto := repeat simof_step.

Lemma SimOf_parseParts parts : SimOf s0 sF (parseParts D parts).
Proof using sF_clean. induction parts as [| part rest IH]; simpl; simof_auto. Qed.

(** A computation that reads the state only to print. *)
Lemma SimOf_get_print (g : State D -> string) :
  SimOf s0 sF (bind get (fun s => print D (g s))).
Proof.
  apply SimOf_get. intros s t HS _ r s' Heq _.
  cbv [print modify] in Heq |- *. injection Heq as <- <-.
  eexists. split; [reflexivity | ]. sim_solve.
Qed.

Lemma SimOf_processNonPathLine line : SimOf s0 sF (processNonPathLine D line).
Proof using sF_clean.
  pose proof SimOf_parseParts.
  unfold processNonPathLine, parseExclude.
  repeat first
    [ simof_step
    | match goal with
      | |- SimOf _ _ (bind get _) =>
          let Heq := fresh "Heq" in
          apply SimOf_get; intros ? ? ? _ ? ? Heq _;
          cbv [bind print modify ret] in Heq |- *;
          injection Heq as <- <-;
          eexists; (split; [reflexivity | ]); sim_solve
      end ].
Qed.

(** Moving both states without touching what [Sim] looks at. *)
Lemma Sim_keeps wF (s t s1 t1 : State D) :
  Sim wF s t ->
  settings s1 = settings s -> settings t1 = settings t ->
  msgs t1 = msgs t -> calls t1 = calls t -> world t1 = world t ->
  copied (count t1) = copied (count t) ->
  Sim wF s1 t1.
Proof.
  intros HS [= E1 E2 E3 E4 E5] [= F1 F2 F3 F4 F5] Hm Hc Hw Hcp.
  sim_parts HS. unfold Sim. repeat split; congruence.
Qed.

(** In the first run, a file that [syncFile] has dealt with without a
    message has a destination that is not older than the file. *)
Lemma syncFile_settles src info (s : State D) r s' :
  dryRun s = false ->
  syncFile D src info s = (r, s') ->
  msgs s' = [] ->
  (r = Done tt
   /\ (String.length (VolumeName D src) <= String.length src)%nat
   /\ NotOlder (world s') (destPathOf D (targetPath s) src) (fs.ModTime info))
  \/ (r = Panic (SliceBounds (String.length (VolumeName D src)) (String.length src))
      /\ s' = s
      /\ (String.length src < String.length (VolumeName D src))%nat).
Proof using laws.
  intros Hdry H Hm. unfold syncFile, bind at 1, get in H.
  destruct (Nat.ltb_spec (String.length src) (String.length (VolumeName D src)))
    as [Hlt | Hle].
  { right. injection H as <- <-. auto. }
  left. cbv zeta in H.
  set (dest := destPathOf D (targetPath s) src) in *.
  assert (Hcopy : forall s1 : State D,
             dryRun s1 = false ->
             copyStep D src dest info s1 = (r, s') ->
             r = Done tt /\ NotOlder (world s') dest (fs.ModTime info)).
  { intros s1 Hd1 H1. unfold copyStep, bind at 1, get in H1. rewrite Hd1 in H1.
    unfold bind, callCopy in H1.
    destruct (copy D (world s1) src dest info) as [[e | ] w] eqn:E.
    - rewrite msg_spec in H1. injection H1 as _ <-. simpl in Hm.
      now apply app_eq_nil in Hm as [_ Hm].
    - injection H1 as <- <-. split; [reflexivity | ].
      simpl. eapply copy_time; eassumption. }
  destruct (stat D (world s) dest) as [destInfo | ] eqn:Hstat.
  - destruct (Z.ltb_spec (fs.ModTime destInfo) (fs.ModTime info)) as [Hold | Hnew];
      simpl in H.
    + destruct (isWin D && _).
      * unfold bind at 1, callChmod, modify in H.
        destruct (Hcopy (setWorld _ _ s) Hdry H). auto.
      * unfold bind at 1, ret in H. destruct (Hcopy s Hdry H). auto.
    + injection H as <- <-. repeat split; trivial.
      exists destInfo. split; [exact Hstat | lia].
  - rewrite Hdry in H. unfold bind at 1, callMkdirAll in H.
    destruct (mkdirAll D (world s) (Dir D dest) (destDirPerm D)) as [[e | ] w].
    + rewrite msg_spec in H. injection H as _ <-. simpl in Hm.
      now apply app_eq_nil in Hm as [_ Hm].
    + destruct (Hcopy (setWorld _ _ s) Hdry H). auto.
Qed.

(** In the second run such a file is skipped. *)
Lemma syncFile_skips src info (t : State D) :
  (String.length (VolumeName D src) <= String.length src)%nat ->
  NotOlder (world t) (destPathOf D (targetPath t) src) (fs.ModTime info) ->
  syncFile D src info t = (Done tt, t).
Proof.
  intros Hle (d & Hd & Ht). unfold syncFile, bind, get.
  destruct (Nat.ltb_spec (String.length src) (String.length (VolumeName D src)));
    [lia | ].
  cbv zeta. rewrite Hd.
  destruct (Z.ltb_spec (fs.ModTime d) (fs.ModTime info)); [lia | reflexivity].
Qed.

Lemma SimOf_handleFile path info : SimOf s0 sF (handleFile D path info).
Proof using laws sF_clean.
  intros s t r s' HS Hmid H Hmid'.
  rewrite handleFile_unfold in H |- *.
  pose proof (countFile_keeps D s) as (Ks & Kw & Kc & Km & Kcp & _).
  pose proof (countFile_keeps D t) as (Ls & Lw & Lc & Lm & Lcp & _).
  pose proof (countFile_result D s) as Rs.
  pose proof (countFile_result D t) as Rt.
  cbv zeta in *.
  assert (Hdry : dryRun t = dryRun s) by (sim_parts HS; congruence).
  rewrite Hdry in Rt.
  assert (Hfil : filtered t path info = filtered s path info).
  { apply filtered_settings. sim_parts HS. unfold settings. congruence. }
  destruct (countFile D s) as [[[] | p] s1], (countFile D t) as [[[] | q] t1];
    simpl in *; try congruence.
  - assert (HS1 : Sim (world sF) s1 t1) by (eapply Sim_keeps; eassumption).
    rewrite Hfil. destruct (filtered s path info).
    + injection H as <- <-. eauto.
    + assert (Hd1 : dryRun s1 = false) by (sim_parts HS1; assumption).
      destruct (syncFile_settles _ _ _ _ _ Hd1 H (Mid_msgs _ Hmid'))
        as [(-> & Hle & Hno) | (-> & -> & Hlt)].
      * exists t1. split.
        -- apply syncFile_skips; [exact Hle | ].
           apply (Mid_ahead _ Hmid') in Hno.
           sim_parts HS1. congruence.
        -- pose proof (syncFile_settings D path info s1) as Hk.
           rewrite H in Hk. simpl in Hk.
           eapply Sim_keeps; [exact HS1 | exact Hk | reflexivity .. ].
      * exists t1. split; [ | exact HS1 ].
        unfold syncFile, bind, get.
        destruct (Nat.ltb_spec (String.length path) (String.length (VolumeName D path)));
          [reflexivity | lia].
  - injection H as <- <-. exists t1. split; [congruence | ].
    eapply Sim_keeps; eassumption.
Qed.

Lemma SimOf_walkCallback path d : SimOf s0 sF (walkCallback D path d).
Proof using laws sF_clean.
  pose proof SimOf_handleFile.
  destruct d as [[ | [info | ]] | ]; unfold walkCallback; simof_auto.
  apply SimOf_get. intros s t HS _ r s' Heq _.
  assert (Hex : excluded t (path ++ Separator D) = excluded s (path ++ Separator D)).
  { unfold excluded. sim_parts HS. congruence. }
  rewrite Hex. destruct (excluded s (path ++ Separator D));
    cbv [bind modify ret] in Heq |- *; injection Heq as <- <-;
    (eexists; split; [reflexivity | sim_solve]).
Qed.

Lemma SimOf_walkEntries l :
  Forall (fun t => SimOf s0 sF (walkTree D t)) l -> SimOf s0 sF (walkEntries D l).
Proof using laws.
  induction 1 as [| t l Ht _ IH].
  - apply SimOf_ret.
  - rewrite walkEntries_cons. simof_auto.
Qed.

Lemma SimOf_walkTree t : SimOf s0 sF (walkTree D t).
Proof using laws sF_clean.
  pose proof SimOf_walkCallback.
  induction t as [path info | path readErr entries IH] using DirTree_induction.
  - rewrite walkTree_File. auto.
  - rewrite walkTree_Directory. pose proof (SimOf_walkEntries _ IH). simof_auto.
Qed.

Lemma SimOf_walk line : In line config -> SimOf s0 sF (walk D (TrimSpace line)).
Proof using laws sF_clean sF_sources.
  intros Hin. unfold walk. apply SimOf_get. intros s t HS Hmid r s' Heq Hmid'.
  assert (Hw : walkDir D (world t) (TrimSpace line) = walkDir D (world s) (TrimSpace line)).
  { destruct (Mid_sources s line Hmid Hin) as [_ ->]. sim_parts HS. congruence. }
  rewrite Hw.
  assert (Hrest : SimOf s0 sF
                    match walkDir D (world s) (TrimSpace line) with
                    | Some t1 => bind (walkTree D t1) (fun _ => ret tt)
                    | None => bind (walkCallback D (TrimSpace line) None) (fun _ => ret tt)
                    end).
  { pose proof SimOf_walkCallback. pose proof SimOf_walkTree. simof_auto. }
  exact (Hrest s t r s' HS Hmid Heq Hmid').
Qed.

Lemma SimOf_handleDir line : In line config -> SimOf s0 sF (handleDir D (TrimSpace line)).
Proof using laws sF_clean sF_sources.
  intros Hin. pose proof (SimOf_walk line Hin). unfold handleDir.
  repeat first
    [ simof_step
    | match goal with
      | |- SimOf _ _ (bind get _) =>
          let Heq := fresh "Heq" in
          apply SimOf_get; intros s t ? _ ? ? Heq _;
          destruct (Z.of_nat (files (count s)) >=? printDotFileCount D) in Heq;
          destruct (Z.of_nat (files (count t)) >=? printDotFileCount D);
          cbv [bind print modify ret] in Heq |- *;
          injection Heq as <- <-;
          eexists; (split; [reflexivity | ]); sim_solve
      end ].
Qed.

Lemma SimOf_backupLine line : In line config -> SimOf s0 sF (backupLine D line).
Proof using laws sF_clean sF_sources.
  intros Hin. unfold backupLine. cbv zeta.
  apply SimOf_bind; [apply SimOf_processNonPathLine | | later_auto | intros ?; later_auto ].
  intros [ | ]; [apply SimOf_ret | ].
  apply SimOf_get. intros s t HS Hmid r s' Heq Hmid'.
  assert (Ht : targetPath t = targetPath s) by (sim_parts HS; assumption).
  assert (Hst : stat D (world t) (TrimSpace line) = stat D (world s) (TrimSpace line)).
  { destruct (Mid_sources s line Hmid Hin) as [-> _]. sim_parts HS. congruence. }
  rewrite Ht, Hst.
  assert (Hrest : SimOf s0 sF
            (if String.eqb (targetPath s) ""
             then bind (print D ("FATAL: " ++ errText ++ nl)) (fun _ => ret (Some errText))
             else
               match stat D (world s) (TrimSpace line) with
               | Some info =>
                   bind (print D (nl ++ TrimSpace line ++ nl))
                     (fun _ =>
                        bind (if fs.IsDir info then handleDir D (TrimSpace line)
                              else handleFile D (TrimSpace line) info)
                          (fun _ => ret None))
               | None =>
                   bind (msg D ("Cannot stat, skipping: " ++ TrimSpace line))
                     (fun _ => ret None)
               end)).
  { pose proof (SimOf_handleDir line Hin). pose proof SimOf_handleFile. simof_auto. }
  exact (Hrest s t r s' HS Hmid Heq Hmid').
Qed.

Lemma SimOf_backupLoop rest :
  (forall line, In line rest -> In line config) -> SimOf s0 sF (backupLoop D rest).
Proof using laws sF_clean sF_sources.
  induction rest as [| line rest IH]; intros Hin; simpl.
  - apply SimOf_ret.
  - pose proof (SimOf_backupLine line (Hin line (or_introl eq_refl))).
    pose proof (IH (fun l Hl => Hin l (or_intror Hl))).
    simof_auto.
Qed.

End TwoRuns.

Section Idempotent.

Context (D : Deps).

Lemma Backup_run config dry w :
  Backup D config dry w =
  deferred D (fst (backupLoop D config (initial D dry w)))
    (snd (backupLoop D config (initial D dry w))).
Proof. unfold Backup. now destruct (backupLoop D config (initial D dry w)). Qed.

Lemma deferred_keeps r (s : State D) :
  msgs (snd (deferred D r s)) = msgs s
  /\ calls (snd (deferred D r s)) = calls s
  /\ world (snd (deferred D r s)) = world s
  /\ count (snd (deferred D r s)) = count s.
Proof.
  unfold deferred. destruct r as [e | p]; destruct (0 <? _)%nat; simpl; auto.
Qed.

Lemma deferred_clean r (s : State D) :
  fst (deferred D r s) = None ->
  msgs s = [] /\ (forall e, r = Done e -> e = None).
Proof.
  unfold deferred. destruct r as [e | p]; simpl.
  - destruct (msgs s); simpl; [ | discriminate ]. intros ->. split; [reflexivity | ].
    now intros e' [= <-].
  - destruct (msgs s); simpl; [ | discriminate ]. intros _. split; [reflexivity | ].
    discriminate.
Qed.

(** C6.  A file whose destination exists and is not older than the
    source is only counted: [handleFile] calls no slot for it, the copy
    slot in particular, leaves the file system as it is and does not
    count it as copied.  Consequently, when the writing slots obey
    [FsLaws], a run that is not a dry run has returned without error,
    and the sources were the same throughout that run, then the same
    run over the file system it has left returns without error too,
    calls no writing slot, leaves the file system unchanged and counts
    no file as copied.  Both runs read the same clock: [Now] is a
    constant of the dependencies, so the age filter selects the same
    files in the two runs. *)
Theorem second_run_copies_nothing :
  (forall path info destInfo (s : State D),
      stat D (world s) (destPathOf D (targetPath s) path) = Some destInfo ->
      fs.ModTime info <= fs.ModTime destInfo ->
      let s' := snd (handleFile D path info s) in
      calls s' = calls s
      /\ (forall src dest i, ~ In (CallCopy src dest i) (fileCalls D s path info))
      /\ world s' = world s
      /\ copied (count s') = copied (count s))
  /\ (FsLaws D ->
      forall config w0,
        let first := Backup D config false w0 in
        fst first = None ->
        sourcesUnchanged D config w0 (calls (snd first)) ->
        let second := Backup D config false (world (snd first)) in
        fst second = None
        /\ calls (snd second) = []
        /\ world (snd second) = world (snd first)
        /\ copied (count (snd second)) = 0%nat).
Proof.
  split.
  - intros path info destInfo s Hstat Hle. cbv zeta.
    pose proof (handleFile_calls D path info s) as Hcalls.
    rewrite (handleFile_in_sync D _ _ _ _ Hstat Hle) in *.
    pose proof (countFile_keeps D s) as (_ & Hw & Hc & _ & Hcp & _). cbv zeta in *.
    repeat split; trivial.
    rewrite Hc in Hcalls. rewrite <- (app_nil_r (calls s)) in Hcalls at 1.
    apply app_inv_head in Hcalls. rewrite <- Hcalls. intros src dest i [].
  - intros laws config w0. cbv zeta. rewrite !Backup_run.
    pose proof (Later_backupLoop D laws config (initial D false w0)) as HL.
    destruct (backupLoop D config (initial D false w0)) as [r1 sF] eqn:E1.
    simpl in HL. simpl fst. simpl snd.
    destruct (deferred_keeps r1 sF) as (_ & Kc & Kw & _).
    rewrite Kc, Kw. intros Hev Hsrc.
    apply deferred_clean in Hev as [Hclean Hdone].
    assert (HS : Sim (world sF) (initial D false w0) (initial D false (world sF))).
    { unfold Sim. simpl. repeat split. }
    assert (Hmid0 : Mid (initial D false w0) sF (initial D false w0)).
    { split; [apply Later_refl | exact HL]. }
    assert (HmidF : Mid (initial D false w0) sF sF).
    { split; [exact HL | apply Later_refl]. }
    destruct (SimOf_backupLoop D laws config w0 sF Hclean Hsrc config (fun _ H => H)
                _ _ _ _ HS Hmid0 E1 HmidF) as (t' & E2 & HS').
    rewrite E2. simpl fst. simpl snd.
    destruct (deferred_keeps r1 t') as (_ & Lc & Lw & Lcount).
    rewrite Lc, Lw, Lcount.
    destruct HS' as (_ & _ & _ & _ & _ & _ & Hm & Hc & Hw & Hcp).
    repeat split; trivial.
    unfold deferred. destruct r1 as [e | p]; simpl; rewrite Hm; simpl; [ | reflexivity ].
    now apply Hdone.
Qed.

End Idempotent.

(** The in-memory file system obeys the laws. *)
Lemma Double_laws win cap trees copyFails mkdirFails :
  FsLaws (Double.deps win cap trees copyFails mkdirFails).
Proof.
  split; unfold Ahead, NotOlder; simpl.
  - intros w name mode p t (d & Hd & Ht). unfold Double.chmodMem.
    rewrite lookup_alter. case_decide; [subst p | eauto ].
    rewrite Hd. simpl. eauto.
  - intros w path perm p t (d & Hd & Ht). unfold Double.mkdirAllMem.
    destruct (mkdirFails path); [simpl; eauto | ].
    destruct (w !! path) eqn:E; simpl; [eauto | ].
    exists d. split; [ | exact Ht ].
    rewrite lookup_insert_ne; [exact Hd | ]. intros ->. congruence.
  - intros w src dest info p t Hne (d & Hd & Ht). unfold Double.copyMem.
    destruct (copyFails src); simpl; [eauto | ].
    exists d. split; [ | exact Ht ]. now rewrite lookup_insert_ne.
  - intros w src dest info w'. unfold Double.copyMem.
    destruct (copyFails src); [discriminate | ]. intros [= <-].
    eexists. split; [apply lookup_insert_eq | ]. simpl. lia.
Qed.

Lemma second_run_copies_nothing_witness :
  let first := Backup Pruned.deps Pruned.config false Pruned.disk in
  let second := Backup Pruned.deps Pruned.config false (world (snd first)) in
  fst first = None
  /\ sourcesUnchanged Pruned.deps Pruned.config Pruned.disk (calls (snd first))
  /\ copied (count (snd first)) = 2%nat
  /\ calls (snd second) = []
  /\ copied (count (snd second)) = 0%nat.
Proof.
  intros first second.
  assert (H1 : fst first = None) by (vm_compute; reflexivity).
  assert (H2 : sourcesUnchanged Pruned.deps Pruned.config Pruned.disk (calls (snd first))).
  { assert (E : calls (snd first) =
                [CallMkdirAll "/backup/d5" 504;
                 CallCopy "/d5/f1" "/backup/d5/f1" (Cases.file 20 420);
                 CallMkdirAll "/backup/d5/d7" 504;
                 CallCopy "/d5/d7/f2" "/backup/d5/d7/f2" (Cases.file 20 420)])
      by (vm_compute; reflexivity).
    rewrite E. intros k.
    do 5 (destruct k as [| k];
          [ intros line [<- | [<- | [<- | []]]]; vm_compute; split; reflexivity | ]).
    rewrite firstn_all2 by (simpl; lia).
    intros line [<- | [<- | [<- | []]]]; vm_compute; split; reflexivity. }
  split; [exact H1 | split; [exact H2 | split; [vm_compute; reflexivity | ]]].
  pose proof (proj2 (second_run_copies_nothing Pruned.deps)
                (Double_laws _ _ _ _ _) Pruned.config Pruned.disk H1 H2)
    as (_ & Hc & _ & Hcp).
  split; assumption.
Defined.

(** ** Pairs *)

(** A pair is known by its first component and by itself. *)
Lemma pair_of_fst {A B} (x : A * B) (a : A) : fst x = a -> x = (a, snd x).
Proof. destruct x as [a' b]. simpl. now intros ->. Qed.

(** ** Lines that do nothing, and lines that are never reached *)

Section Lines.

Context (D : Deps).

(** The loop over a configuration in two parts: the second part runs
    from the state that the first part leaves, unless the first part
    has left the loop with an error or in a panic. *)
Lemma backupLoop_app l1 l2 (s : State D) :
  backupLoop D (l1 ++ l2) s =
  match backupLoop D l1 s with
  | (Done None, s1) => backupLoop D l2 s1
  | other => other
  end.
Proof.
  revert s. induction l1 as [| line l1 IH]; intros s; [reflexivity | ].
  cbn [app backupLoop]. unfold bind.
  destruct (backupLine D line s) as [[[e | ] | p] s1]; [reflexivity | apply IH | reflexivity].
Qed.

Lemma backupLine_blank line (s : State D) :
  TrimSpace line = "" \/ HasPrefix (TrimSpace line) "#" = true ->
  backupLine D line s = (Done None, s).
Proof.
  intros H. unfold backupLine, processNonPathLine, commentRex.
  assert (E : String.eqb (TrimSpace line) "" || HasPrefix (TrimSpace line) "#" = true).
  { destruct H as [-> | ->]; [reflexivity | apply orb_true_r]. }
  rewrite E. reflexivity.
Qed.

(** X1.  A line that is empty once it is trimmed, or whose trimmed
    text begins with [#], has no effect at all: a configuration with
    such a line anywhere in it gives the same result, the same output
    and the same calls as the configuration without the line. *)
Theorem blank_and_comment_lines_are_skipped before line after dry w :
  TrimSpace line = "" \/ HasPrefix (TrimSpace line) "#" = true ->
  Backup D (before ++ line :: after) dry w = Backup D (before ++ after) dry w.
Proof.
  intros H. unfold Backup. rewrite !backupLoop_app.
  destruct (backupLoop D before (initial D dry w)) as [[[e | ] | p] s1]; try reflexivity.
  cbn [backupLoop]. unfold bind at 1. now rewrite (backupLine_blank _ _ H).
Qed.

(** X3.  The lines of a configuration are carried out in order, each
    from the state that the lines before it have left.  Once the loop
    has been left, by the missing-target error or by a panic, the
    lines that follow are never looked at: the run is the run of the
    lines up to there. *)
Theorem aborted_run_ignores_the_rest first rest dry w :
  (fst (backupLoop D first (initial D dry w)) <> Done None ->
   Backup D (first ++ rest) dry w = Backup D first dry w)
  /\ (forall s,
        backupLoop D first (initial D dry w) = (Done None, s) ->
        Backup D (first ++ rest) dry w =
        deferred D (fst (backupLoop D rest s)) (snd (backupLoop D rest s))).
Proof.
  split.
  - intros H. unfold Backup. rewrite backupLoop_app.
    destruct (backupLoop D first (initial D dry w)) as [[[e | ] | p] s1];
      [reflexivity | now destruct H | reflexivity].
  - intros s H. unfold Backup. rewrite backupLoop_app, H.
    now destruct (backupLoop D rest s).
Qed.

End Lines.

Lemma blank_and_comment_lines_are_skipped_witness :
  (TrimSpace "  # a comment" = "" \/ HasPrefix (TrimSpace "  # a comment") "#" = true)
  /\ Backup Cases.unixDeps (["=> /backup"] ++ "  # a comment" :: ["f1"]) false
       Cases.relativeDisk
     = Backup Cases.unixDeps (["=> /backup"] ++ ["f1"]) false Cases.relativeDisk.
Proof.
  assert (H : TrimSpace "  # a comment" = ""
              \/ HasPrefix (TrimSpace "  # a comment") "#" = true)
    by (right; reflexivity).
  split; [exact H | ].
  exact (blank_and_comment_lines_are_skipped Cases.unixDeps ["=> /backup"]
           "  # a comment" ["f1"] false Cases.relativeDisk H).
Defined.

Lemma aborted_run_ignores_the_rest_witness :
  fst (backupLoop Cases.unixDeps ["f1"] (initial Cases.unixDeps false Cases.relativeDisk))
  <> Done None
  /\ Backup Cases.unixDeps (["f1"] ++ ["=> /backup"; "f1"]) false Cases.relativeDisk
     = Backup Cases.unixDeps ["f1"] false Cases.relativeDisk
  /\ calls (snd (Backup Cases.unixDeps ["f1"; "=> /backup"; "f1"] false Cases.relativeDisk))
     = [].
Proof.
  assert (H : fst (backupLoop Cases.unixDeps ["f1"]
                     (initial Cases.unixDeps false Cases.relativeDisk)) <> Done None)
    by (vm_compute; discriminate).
  split; [exact H | split].
  - exact (proj1 (aborted_run_ignores_the_rest Cases.unixDeps ["f1"] ["=> /backup"; "f1"]
                    false Cases.relativeDisk) H).
  - vm_compute. reflexivity.
Defined.

(** ** White space around a line *)

Section AroundALine.

Lemma isSpace_cases c :
  isSpace c = true ->
  nat_of_ascii c = 9%nat \/ nat_of_ascii c = 10%nat \/ nat_of_ascii c = 12%nat
  \/ nat_of_ascii c = 13%nat \/ nat_of_ascii c = 32%nat.
Proof.
  unfold isSpace.
  destruct (nat_of_ascii c) as [| n]; [discriminate | ].
  do 32 (destruct n as [| n]; [first [discriminate | auto 6] | ]).
  discriminate.
Qed.

Lemma space2_isSpace a b : isSpace b = true -> space2 a b = false.
Proof.
  intros H. unfold space2.
  destruct (nat_of_ascii a) as [| n]; [reflexivity | ].
  do 193 (destruct n as [| n]; [reflexivity | ]).
  destruct n as [| n]; [ | reflexivity ].
  destruct (isSpace_cases _ H) as [-> | [-> | [-> | [-> | ->]]]]; reflexivity.
Qed.

Lemma space3_isSpace a b c : isSpace b = true \/ isSpace c = true -> space3 a b c = false.
Proof.
  intros H. unfold space3. cbv zeta.
  destruct (nat_of_ascii a =? 225)%nat, (nat_of_ascii a =? 226)%nat,
    (nat_of_ascii a =? 227)%nat;
    destruct H as [H | H];
    destruct (isSpace_cases _ H) as [-> | [-> | [-> | [-> | ->]]]];
    cbn; rewrite ?andb_false_r; reflexivity.
Qed.

Lemma trimFront_allSpaces back ws : allSpaces ws = true -> trimFront back ws = "".
Proof.
  induction ws as [| c ws IH]; [reflexivity | ].
  simpl. intros H. apply andb_prop in H as [Hc Hws].
  now rewrite (isSpace_asciiSpace _ Hc), IH.
Qed.

(** White space after a text does not change what is trimmed from
    its front, unless the text is white space altogether. *)
Lemma trimFront_trailing ws :
  allSpaces ws = true ->
  forall n x,
    (String.length x <= n)%nat ->
    trimFront false (x ++ ws) =
    match trimFront false x with
    | EmptyString => EmptyString
    | r => r ++ ws
    end.
Proof.
  intros Hws.
  assert (Hhead : forall a, asciiSpace a = false ->
             trimFront false (String a ws) = String a ws).
  { intros a Ha. destruct ws as [| c ws']; simpl; rewrite Ha; [reflexivity | ].
    simpl in Hws. apply andb_prop in Hws as [Hc Hws'].
    rewrite (space2_isSpace a c Hc).
    destruct ws' as [| d ws'']; [reflexivity | ].
    now rewrite (space3_isSpace a c d (or_introl Hc)). }
  assert (Hhead2 : forall a b, asciiSpace a = false -> space2 a b = false ->
             trimFront false (String a (String b ws)) = String a (String b ws)).
  { intros a b Ha Hab. simpl. rewrite Ha, Hab.
    destruct ws as [| c ws']; [reflexivity | ].
    simpl in Hws. apply andb_prop in Hws as [Hc _].
    now rewrite (space3_isSpace a b c (or_intror Hc)). }
  induction n as [| n IH]; intros x Hlen.
  - destruct x; [ | simpl in Hlen; lia ].
    change ("" ++ ws) with ws. now rewrite (trimFront_allSpaces _ _ Hws).
  - destruct x as [| a s1].
    { change ("" ++ ws) with ws. now rewrite (trimFront_allSpaces _ _ Hws). }
    change (String a s1 ++ ws) with (String a (s1 ++ ws)).
    destruct (asciiSpace a) eqn:Ha.
    { simpl. rewrite Ha. apply IH. simpl in Hlen. lia. }
    destruct s1 as [| b s2].
    { change ("" ++ ws) with ws. rewrite (Hhead a Ha). simpl. now rewrite Ha. }
    change (String b s2 ++ ws) with (String b (s2 ++ ws)).
    destruct (space2 a b) eqn:Hab.
    { simpl. rewrite Ha, Hab. apply IH. simpl in Hlen. lia. }
    destruct s2 as [| c s3].
    { change ("" ++ ws) with ws. rewrite (Hhead2 a b Ha Hab). simpl. now rewrite Ha, Hab. }
    change (String c s3 ++ ws) with (String c (s3 ++ ws)).
    simpl. rewrite Ha, Hab.
    destruct (space3 a b c) eqn:Habc; [ | reflexivity ].
    apply IH. simpl in Hlen. lia.
Qed.

Lemma reverse_empty : reverse "" = "".
Proof. reflexivity. Qed.

Lemma TrimSpace_surrounded lead trail x :
  allSpaces lead = true -> allSpaces trail = true ->
  TrimSpace (lead ++ x ++ trail) = TrimSpace x.
Proof.
  intros Hl Ht. unfold TrimSpace.
  rewrite (trimFront_spaces false lead _ Hl).
  rewrite (trimFront_trailing trail Ht (String.length x) x (Nat.le_refl _)).
  destruct (trimFront false x) as [| a r] eqn:E; [reflexivity | ].
  rewrite reverse_app.
  now rewrite (trimFront_spaces true (reverse trail) _ (allSpaces_reverse _ Ht)).
Qed.

Context (D : Deps).

(** X2.  White space (blanks, tabs, line feeds, form feeds and
    carriage returns) before and after the text of a line is ignored:
    the line is trimmed before anything else is done with it, so the
    line with the white space around it does exactly what the line
    without it does. *)
Theorem space_around_a_line_is_ignored lead trail line (s : State D) :
  allSpaces lead = true ->
  allSpaces trail = true ->
  TrimSpace (lead ++ line ++ trail) = TrimSpace line
  /\ backupLine D (lead ++ line ++ trail) s = backupLine D line s.
Proof.
  intros Hl Ht. pose proof (TrimSpace_surrounded lead trail line Hl Ht) as E.
  split; [exact E | ]. unfold backupLine. now rewrite E.
Qed.

End AroundALine.

Lemma space_around_a_line_is_ignored_witness :
  let D := Cases.unixDeps in
  let s := snd (backupLine D "=> /backup" (initial D false Cases.relativeDisk)) in
  allSpaces ("  " ++ str1 9) = true
  /\ allSpaces (" " ++ str1 13) = true
  /\ backupLine D (("  " ++ str1 9) ++ "f1" ++ (" " ++ str1 13)) s = backupLine D "f1" s
  /\ calls (snd (backupLine D (("  " ++ str1 9) ++ "f1" ++ (" " ++ str1 13)) s))
     = [CallMkdirAll "/" 504; CallCopy "f1" "/backupf1" (Cases.file 20 420)].
Proof.
  intros D s.
  assert (H1 : allSpaces ("  " ++ str1 9) = true) by reflexivity.
  assert (H2 : allSpaces (" " ++ str1 13) = true) by reflexivity.
  pose proof (proj2 (space_around_a_line_is_ignored D ("  " ++ str1 9) (" " ++ str1 13)
                       "f1" s H1 H2)) as E.
  split; [exact H1 | split; [exact H2 | split; [exact E | ]]].
  rewrite E. vm_compute. reflexivity.
Defined.

(** ** Numbers in directives *)

Section Numbers.

Lemma digits_acc d p :
  digits (NilEmpty.string_of_uint d) (Z.pos p) = Some (Z.pos (Pos.of_uint_acc d p)).
Proof.
  revert p. induction d as [| d IH | d IH | d IH | d IH | d IH | d IH | d IH | d IH | d IH | d IH];
    intros p; [reflexivity | ..];
    cbn [NilEmpty.string_of_uint digits Pos.of_uint_acc];
    match goal with
    | |- context [digitOf ?c] =>
        let k := eval vm_compute in (digitOf c) in change (digitOf c) with k
    end; cbv iota beta;
    match goal with
    | |- digits _ ?acc = Some (Z.pos (Pos.of_uint_acc _ ?q)) =>
        replace acc with (Z.pos q) by lia; apply IH
    end.
Qed.

Lemma digits_zero d :
  digits (NilEmpty.string_of_uint d) 0 = Some (Z.of_N (Pos.of_uint d)).
Proof.
  induction d as [| d IH | d IH | d IH | d IH | d IH | d IH | d IH | d IH | d IH | d IH];
    [reflexivity | exact IH | ..];
    cbn [NilEmpty.string_of_uint digits Pos.of_uint];
    match goal with
    | |- context [digitOf ?c] =>
        let k := eval vm_compute in (digitOf c) in change (digitOf c) with k
    end; cbv iota beta;
    match goal with
    | |- digits _ ?acc = _ =>
        let k := eval vm_compute in acc in change acc with k
    end; apply digits_acc.
Qed.

(** The text of a positive number: its first byte is a digit, and no
    byte is white space or a line feed. *)
Lemma string_of_uint_plain d :
  noNewline (NilEmpty.string_of_uint d) = true.
Proof.
  induction d as [| d IH | d IH | d IH | d IH | d IH | d IH | d IH | d IH | d IH | d IH];
    [reflexivity | exact IH ..].
Qed.

Lemma ParseInt_pos p :
  Z.pos p <= maxInt64 ->
  ParseInt (NilEmpty.string_of_uint (Pos.to_uint p)) = Some (Z.pos p)
  /\ ParseInt (String "-" (NilEmpty.string_of_uint (Pos.to_uint p))) =
     (if minInt64 <=? Z.neg p then Some (Z.neg p) else None)
  /\ wholeArg (NilEmpty.string_of_uint (Pos.to_uint p)) = true.
Proof.
  intros Hmax.
  pose proof (digits_zero (Pos.to_uint p)) as Hd.
  rewrite DecimalPos.Unsigned.of_to in Hd. cbn [Z.of_N] in Hd.
  pose proof (string_of_uint_plain (Pos.to_uint p)) as Hn.
  pose proof (DecimalPos.Unsigned.to_uint_nonnil p) as Hnil.
  assert (Hrange : (minInt64 <=? Z.pos p) && (Z.pos p <=? maxInt64) = true).
  { apply andb_true_intro. split; [apply Z.leb_le; unfold minInt64; lia | now apply Z.leb_le]. }
  destruct (Pos.to_uint p) as [| d | d | d | d | d | d | d | d | d | d];
    [now destruct Hnil | ..];
    (split; [ | split ]);
    cbn [NilEmpty.string_of_uint] in *;
    try (unfold ParseInt; rewrite Hd; cbv iota beta;
         first [ rewrite Hrange; reflexivity
               | change (- Z.pos p) with (Z.neg p);
                 replace (Z.neg p <=? maxInt64) with true
                   by (symmetry; apply Z.leb_le; unfold maxInt64; lia);
                 now rewrite andb_true_r ]);
    try (unfold wholeArg; rewrite Hn; reflexivity).
Qed.

Lemma itoa_pos p : itoa (Z.pos p) = NilEmpty.string_of_uint (Pos.to_uint p).
Proof.
  unfold itoa. cbn [Z.to_int NilZero.string_of_int]. unfold NilZero.string_of_uint.
  pose proof (DecimalPos.Unsigned.to_uint_nonnil p). now destruct (Pos.to_uint p).
Qed.

Lemma itoa_neg p : itoa (Z.neg p) = String "-" (NilEmpty.string_of_uint (Pos.to_uint p)).
Proof.
  unfold itoa. cbn [Z.to_int NilZero.string_of_int]. unfold NilZero.string_of_uint.
  pose proof (DecimalPos.Unsigned.to_uint_nonnil p). now destruct (Pos.to_uint p).
Qed.

Lemma ParseInt_itoa n :
  minInt64 <= n <= maxInt64 -> ParseInt (itoa n) = Some n /\ wholeArg (itoa n) = true.
Proof.
  intros [Hmin Hmax]. destruct n as [| p | p].
  - split; reflexivity.
  - rewrite itoa_pos. destruct (ParseInt_pos p Hmax) as (H1 & _ & H3). auto.
  - rewrite itoa_neg.
    assert (Hp : Z.pos p <= maxInt64 \/ Z.neg p = minInt64).
    { unfold minInt64, maxInt64 in *. lia. }
    destruct Hp as [Hp | Hp].
    + destruct (ParseInt_pos p Hp) as (_ & H2 & H3).
      rewrite H2. destruct (Z.leb_spec minInt64 (Z.neg p)); [ | lia ].
      split; [reflexivity | ].
      unfold wholeArg in *. apply andb_prop in H3 as [_ H3].
      cbn [noNewline]. now rewrite H3.
    + assert (p = 9223372036854775808%positive) by (unfold minInt64 in Hp; lia).
      subst p. split; vm_compute; reflexivity.
Qed.

End Numbers.

(** ** The target, the size and the age directives *)

Section DirectiveSyntax.

Lemma skipSpaces_app ws arg :
  allSpaces ws = true -> wholeArg arg = true -> skipSpaces (ws ++ arg) = arg.
Proof.
  intros Hws Harg. induction ws as [| c ws IH]; simpl in *.
  - destruct arg as [| a arg]; [reflexivity | ].
    unfold wholeArg in Harg. apply andb_prop in Harg as [Ha _].
    simpl. now destruct (isSpace a).
  - apply andb_prop in Hws as [-> Hws]. auto.
Qed.

Lemma spanLine_noNewline arg : noNewline arg = true -> spanLine arg = (arg, "").
Proof.
  induction arg as [| c arg IH]; [reflexivity | ].
  simpl. intros H. apply andb_prop in H as [Hc H].
  destruct (isNewline c); [discriminate | ]. now rewrite (IH H).
Qed.

Lemma findOpen_arg pre ws arg :
  allSpaces ws = true -> wholeArg arg = true ->
  findOpen pre (pre ++ ws ++ arg) = Some arg.
Proof.
  intros Hws Harg. unfold findOpen.
  rewrite CutPrefix_app, (skipSpaces_app _ _ Hws Harg), spanLine_noNewline; [reflexivity | ].
  unfold wholeArg in Harg. now apply andb_prop in Harg as [_ H].
Qed.

Lemma findClosed_arg pre ws arg :
  allSpaces ws = true -> wholeArg arg = true ->
  findClosed pre (pre ++ ws ++ arg) = Some arg.
Proof.
  intros Hws Harg. unfold findClosed.
  rewrite CutPrefix_app, (skipSpaces_app _ _ Hws Harg), spanLine_noNewline; [reflexivity | ].
  unfold wholeArg in Harg. now apply andb_prop in Harg as [_ H].
Qed.

Lemma string_length_app (a b : string) :
  String.length (a ++ b) = (String.length a + String.length b)%nat.
Proof. induction a as [| c a IH]; [reflexivity | simpl; congruence]. Qed.

Lemma substring_all (a : string) : substring 0 (String.length a) a = a.
Proof. induction a as [| c a IH]; simpl; congruence. Qed.

Lemma substring_app_l (a b : string) : substring 0 (String.length a) (a ++ b) = a.
Proof. induction a as [| c a IH]; simpl; [now destruct b | congruence]. Qed.

Lemma substring_app_r (a b : string) :
  substring (String.length a) (String.length b) (a ++ b) = b.
Proof. induction a as [| c a IH]; simpl; [apply substring_all | exact IH]. Qed.

Lemma HasSuffix_app a suffix : HasSuffix (a ++ suffix) suffix = true.
Proof.
  unfold HasSuffix. rewrite string_length_app.
  replace (String.length a + String.length suffix - String.length suffix)%nat
    with (String.length a) by lia.
  rewrite substring_app_r, String.eqb_refl, andb_true_r.
  apply Nat.leb_le. lia.
Qed.

Lemma TrimSuffix_app a suffix : TrimSuffix (a ++ suffix) suffix = a.
Proof.
  unfold TrimSuffix. rewrite HasSuffix_app, string_length_app.
  replace (String.length a + String.length suffix - String.length suffix)%nat
    with (String.length a) by lia.
  apply substring_app_l.
Qed.

Context (D : Deps).

(** X4.  The line [=>], white space, and a path sets the target to
    the path with one separator taken from its end, if it ends in one,
    prints [target] and the new target, and changes nothing else.  A
    path that ends in several separators keeps all but the last; a
    path that is the separator alone leaves the target empty. *)
Theorem target_directive_sets_the_target ws path (s : State D) :
  allSpaces ws = true ->
  wholeArg path = true ->
  processNonPathLine D ("=>" ++ ws ++ path) s =
  (Done true,
   setOut (out s ++ ["target " ++ TrimSuffix path (Separator D) ++ nl])
     (setTargetPath (TrimSuffix path (Separator D)) s))
  /\ (forall p, path = p ++ Separator D -> TrimSuffix path (Separator D) = p)
  /\ (HasSuffix path (Separator D) = false -> TrimSuffix path (Separator D) = path).
Proof.
  intros Hws Hpath. split; [ | split ].
  - unfold processNonPathLine.
    change (String.eqb ("=>" ++ ws ++ path) "" || commentRex ("=>" ++ ws ++ path)) with false.
    cbv iota. unfold targetRex. rewrite (findOpen_arg "=>" _ _ Hws Hpath).
    reflexivity.
  - intros p ->. apply TrimSuffix_app.
  - intros H. unfold TrimSuffix. now rewrite H.
Qed.

Lemma processNonPathLine_maxSize ws arg (s : State D) :
  allSpaces ws = true ->
  wholeArg arg = true ->
  processNonPathLine D ("!>" ++ ws ++ arg) s =
  (Done true,
   match ParseInt arg with
   | Some n => setOut (out s ++ ["max size " ++ itoa n ++ nl]) (setMaxSize n s)
   | None =>
       setOut (out s ++ ["WARN: Expected only number in: " ++ ("!>" ++ ws ++ arg) ++ nl]) s
   end).
Proof.
  intros Hws Harg. unfold processNonPathLine.
  change (String.eqb ("!>" ++ ws ++ arg) "" || commentRex ("!>" ++ ws ++ arg)) with false.
  change (targetRex ("!>" ++ ws ++ arg)) with (@None string).
  change (maxAgeRex ("!>" ++ ws ++ arg)) with (@None string).
  cbv iota. unfold maxSizeRex. rewrite (findClosed_arg "!>" _ _ Hws Harg).
  now destruct (ParseInt arg).
Qed.

(** X5.  The line [!>], white space, and an argument is a size
    directive whatever the argument is.  When the argument is a
    decimal number of 64 bits, the directive sets [maxSize] to it and
    prints it; any other argument is answered by a warning that quotes
    the line, and nothing changes: no setting, and no message is
    recorded.  The number that the directive prints reads back: for
    every 64-bit [n], the directive with the decimal text of [n] sets
    [maxSize] to [n]. *)
Theorem max_size_directive ws (s : State D) :
  allSpaces ws = true ->
  (forall arg,
      wholeArg arg = true ->
      processNonPathLine D ("!>" ++ ws ++ arg) s =
      (Done true,
       match ParseInt arg with
       | Some n => setOut (out s ++ ["max size " ++ itoa n ++ nl]) (setMaxSize n s)
       | None =>
           setOut (out s ++ ["WARN: Expected only number in: "
                             ++ ("!>" ++ ws ++ arg) ++ nl]) s
       end))
  /\ (forall n,
        minInt64 <= n <= maxInt64 ->
        processNonPathLine D ("!>" ++ ws ++ itoa n) s =
        (Done true, setOut (out s ++ ["max size " ++ itoa n ++ nl]) (setMaxSize n s))).
Proof.
  intros Hws. split.
  - intros arg Harg. now apply processNonPathLine_maxSize.
  - intros n Hn. destruct (ParseInt_itoa n Hn) as [Hparse Harg].
    now rewrite (processNonPathLine_maxSize _ _ s Hws Harg), Hparse.
Qed.

Lemma wrap64_small z : - 2 ^ 63 <= z < 2 ^ 63 -> wrap64 z = z.
Proof.
  intros H. unfold wrap64.
  rewrite Z.mod_small by lia. lia.
Qed.

Lemma processNonPathLine_maxAge ws arg (s : State D) :
  allSpaces ws = true ->
  wholeArg arg = true ->
  processNonPathLine D ("!@" ++ ws ++ arg) s =
  (Done true,
   match ParseInt arg with
   | Some n =>
       setOut (out s ++ ["since " ++ TimeString D (sinceDate D n) ++ nl])
         (setStartDate (sinceDate D n) s)
   | None =>
       setOut (out s ++ ["WARN: Expected only number in: " ++ ("!@" ++ ws ++ arg) ++ nl]) s
   end).
Proof.
  intros Hws Harg. unfold processNonPathLine.
  change (String.eqb ("!@" ++ ws ++ arg) "" || commentRex ("!@" ++ ws ++ arg)) with false.
  change (targetRex ("!@" ++ ws ++ arg)) with (@None string).
  cbv iota. unfold maxAgeRex. rewrite (findClosed_arg "!@" _ _ Hws Harg).
  now destruct (ParseInt arg).
Qed.

(** X6.  The line [!@], white space, and an argument is an age
    directive whatever the argument is.  When the argument is a
    decimal number [n] of 64 bits, the directive sets [startDate] and
    prints it; any other argument is answered by a warning that quotes
    the line, and nothing changes.  As long as [n] days fit the 64
    bits of a duration in nanoseconds (less than some 292 years, either
    way), the new [startDate] is the midnight that begins the day [n]
    days before now. *)
Theorem max_age_directive ws (s : State D) :
  allSpaces ws = true ->
  (forall arg,
      wholeArg arg = true ->
      processNonPathLine D ("!@" ++ ws ++ arg) s =
      (Done true,
       match ParseInt arg with
       | Some n =>
           setOut (out s ++ ["since " ++ TimeString D (sinceDate D n) ++ nl])
             (setStartDate (sinceDate D n) s)
       | None =>
           setOut (out s ++ ["WARN: Expected only number in: "
                             ++ ("!@" ++ ws ++ arg) ++ nl]) s
       end))
  /\ (forall n,
        minInt64 <= n <= maxInt64 ->
        processNonPathLine D ("!@" ++ ws ++ itoa n) s =
        (Done true,
         setOut (out s ++ ["since " ++ TimeString D (sinceDate D n) ++ nl])
           (setStartDate (sinceDate D n) s)))
  /\ (forall n,
        - 2 ^ 63 < n * 86400000000000 < 2 ^ 63 ->
        sinceDate D n = Midnight D (Now D - n * 86400000000000)).
Proof.
  intros Hws. split; [ | split ].
  - intros arg Harg. now apply processNonPathLine_maxAge.
  - intros n Hn. destruct (ParseInt_itoa n Hn) as [Hparse Harg].
    now rewrite (processNonPathLine_maxAge _ _ s Hws Harg), Hparse.
  - intros n Hn. unfold sinceDate. cbv zeta.
    replace (n * 24 * 3600000000000) with (n * 86400000000000) by lia.
    rewrite (wrap64_small (n * 86400000000000)) by lia.
    rewrite wrap64_small by lia. f_equal; lia.
Qed.

End DirectiveSyntax.

Lemma target_directive_sets_the_target_witness :
  let s := initial Cases.unixDeps false Cases.relativeDisk in
  allSpaces " " = true
  /\ wholeArg "/backup/" = true
  /\ wholeArg "/" = true
  /\ processNonPathLine Cases.unixDeps "=> /backup/" s
     = (Done true, setOut ["target /backup" ++ nl] (setTargetPath "/backup" s))
  /\ processNonPathLine Cases.unixDeps "=> /" s
     = (Done true, setOut ["target " ++ nl] (setTargetPath "" s)).
Proof.
  intros s.
  assert (H1 : allSpaces " " = true) by reflexivity.
  assert (H2 : wholeArg "/backup/" = true) by reflexivity.
  assert (H3 : wholeArg "/" = true) by reflexivity.
  split; [exact H1 | split; [exact H2 | split; [exact H3 | split]]].
  - exact (proj1 (target_directive_sets_the_target Cases.unixDeps " " "/backup/" s H1 H2)).
  - exact (proj1 (target_directive_sets_the_target Cases.unixDeps " " "/" s H1 H3)).
Defined.

Lemma max_size_directive_witness :
  let s := initial (Scenario.deps 100) false Scenario.disk in
  allSpaces "" = true
  /\ wholeArg "10MB" = true
  /\ minInt64 <= 150 <= maxInt64
  /\ processNonPathLine (Scenario.deps 100) "!>150" s
     = (Done true, setOut ["max size 150" ++ nl] (setMaxSize 150 s))
  /\ processNonPathLine (Scenario.deps 100) "!>10MB" s
     = (Done true, setOut ["WARN: Expected only number in: !>10MB" ++ nl] s).
Proof.
  intros s.
  assert (H1 : allSpaces "" = true) by reflexivity.
  assert (H2 : wholeArg "10MB" = true) by reflexivity.
  assert (H3 : minInt64 <= 150 <= maxInt64) by (unfold minInt64, maxInt64; lia).
  split; [exact H1 | split; [exact H2 | split; [exact H3 | split]]].
  - exact (proj2 (max_size_directive (Scenario.deps 100) "" s H1) 150 H3).
  - exact (proj1 (max_size_directive (Scenario.deps 100) "" s H1) "10MB" H2).
Defined.

Lemma max_age_directive_witness :
  let s := initial (Scenario.deps 100) false Scenario.disk in
  allSpaces "" = true
  /\ wholeArg "100 days" = true
  /\ minInt64 <= 20 <= maxInt64
  /\ - 2 ^ 63 < 20 * 86400000000000 < 2 ^ 63
  /\ processNonPathLine (Scenario.deps 100) "!@20" s
     = (Done true,
        setOut ["since -1728000000000000" ++ nl] (setStartDate (- (20 * Scenario.day)) s))
  /\ processNonPathLine (Scenario.deps 100) "!@100 days" s
     = (Done true, setOut ["WARN: Expected only number in: !@100 days" ++ nl] s)
  /\ sinceDate (Scenario.deps 100) 20 = - (20 * Scenario.day).
Proof.
  intros s.
  assert (H1 : allSpaces "" = true) by reflexivity.
  assert (H2 : wholeArg "100 days" = true) by reflexivity.
  assert (H3 : minInt64 <= 20 <= maxInt64) by (unfold minInt64, maxInt64; lia).
  assert (H4 : - 2 ^ 63 < 20 * 86400000000000 < 2 ^ 63) by lia.
  split; [exact H1 | split; [exact H2 | split; [exact H3 | split; [exact H4 | ]]]].
  split; [ | split ].
  - exact (proj1 (proj2 (max_age_directive (Scenario.deps 100) "" s H1)) 20 H3).
  - exact (proj1 (max_age_directive (Scenario.deps 100) "" s H1) "100 days" H2).
  - exact (proj2 (proj2 (max_age_directive (Scenario.deps 100) "" s H1)) 20 H4).
Defined.

(** ** The messages of an exclude directive *)

Section ExcludeMessages.

Context (D : Deps).

Lemma parseParts_msgs parts (s s' : State D) :
  parseParts D parts s = (Done tt, s') ->
  out s' = out s
  /\ msgs s' =
     (msgs s ++
      flat_map (fun part =>
                  if String.eqb part "" then []
                  else match Compile D part with
                       | Some _ => []
                       | None => [("Error in exlude regexp: " ++ part)%string]
                       end)
        parts)%list.
Proof.
  revert s. induction parts as [| part rest IH]; intros s H.
  - inversion H. simpl. now rewrite app_nil_r.
  - simpl in H. apply bind_inv in H as [([] & s1 & E & H) | (q & _ & Hq)];
      [ | discriminate Hq ].
    destruct (IH _ H) as [Ho Hm]. rewrite Ho, Hm. simpl.
    destruct (String.eqb part "").
    + inversion E. auto.
    + destruct (Compile D part) as [rex | ].
      * inversion E. auto.
      * rewrite msg_spec in E. inversion E. simpl. now rewrite <- app_assoc.
Qed.

(** X7.  An exclude or extend-exclude directive that is carried out to
    its end records one message for each piece of its argument that is
    not empty and does not compile, in the order of the pieces and
    after the messages recorded before, and prints the directive with
    its argument as it was written.  The pieces that do compile are
    installed all the same. *)
Theorem exclude_errors_are_recorded line arg (s s' : State D) :
  classify line = Exclude arg \/ classify line = ExtendExclude arg ->
  processNonPathLine D line s = (Done true, s') ->
  msgs s' = (msgs s ++ patternErrors D arg)%list
  /\ out s' =
     (out s ++ [(match classify line with
                 | ExtendExclude _ => "extend exclude "
                 | _ => "exclude "
                 end ++ arg ++ nl)%string])%list.
Proof.
  assert (Hparse : forall extend (s1 : State D),
             parseExclude D arg extend s = (Done tt, s1) ->
             out s1 = out s /\ msgs s1 = (msgs s ++ patternErrors D arg)%list).
  { intros extend s1 H. unfold parseExclude in H.
    apply bind_inv in H as [([] & s0 & E & H) | (q & _ & Hq)]; [ | discriminate Hq ].
    apply parseParts_msgs in H as [Ho Hm]. rewrite Ho, Hm.
    destruct extend; inversion E; auto. }
  intros [Hc | Hc] H; rewrite Hc.
  - rewrite (processNonPathLine_Exclude D _ _ Hc) in H.
    apply bind_inv in H as [([] & s1 & E & H) | (q & _ & Hq)]; [ | discriminate Hq ].
    apply Hparse in E as [Ho Hm].
    unfold bind, print, modify, ret in H. injection H as <-. simpl. now rewrite Ho, Hm.
  - rewrite (processNonPathLine_ExtendExclude D _ _ Hc) in H.
    apply bind_inv in H as [([] & s1 & E & H) | (q & _ & Hq)]; [ | discriminate Hq ].
    apply Hparse in E as [Ho Hm].
    unfold bind, print, modify, ret in H. injection H as <-. simpl. now rewrite Ho, Hm.
Qed.

End ExcludeMessages.


Lemma exclude_errors_are_recorded_witness :
  let D := Scenario.deps 100 in
  let s := initial D false Scenario.disk in
  let s' := snd (processNonPathLine D "!(notclosed,,f5,,)" s) in
  (classify "!(notclosed,,f5,,)" = Exclude "(notclosed,,f5,,)"
   \/ classify "!(notclosed,,f5,,)" = ExtendExclude "(notclosed,,f5,,)")
  /\ processNonPathLine D "!(notclosed,,f5,,)" s = (Done true, s')
  /\ msgs s' = ["Error in exlude regexp: (notclosed"; "Error in exlude regexp: )"]
  /\ exclude s' = ["f5"].
Proof.
  intros D s s'.
  assert (H1 : classify "!(notclosed,,f5,,)" = Exclude "(notclosed,,f5,,)"
               \/ classify "!(notclosed,,f5,,)" = ExtendExclude "(notclosed,,f5,,)")
    by (left; reflexivity).
  assert (H2 : processNonPathLine D "!(notclosed,,f5,,)" s = (Done true, s'))
    by (unfold s'; apply pair_of_fst; vm_compute; reflexivity).
  split; [exact H1 | split; [exact H2 | split]].
  - exact (proj1 (exclude_errors_are_recorded D _ _ s s' H1 H2)).
  - vm_compute. reflexivity.
Defined.

(** ** Relations that hold file by file

    A relation that [handleFile] respects as a whole, though the
    counting of the file alone or its synchronisation alone would not,
    is respected by the walk, by [handleDir] and by the whole loop. *)

Section RunOfFiles.

Context (D : Deps) (R : State D -> State D -> Prop).

Hypothesis R_refl : forall s, R s s.
Hypothesis R_trans : forall s1 s2 s3, R s1 s2 -> R s2 s3 -> R s1 s3.
Hypothesis R_file : forall path info, Respects R (handleFile D path info).
Hypothesis R_dir : forall s, R s (incDir s).

Ltac run_step :=
  first
    [ assumption
    | match goal with
      | H : forall _, Respects R _ |- _ => apply H
      | H : forall _ _, Respects R _ |- _ => apply H
      end
    | apply (Respects_ret D R R_refl)
    | apply (Respects_get D R R_refl)
    | apply (Respects_panic D R R_refl)
    | apply (Respects_bind D R R_trans); [ | intros ? ]
    | match goal with
      | |- Respects R (if ?c then _ else _) => destruct c
      | |- Respects R (match ?x with _ => _ end) => destruct x
      end ].

Lemma files_walkCallback path d : Respects R (walkCallback D path d).
Proof using R_refl R_trans R_file R_dir.
  assert (Hdir : Respects R (modify incDir)) by (intros s; apply R_dir).
  unfold walkCallback. repeat run_step.
Qed.

Lemma files_walkTree t : Respects R (walkTree D t).
Proof using R_refl R_trans R_file R_dir.
  pose proof files_walkCallback as Hcb.
  induction t as [path info | path readErr entries IH] using DirTree_induction.
  - rewrite walkTree_File. apply Hcb.
  - rewrite walkTree_Directory.
    pose proof (Respects_walkEntries D R R_refl R_trans _ IH). repeat run_step.
Qed.

Lemma files_walk path : Respects R (walk D path).
Proof using R_refl R_trans R_file R_dir.
  pose proof files_walkCallback. pose proof files_walkTree.
  unfold walk. repeat run_step.
Qed.

Hypothesis R_out : forall v s, R s (setOut v s).
Hypothesis R_reset : forall s, R s (setCount {| dir := 0; files := 0; copied := 0 |} s).

Lemma files_handleDir path : Respects R (handleDir D path).
Proof using R_refl R_trans R_file R_dir R_out R_reset.
  pose proof files_walk. pose proof (Respects_print D R R_out).
  assert (Hreset : Respects R (modify (setCount {| dir := 0; files := 0; copied := 0 |})))
    by (intros s; apply R_reset).
  unfold handleDir. repeat run_step.
Qed.

Hypothesis R_msg : forall m s, R s (setMsgs (msgs s ++ [m]) s).
Hypothesis R_directive : forall line, Respects R (processNonPathLine D line).

Lemma files_backupLine line : Respects R (backupLine D line).
Proof using R_refl R_trans R_file R_dir R_out R_reset R_msg R_directive.
  pose proof files_handleDir. pose proof (Respects_print D R R_out).
  pose proof (Respects_msg D R R_msg).
  unfold backupLine. repeat run_step.
Qed.

Lemma files_backupLoop config : Respects R (backupLoop D config).
Proof using R_refl R_trans R_file R_dir R_out R_reset R_msg R_directive.
  pose proof files_backupLine.
  induction config as [| line rest IH]; simpl; repeat run_step.
Qed.

End RunOfFiles.

(** ** The ways through [syncFile] *)

Section Ways.

Context (D : Deps).

(** What holds of [syncFile] on each of its seven ways holds of it. *)
Lemma syncFile_ways src info (s : State D) (P : Res unit * State D -> Prop) :
  let vol := VolumeName D src in
  let dest := destPathOf D (targetPath s) src in
  let perm := destDirPerm D in
  ((String.length src < String.length vol)%nat ->
   P (Panic (SliceBounds (String.length vol) (String.length src)), s)) ->
  (forall destInfo,
      stat D (world s) dest = Some destInfo ->
      fs.ModTime info <= fs.ModTime destInfo ->
      P (Done tt, s)) ->
  (forall destInfo,
      stat D (world s) dest = Some destInfo ->
      fs.ModTime destInfo < fs.ModTime info ->
      isWin D = true -> Z.land (fs.Mode destInfo) 128 <> 0 ->
      P (copyStep D src dest info
           (setWorld (chmod D (world s) dest perm) (CallChmod dest perm) s))) ->
  (forall destInfo,
      stat D (world s) dest = Some destInfo ->
      fs.ModTime destInfo < fs.ModTime info ->
      isWin D = false \/ Z.land (fs.Mode destInfo) 128 = 0 ->
      P (copyStep D src dest info s)) ->
  (stat D (world s) dest = None -> dryRun s = true ->
   P (copyStep D src dest info s)) ->
  (forall e w,
      stat D (world s) dest = None -> dryRun s = false ->
      mkdirAll D (world s) (Dir D dest) perm = (Some e, w) ->
      P (msg D ("Cannot create dirs for: " ++ dest)
           (setWorld w (CallMkdirAll (Dir D dest) perm) s))) ->
  (forall w,
      stat D (world s) dest = None -> dryRun s = false ->
      mkdirAll D (world s) (Dir D dest) perm = (None, w) ->
      P (copyStep D src dest info (setWorld w (CallMkdirAll (Dir D dest) perm) s))) ->
  P (syncFile D src info s).
Proof.
  intros vol dest perm H1 H2 H3 H4 H5 H6 H7.
  unfold syncFile, bind at 1, get. cbv beta iota zeta. fold vol dest perm.
  destruct (Nat.ltb_spec (String.length src) (String.length vol)); [now apply H1 | ].
  destruct (stat D (world s) dest) as [destInfo | ] eqn:Hstat.
  - destruct (Z.ltb_spec (fs.ModTime destInfo) (fs.ModTime info)); simpl.
    + destruct (isWin D) eqn:Hwin; simpl.
      * destruct (Z.eqb_spec (Z.land (fs.Mode destInfo) 128) 0); simpl.
        -- unfold bind, ret. apply (H4 destInfo); auto.
        -- unfold bind, callChmod, modify. apply (H3 destInfo); auto.
      * unfold bind, ret. apply (H4 destInfo); auto.
    + apply (H2 destInfo); [reflexivity | lia].
  - destruct (dryRun s) eqn:Hdry; [now apply H5 | ].
    unfold bind, callMkdirAll.
    destruct (mkdirAll D (world s) (Dir D dest) perm) as [[e | ] w] eqn:Hmk.
    + now apply (H6 e w).
    + now apply (H7 w).
Qed.

(** The two ways through [copyStep] in a dry run and the two outside. *)
Lemma copyStep_ways src dest info (s : State D) (P : Res unit * State D -> Prop) :
  (dryRun s = true ->
   P (Done tt, incCopied (setOut (out s ++ [src ++ nl]) s))) ->
  (forall e w,
      dryRun s = false -> copy D (world s) src dest info = (Some e, w) ->
      P (msg D e (setWorld w (CallCopy src dest info) s))) ->
  (forall w,
      dryRun s = false -> copy D (world s) src dest info = (None, w) ->
      P (Done tt, incCopied (setWorld w (CallCopy src dest info) s))) ->
  P (copyStep D src dest info s).
Proof.
  intros H1 H2 H3. unfold copyStep, bind at 1, get. cbv beta iota.
  destruct (dryRun s) eqn:Hdry; [now apply H1 | ].
  unfold bind, callCopy.
  destruct (copy D (world s) src dest info) as [[e | ] w] eqn:Hcopy.
  - now apply (H2 e w).
  - now apply (H3 w).
Qed.

End Ways.

(** ** Counting *)

Section Counters.

Context (D : Deps).

Lemma countFile_files (s : State D) :
  files (count (snd (countFile D s))) = S (files (count s)).
Proof.
  unfold countFile, bind, modify, get. simpl.
  destruct (dryRun s); [reflexivity | ].
  destruct (printDotFileCount D =? 0); [reflexivity | ].
  now destruct (Z.rem _ _ =? 0).
Qed.

Lemma copyStep_counts src dest info (s : State D) :
  let s' := snd (copyStep D src dest info s) in
  files (count s') = files (count s)
  /\ (copied (count s') <= S (copied (count s)))%nat.
Proof.
  cbv zeta. unfold copyStep, bind, get. simpl. destruct (dryRun s); simpl.
  - auto.
  - unfold callCopy. destruct (copy D (world s) src dest info) as [[e | ] w]; simpl.
    + rewrite msg_spec. simpl. auto.
    + auto.
Qed.

Lemma syncFile_counts src info (s : State D) :
  let s' := snd (syncFile D src info s) in
  files (count s') = files (count s)
  /\ (copied (count s') <= S (copied (count s)))%nat.
Proof.
  cbv zeta.
  set (P := fun s' : State D =>
              files (count s') = files (count s)
              /\ (copied (count s') <= S (copied (count s)))%nat).
  change (P (snd (syncFile D src info s))).
  assert (Hsame : P s) by (unfold P; auto).
  assert (Hcopy : forall w c dest, P (snd (copyStep D src dest info (setWorld w c s))))
    by (intros w c dest; apply (copyStep_counts src dest info (setWorld w c s))).
  unfold syncFile, bind at 1, get. cbv beta iota zeta.
  destruct (_ <? _)%nat; [exact Hsame | ].
  destruct (stat D (world s) _) as [destInfo | ].
  - destruct (negb _); [exact Hsame | ].
    destruct (isWin D && _).
    + unfold bind, callChmod, modify. apply Hcopy.
    + unfold bind, ret. apply copyStep_counts.
  - destruct (dryRun s); [apply copyStep_counts | ].
    unfold bind, callMkdirAll.
    destruct (mkdirAll D (world s) _ (destDirPerm D)) as [[e | ] w].
    + rewrite msg_spec. exact Hsame.
    + apply Hcopy.
Qed.

(** One more file, and at most one more copy. *)
Lemma handleFile_counts path info (s : State D) :
  let s' := snd (handleFile D path info s) in
  files (count s') = S (files (count s))
  /\ (copied (count s) <= copied (count s') <= S (copied (count s)))%nat.
Proof.
  cbv zeta. rewrite handleFile_unfold.
  pose proof (countFile_files s) as Hf.
  pose proof (countFile_keeps D s) as (_ & _ & _ & _ & Hc & _). cbv zeta in Hc.
  destruct (countFile D s) as [[[] | p] s1]; simpl in *; [ | lia ].
  destruct (filtered s path info); simpl; [lia | ].
  pose proof (syncFile_counts path info s1) as [Hf' Hc']. cbv zeta in *.
  assert (copied (count s1) <= copied (count (snd (syncFile D path info s1))))%nat.
  { apply (Respects_syncFile D (fun s s' => (copied (count s) <= copied (count s'))%nat));
      intros; simpl; lia. }
  lia.
Qed.

(** X11.  At the end of every run the counter of copied files is at
    most the counter of files: [handleFile] counts the file first and
    counts it as copied at most once, and [handleDir] resets both
    counters together. *)
Theorem copied_never_exceeds_files config dry w :
  let c := count (snd (Backup D config dry w)) in
  (copied c <= files c)%nat.
Proof.
  cbv zeta. rewrite Backup_run.
  destruct (deferred_keeps D (fst (backupLoop D config (initial D dry w)))
              (snd (backupLoop D config (initial D dry w)))) as (_ & _ & _ & ->).
  set (R := fun s s' : State D =>
              (copied (count s) <= files (count s))%nat ->
              (copied (count s') <= files (count s'))%nat).
  assert (H : Respects R (backupLoop D config)).
  { apply files_backupLoop; unfold R; try (intros; simpl in *; lia); auto.
    - intros path info s. pose proof (handleFile_counts path info s). simpl in *. lia.
    - intros line s.
      pose proof (processNonPathLine_world D line s) as Hw. simpl in Hw.
      injection Hw as _ _ _ ->. auto. }
  apply (H (initial D dry w)). simpl. lia.
Qed.

End Counters.

(** ** Copies counted and copies made *)

Section CopiesMade.

Context (D : Deps).

Lemma copyCalls_app l1 l2 : copyCalls (l1 ++ l2) = (copyCalls l1 + copyCalls l2)%nat.
Proof. unfold copyCalls. now rewrite List.filter_app, length_app. Qed.

(** Outside of a dry run, [syncFile] counts a file as copied only
    after a call of the copy slot. *)
Lemma wet_syncFile_copies src info (s : State D) :
  let s' := snd (syncFile D src info s) in
  dryRun s' = dryRun s
  /\ (dryRun s = false ->
      (copied (count s') + copyCalls (calls s)
       <= copied (count s) + copyCalls (calls s'))%nat).
Proof.
  cbv zeta.
  set (P := fun s' : State D =>
              dryRun s' = dryRun s
              /\ (dryRun s = false ->
                  (copied (count s') + copyCalls (calls s)
                   <= copied (count s) + copyCalls (calls s'))%nat)).
  change (P (snd (syncFile D src info s))).
  assert (Hcopy : forall (s1 : State D) dest,
             dryRun s1 = dryRun s -> copied (count s1) = copied (count s) ->
             (copyCalls (calls s) <= copyCalls (calls s1))%nat ->
             P (snd (copyStep D src dest info s1))).
  { intros s1 dest Hd Hc Hn.
    apply (copyStep_ways D src dest info s1 (fun x => P (snd x))); cbn [snd].
    - intros Hdry. split; [exact Hd | ]. intros Hwet. congruence.
    - intros e w _ _. rewrite msg_spec. split; [exact Hd | ]. intros _. simpl.
      rewrite copyCalls_app, Hc. lia.
    - intros w _ _. split; [exact Hd | ]. intros _. simpl.
      rewrite copyCalls_app, Hc. simpl. unfold copyCalls at 3. simpl. lia. }
  assert (Hsame : P s) by (split; [reflexivity | intros; lia]).
  apply (syncFile_ways D src info s (fun x => P (snd x))); cbn [snd].
  - intros _. exact Hsame.
  - intros destInfo _ _. exact Hsame.
  - intros destInfo _ _ _ _. apply Hcopy; [reflexivity .. | ].
    simpl. rewrite copyCalls_app. lia.
  - intros destInfo _ _ _. now apply Hcopy.
  - intros _ _. now apply Hcopy.
  - intros e w _ _ _. rewrite msg_spec. split; [reflexivity | ]. intros _. simpl.
    rewrite copyCalls_app. lia.
  - intros w _ _ _. apply Hcopy; [reflexivity .. | ].
    simpl. rewrite copyCalls_app. lia.
Qed.

(** X12.  A run that is not a dry run never counts a file as copied
    without a call of the copy slot: at its end the counter of copied
    files is at most the number of copy calls in the log. *)
Theorem copied_files_were_copied config w :
  let s' := snd (Backup D config false w) in
  (copied (count s') <= copyCalls (calls s'))%nat.
Proof.
  cbv zeta. rewrite Backup_run.
  destruct (deferred_keeps D (fst (backupLoop D config (initial D false w)))
              (snd (backupLoop D config (initial D false w)))) as (_ & -> & _ & ->).
  set (R := fun s s' : State D =>
              dryRun s' = dryRun s
              /\ (dryRun s = false ->
                  (copied (count s') + copyCalls (calls s)
                   <= copied (count s) + copyCalls (calls s'))%nat)).
  assert (Hsame : forall s s' : State D,
             dryRun s' = dryRun s -> calls s' = calls s ->
             (copied (count s') <= copied (count s))%nat -> R s s').
  { intros s s' Hd Hc Hle. split; [exact Hd | ]. intros _. rewrite Hc. lia. }
  assert (H : Respects R (backupLoop D config)).
  { apply Respects_backupLoop; try (intros; apply Hsame; simpl; auto with arith; fail).
    - intros s1 s2 s3 [D1 H1] [D2 H2]. split; [congruence | ]. intros Hwet.
      specialize (H1 Hwet). specialize (H2 (eq_trans D1 Hwet)). lia.
    - intros src info s. apply wet_syncFile_copies. }
  destruct (H (initial D false w)) as [_ Hwet].
  specialize (Hwet eq_refl). simpl in Hwet. lia.
Qed.

End CopiesMade.

(** ** Dry runs *)

Section DryRuns.

Context (D : Deps).

(** In a dry run the log grows by [chmod] calls on Windows only, and
    off Windows the file system stays as it is. *)
Lemma dry_syncFile src info (s : State D) :
  let s' := snd (syncFile D src info s) in
  dryRun s' = dryRun s
  /\ (dryRun s = true ->
      exists l,
        calls s' = (calls s ++ l)%list
        /\ Forall (fun c => isWin D = true
                            /\ exists name, c = CallChmod name (destDirPerm D)) l
        /\ (isWin D = false -> world s' = world s)).
Proof.
  cbv zeta.
  set (P := fun s' : State D =>
              dryRun s' = dryRun s
              /\ (dryRun s = true ->
                  exists l,
                    calls s' = (calls s ++ l)%list
                    /\ Forall (fun c => isWin D = true
                                        /\ exists name, c = CallChmod name (destDirPerm D)) l
                    /\ (isWin D = false -> world s' = world s))).
  change (P (snd (syncFile D src info s))).
  assert (Hstay : forall s', dryRun s' = dryRun s -> calls s' = calls s ->
                             world s' = world s -> P s').
  { intros s' Hd Hc Hw. split; [exact Hd | ]. intros _. exists [].
    rewrite app_nil_r. auto. }
  assert (Hwet : forall s', dryRun s' = dryRun s -> dryRun s = false -> P s').
  { intros s' Hd Hdry. split; [exact Hd | congruence]. }
  apply (syncFile_ways D src info s (fun x => P (snd x))); cbn [snd].
  - intros _. now apply Hstay.
  - intros destInfo _ _. now apply Hstay.
  - intros destInfo _ _ Hwin _.
    apply (copyStep_ways D src _ info _ (fun x => P (snd x))); cbn [snd].
    + intros Hdry. split; [reflexivity | ]. intros _.
      eexists. split; [reflexivity | ]. split; [ | congruence ].
      repeat constructor; eauto.
    + intros e w Hdry _. rewrite msg_spec. now apply Hwet.
    + intros w Hdry _. now apply Hwet.
  - intros destInfo _ _ _.
    apply (copyStep_ways D src _ info _ (fun x => P (snd x))); cbn [snd].
    + intros _. now apply Hstay.
    + intros e w Hdry _. rewrite msg_spec. now apply Hwet.
    + intros w Hdry _. now apply Hwet.
  - intros _ _.
    apply (copyStep_ways D src _ info _ (fun x => P (snd x))); cbn [snd].
    + intros _. now apply Hstay.
    + intros e w Hdry _. rewrite msg_spec. now apply Hwet.
    + intros w Hdry _. now apply Hwet.
  - intros e w _ Hdry _. rewrite msg_spec. now apply Hwet.
  - intros w _ Hdry _.
    apply (copyStep_ways D src _ info _ (fun x => P (snd x))); cbn [snd].
    + intros Hdry'. simpl in Hdry'. congruence.
    + intros e w' _ _. rewrite msg_spec. now apply Hwet.
    + intros w' _ _. now apply Hwet.
Qed.

(** X13.  A dry run never calls [mkdirAll] and never calls the copy
    slot, whatever the configuration and the file system.  The only
    writing call it can make is the [chmod] with [destDirPerm], and
    that on Windows only; off Windows a dry run makes no writing call
    and leaves the file system as it found it. *)
Theorem dry_run_calls_only_chmod config w :
  let s' := snd (Backup D config true w) in
  Forall (fun c => isWin D = true /\ exists name, c = CallChmod name (destDirPerm D))
    (calls s')
  /\ (isWin D = false -> calls s' = [] /\ world s' = w).
Proof.
  cbv zeta. rewrite Backup_run.
  destruct (deferred_keeps D (fst (backupLoop D config (initial D true w)))
              (snd (backupLoop D config (initial D true w)))) as (_ & -> & -> & _).
  set (R := fun s s' : State D =>
              dryRun s' = dryRun s
              /\ (dryRun s = true ->
                  exists l,
                    calls s' = (calls s ++ l)%list
                    /\ Forall (fun c => isWin D = true
                                        /\ exists name, c = CallChmod name (destDirPerm D)) l
                    /\ (isWin D = false -> world s' = world s))).
  assert (Hsame : forall s s' : State D,
             dryRun s' = dryRun s -> calls s' = calls s -> world s' = world s -> R s s').
  { intros s s' Hd Hc Hw. split; [exact Hd | ]. intros _. exists [].
    rewrite app_nil_r. auto. }
  assert (H : Respects R (backupLoop D config)).
  { apply Respects_backupLoop; try (intros; now apply Hsame).
    - intros s1 s2 s3 [D1 H1] [D2 H2]. split; [congruence | ]. intros Hdry.
      destruct (H1 Hdry) as (l1 & C1 & F1 & W1).
      destruct (H2 (eq_trans D1 Hdry)) as (l2 & C2 & F2 & W2).
      exists (l1 ++ l2)%list. split; [now rewrite C2, C1, app_assoc | ].
      split; [now apply Forall_app | ].
      intros Hwin. now rewrite W2, W1.
    - intros src info s. apply dry_syncFile. }
  destruct (H (initial D true w)) as [_ Hdry].
  destruct (Hdry eq_refl) as (l & C & F & W). simpl in C, W.
  rewrite C. split; [exact F | ].
  intros Hwin. split; [ | auto ].
  destruct F as [| c l [Hc _] _]; [reflexivity | congruence].
Qed.

End DryRuns.

Lemma dry_run_calls_only_chmod_witness :
  isWin Cases.unixDeps = false
  /\ calls (snd (Backup Cases.unixDeps Cases.relativeConfig true Cases.relativeDisk)) = []
  /\ world (snd (Backup Cases.unixDeps Cases.relativeConfig true Cases.relativeDisk))
     = Cases.relativeDisk
  /\ copied (count (snd (Backup Cases.unixDeps Cases.relativeConfig true Cases.relativeDisk)))
     = 1%nat.
Proof.
  assert (H : isWin Cases.unixDeps = false) by reflexivity.
  destruct (proj2 (dry_run_calls_only_chmod Cases.unixDeps Cases.relativeConfig
                     Cases.relativeDisk) H) as [Hc Hw].
  split; [exact H | split; [exact Hc | split; [exact Hw | ]]].
  vm_compute. reflexivity.
Defined.

(** ** The filters *)

Section Filters.

Context (D : Deps).

Lemma filtered_spec (s : State D) path info :
  filtered s path info = true <->
  Z.land (fs.Mode info) fs.ModeSymlink <> 0
  \/ fs.Size info > maxSize s
  \/ fs.ModTime info < startDate s
  \/ exists rex, In rex (exclude s) /\ MatchString D rex path = true.
Proof.
  unfold filtered, excluded.
  rewrite !orb_true_iff, negb_true_iff, Z.eqb_neq, Z.gtb_gt, Z.ltb_lt, existsb_exists.
  tauto.
Qed.

(** X8.  The filters reject a file exactly when it is a symbolic link,
    or larger than [maxSize], or modified before [startDate], or when
    some exclude pattern matches its path.  A file that they reject
    is counted as a file and nothing else: it is not counted
    as copied, no slot is called, the file system, the messages and
    the settings stay, and in a dry run nothing is printed for it.
    A size equal to [maxSize] and a time equal to [startDate] pass:
    both comparisons are strict. *)
Theorem filtered_file_is_only_counted path info (s : State D) :
  (filtered s path info = true <->
   Z.land (fs.Mode info) fs.ModeSymlink <> 0
   \/ fs.Size info > maxSize s
   \/ fs.ModTime info < startDate s
   \/ exists rex, In rex (exclude s) /\ MatchString D rex path = true)
  /\ (filtered s path info = true ->
      let s' := snd (handleFile D path info s) in
      files (count s') = S (files (count s))
      /\ copied (count s') = copied (count s)
      /\ dir (count s') = dir (count s)
      /\ calls s' = calls s
      /\ world s' = world s
      /\ msgs s' = msgs s
      /\ settings s' = settings s
      /\ (dryRun s = true -> out s' = out s)).
Proof.
  split; [apply filtered_spec | ].
  intros H. cbv zeta.
  rewrite handleFile_unfold, H.
  pose proof (countFile_files D s) as Hf.
  pose proof (countFile_keeps D s) as (Hs & Hw & Hc & Hm & Hcp & Hd). cbv zeta in *.
  assert (Ho : dryRun s = true -> out (snd (countFile D s)) = out s).
  { intros Hdry. unfold countFile, bind, modify, get. simpl. now rewrite Hdry. }
  destruct (countFile D s) as [[[] | p] s1]; simpl in *; repeat split; assumption.
Qed.




End Filters.

Lemma filtered_file_is_only_counted_witness :
  let D := Scenario.deps 100 in
  let s := snd (backupLine D "=> /backup" (initial D false Scenario.disk)) in
  let link := Scenario.withMode fs.ModeSymlink (Scenario.file 10 0) in
  filtered s "/d1/d2/s1" link = true
  /\ files (count (snd (handleFile D "/d1/d2/s1" link s))) = 1%nat
  /\ calls (snd (handleFile D "/d1/d2/s1" link s)) = [].
Proof.
  intros D s link.
  assert (H : filtered s "/d1/d2/s1" link = true) by reflexivity.
  destruct (proj2 (filtered_file_is_only_counted D "/d1/d2/s1" link s) H)
    as (Hf & _ & _ & Hc & _).
  split; [exact H | split; [exact Hf | exact Hc]].
Defined.

(** ** Directives and sources *)

Section Separation.

Context (D : Deps).

(** X10.  Settings change by directives only, and directives change
    nothing but settings, messages and output.  A source line leaves
    target, age limit, size limit and exclude list as they are, so
    they stay in force for every source that follows; a line that is
    no source calls no slot, leaves the file system and the counters
    alone, and never ends the run with the missing-target error.  No
    line changes the dry-run flag. *)
Theorem directives_and_sources_are_separate line (s : State D) :
  let s' := snd (backupLine D line s) in
  dryRun s' = dryRun s
  /\ (isSource (TrimSpace line) = true -> settings s' = settings s)
  /\ (isSource (TrimSpace line) = false ->
      fst (backupLine D line s) <> Done (Some errText)
      /\ world s' = world s /\ calls s' = calls s /\ count s' = count s).
Proof.
  cbv zeta. split; [ | split ].
  - apply (Respects_backupLine D (fun s s' => dryRun s' = dryRun s)); keeps_basics.
  - intros Hsrc. unfold backupLine.
    rewrite (bind_Done D _ _ _ _ _ (processNonPathLine_source D _ s Hsrc)).
    set (R := fun s s' : State D => settings s' = settings s).
    assert (Hrefl : forall s, R s s) by reflexivity.
    assert (Htrans : forall s1 s2 s3, R s1 s2 -> R s2 s3 -> R s1 s3)
      by (unfold R; intros; congruence).
    assert (Hret : forall A (a : A), Respects R (ret (D:=D) a))
      by (intros; now apply Respects_ret).
    assert (Hbind : forall A B (m : M D A) (k : A -> M D B),
               Respects R m -> (forall a, Respects R (k a)) -> Respects R (bind m k))
      by (intros; now apply Respects_bind).
    assert (Hfile : forall path info, Respects R (handleFile D path info))
      by (intros; apply handleFile_settings).
    assert (Hdir : forall path, Respects R (handleDir D path)).
    { intros path. apply files_handleDir; auto; intros; reflexivity. }
    assert (H : Respects R
                  (bind get (fun s0 : State D =>
                     if String.eqb (targetPath s0) ""
                     then bind (print D ("FATAL: " ++ errText ++ nl))
                            (fun _ => ret (Some errText))
                     else
                       match stat D (world s0) (TrimSpace line) with
                       | Some info =>
                           bind (print D (nl ++ TrimSpace line ++ nl))
                             (fun _ =>
                                bind (if fs.IsDir info
                                      then handleDir D (TrimSpace line)
                                      else handleFile D (TrimSpace line) info)
                                  (fun _ => ret None))
                       | None =>
                           bind (msg D ("Cannot stat, skipping: " ++ TrimSpace line))
                             (fun _ => ret None)
                       end))).
    { apply Hbind; [now apply Respects_get | intros s2].
      destruct (String.eqb (targetPath s2) "").
      - apply Hbind; [ | intros; apply Hret ]. intros s3. reflexivity.
      - destruct (stat D (world s2) (TrimSpace line)) as [info | ].
        + apply Hbind; [intros s3; reflexivity | intros _].
          apply Hbind; [ | intros; apply Hret ].
          destruct (fs.IsDir info); [apply Hdir | apply Hfile].
        + apply Hbind; [ | intros; apply Hret ].
          intros s3. now rewrite msg_spec. }
    apply H.
  - intros Hsrc. unfold backupLine.
    pose proof (processNonPathLine_world D (TrimSpace line) s) as Hw.
    assert (Hdirective : forall s1, processNonPathLine D (TrimSpace line) s <> (Done false, s1)).
    { intros s1 E. apply (f_equal fst) in E. simpl in E.
      revert E Hsrc. unfold isSource, classify, processNonPathLine.
      destruct (String.eqb (TrimSpace line) "" || commentRex (TrimSpace line));
        [discriminate | ].
      destruct (targetRex (TrimSpace line)); [discriminate | ].
      destruct (maxAgeRex (TrimSpace line)).
      { unfold bind. destruct (ParseInt s0); discriminate. }
      destruct (maxSizeRex (TrimSpace line)).
      { unfold bind. destruct (ParseInt s0); discriminate. }
      destruct (extendExcludeRex (TrimSpace line)).
      { unfold bind. destruct (parseExclude D s0 true s) as [[[] | p] s2]; discriminate. }
      destruct (excludeRex (TrimSpace line)).
      { unfold bind. destruct (parseExclude D s0 false s) as [[[] | p] s2]; discriminate. }
      discriminate. }
    destruct (processNonPathLine D (TrimSpace line) s) as [[[] | p] s1] eqn:E;
      simpl in Hw; injection Hw as _ Hworld Hcalls Hcount.
    + rewrite (bind_Done D _ _ _ _ _ E). simpl. split; [discriminate | auto].
    + now destruct (Hdirective s1).
    + rewrite (bind_Panic D _ _ _ _ _ E). simpl. split; [discriminate | auto].
Qed.

End Separation.

Lemma directives_and_sources_are_separate_witness :
  let D := Scenario.deps 100 in
  let s := snd (backupLoop D ["=> /backup"; "!>150"] (initial D false Scenario.disk)) in
  isSource (TrimSpace "/d3/d4") = true
  /\ settings (snd (backupLine D "/d3/d4" s)) = settings s
  /\ isSource (TrimSpace "!f5,,/d6/") = false
  /\ calls (snd (backupLine D "!f5,,/d6/" s)) = calls s.
Proof.
  intros D s.
  assert (H1 : isSource (TrimSpace "/d3/d4") = true) by reflexivity.
  assert (H2 : isSource (TrimSpace "!f5,,/d6/") = false) by reflexivity.
  split; [exact H1 | split; [ | split; [exact H2 | ]]].
  - exact (proj1 (proj2 (directives_and_sources_are_separate D "/d3/d4" s)) H1).
  - exact (proj1 (proj2 (proj2 (proj2 (proj2 (directives_and_sources_are_separate D
                                                "!f5,,/d6/" s)) H2)))).
Defined.

(** ** What [Backup] returns *)

Section Result.

Context (D : Deps).

(** The loop is left early with the missing-target error only. *)
Lemma backupLine_error line (s s' : State D) e :
  backupLine D line s = (Done (Some e), s') -> e = errText.
Proof.
  unfold backupLine. intros H.
  apply bind_inv in H as [(directive & s1 & _ & H) | (q & _ & Hq)]; [ | discriminate Hq ].
  destruct directive; [discriminate H | ].
  unfold bind at 1, get in H.
  destruct (String.eqb (targetPath s1) "").
  - unfold bind, print, modify, ret in H. now injection H as <- _.
  - destruct (stat D (world s1) (TrimSpace line)) as [info | ].
    + apply bind_inv in H as [([] & s2 & _ & H) | (q & _ & Hq)]; [ | discriminate Hq ].
      apply bind_inv in H as [([] & s3 & _ & H) | (q & _ & Hq)]; [ | discriminate Hq ].
      discriminate H.
    + apply bind_inv in H as [([] & s2 & _ & H) | (q & _ & Hq)]; [ | discriminate Hq ].
      discriminate H.
Qed.

Lemma backupLoop_error config (s s' : State D) e :
  backupLoop D config s = (Done (Some e), s') -> e = errText.
Proof.
  revert s. induction config as [| line rest IH]; intros s H; [discriminate H | ].
  simpl in H.
  apply bind_inv in H as [([e1 | ] & s1 & E & H) | (q & _ & Hq)]; [ | | discriminate Hq ].
  - injection H as <- _. exact (backupLine_error _ _ _ _ E).
  - exact (IH _ H).
Qed.

(** X19.  What [Backup] returns is decided by the messages and by how
    the loop ended.  With messages recorded it returns the error
    [N errors], [N] being their number; with none it returns the
    missing-target error when the loop ended with it, and [nil]
    otherwise.  So [Backup] returns [nil] exactly when no message was
    recorded and the loop did not end with an error; a run that a
    panic cut short with no message recorded returns [nil] as well. *)
Theorem Backup_result config dry w :
  let r := fst (backupLoop D config (initial D dry w)) in
  let s := snd (backupLoop D config (initial D dry w)) in
  let ev := fst (Backup D config dry w) in
  (msgs s <> [] -> ev = Some (itoa (Z.of_nat (length (msgs s))) ++ " errors"))
  /\ (msgs s = [] -> (exists e, r = Done (Some e)) -> ev = Some errText)
  /\ (msgs s = [] -> (forall e, r <> Done (Some e)) -> ev = None)
  /\ (ev = None <-> msgs s = [] /\ forall e, r <> Done (Some e)).
Proof.
  cbv zeta. rewrite Backup_run.
  destruct (backupLoop D config (initial D dry w)) as [r s] eqn:E. simpl fst. simpl snd.
  assert (H1 : msgs s <> [] ->
               fst (deferred D r s) = Some (itoa (Z.of_nat (length (msgs s))) ++ " errors")).
  { intros Hm. unfold deferred.
    destruct r as [e | p]; simpl; destruct (msgs s); try contradiction; reflexivity. }
  assert (H2 : msgs s = [] -> (exists e, r = Done (Some e)) ->
               fst (deferred D r s) = Some errText).
  { intros Hm [e ->]. rewrite (backupLoop_error _ _ _ _ E).
    unfold deferred. now rewrite Hm. }
  assert (H3 : msgs s = [] -> (forall e, r <> Done (Some e)) -> fst (deferred D r s) = None).
  { intros Hm Hr. unfold deferred.
    destruct r as [[e | ] | p]; simpl; rewrite Hm; simpl; [ | reflexivity .. ].
    now destruct (Hr e). }
  split; [exact H1 | split; [exact H2 | split; [exact H3 | ]]].
  split; [ | intros [Hm Hr]; now apply H3 ].
  intros Hev. apply deferred_clean in Hev as [Hm Hdone].
  split; [exact Hm | ]. intros e ->. specialize (Hdone _ eq_refl). discriminate.
Qed.

(** X20.  A source that [stat] reports as a directory but that the
    walker cannot stat any more makes the callback panic: the walker
    hands it no entry, and the callback asks that entry whether it is
    a directory without looking at the error.  The run ends there, the
    lines that follow are not processed, the recovered panic is
    printed, and with no message recorded [Backup] returns [nil]. *)
Theorem vanished_root_ends_the_run before line rest info dry w (s : State D) :
  backupLoop D before (initial D dry w) = (Done None, s) ->
  isSource (TrimSpace line) = true ->
  targetPath s <> "" ->
  stat D (world s) (TrimSpace line) = Some info ->
  fs.IsDir info = true ->
  walkDir D (world s) (TrimSpace line) = None ->
  let s1 := setCount {| dir := 0; files := 0; copied := 0 |}
              (setOut (out s ++ [nl ++ TrimSpace line ++ nl]) s) in
  backupLoop D (before ++ line :: rest) (initial D dry w) = (Panic NilDereference, s1)
  /\ (msgs s = [] ->
      Backup D (before ++ line :: rest) dry w =
      (None, setOut (out s1 ++ [panicText NilDereference ++ nl]) s1)).
Proof.
  intros Hbefore Hsrc Ht Hstat Hdir Hwalk s1.
  assert (Hloop : backupLoop D (before ++ line :: rest) (initial D dry w)
                  = (Panic NilDereference, s1)).
  { assert (Hline : backupLine D line s = (Panic NilDereference, s1)).
    { unfold backupLine.
      rewrite (bind_Done D _ _ _ _ _ (processNonPathLine_source D _ s Hsrc)).
      unfold bind at 1, get.
      destruct (String.eqb_spec (targetPath s) ""); [contradiction | ].
      rewrite Hstat, Hdir. unfold handleDir, walk.
      unfold bind, print, modify, get. simpl. rewrite Hwalk. reflexivity. }
    rewrite backupLoop_app, Hbefore. cbn [backupLoop].
    now rewrite (bind_Panic D _ _ _ _ _ Hline). }
  split; [exact Hloop | ].
  intros Hm. unfold Backup. rewrite Hloop. unfold deferred. simpl. now rewrite Hm.
Qed.

End Result.

Lemma Backup_result_witness :
  let D := Scenario.deps 100 in
  let s := snd (backupLoop D Scenario.configErrors (initial D false Scenario.disk)) in
  msgs s <> []
  /\ fst (Backup D Scenario.configErrors false Scenario.disk) = Some "4 errors".
Proof.
  intros D s.
  assert (H : msgs s <> []) by (vm_compute; discriminate).
  split; [exact H | ].
  exact (proj1 (Backup_result D Scenario.configErrors false Scenario.disk) H).
Defined.

Lemma vanished_root_ends_the_run_witness :
  let D := Cases.unixDeps in
  let s := snd (backupLine D "=> /backup" (initial D false Pruned.disk)) in
  backupLoop D ["=> /backup"] (initial D false Pruned.disk) = (Done None, s)
  /\ isSource (TrimSpace "/d5") = true
  /\ targetPath s <> ""
  /\ stat D (world s) (TrimSpace "/d5") = Some Double.dirInfo
  /\ fs.IsDir Double.dirInfo = true
  /\ walkDir D (world s) (TrimSpace "/d5") = None
  /\ fst (Backup D (["=> /backup"] ++ "/d5" :: ["f1"]) false Pruned.disk) = None
  /\ out (snd (Backup D (["=> /backup"] ++ "/d5" :: ["f1"]) false Pruned.disk))
     = ["target /backup" ++ nl; nl ++ "/d5" ++ nl;
        "runtime error: invalid memory address or nil pointer dereference" ++ nl].
Proof.
  intros D s.
  assert (H1 : backupLoop D ["=> /backup"] (initial D false Pruned.disk) = (Done None, s))
    by (vm_compute; reflexivity).
  assert (H2 : isSource (TrimSpace "/d5") = true) by reflexivity.
  assert (H3 : targetPath s <> "") by (vm_compute; discriminate).
  assert (H4 : stat D (world s) (TrimSpace "/d5") = Some Double.dirInfo)
    by (vm_compute; reflexivity).
  assert (H5 : fs.IsDir Double.dirInfo = true) by reflexivity.
  assert (H6 : walkDir D (world s) (TrimSpace "/d5") = None) by reflexivity.
  assert (H7 : msgs s = []) by reflexivity.
  pose proof (proj2 (vanished_root_ends_the_run D ["=> /backup"] "/d5" ["f1"]
                       Double.dirInfo false Pruned.disk s H1 H2 H3 H4 H5 H6) H7) as H.
  repeat (split; [assumption | ]).
  rewrite H. split; vm_compute; reflexivity.
Defined.

(** ** The output and the counters of a source directory *)

Section Directory.

Context (D : Deps).

(** [handleDir] after the walk. *)
Lemma handleDir_unfold path (s : State D) :
  handleDir D path s =
  match walk D path (setCount {| dir := 0; files := 0; copied := 0 |} s) with
  | (Done _, s2) =>
      (Done tt,
       setOut (out s2
               ++ (if Z.of_nat (files (count s2)) >=? printDotFileCount D
                   then [nl] else [])
               ++ [summary (count s2)]) s2)
  | (Panic p, s2) => (Panic p, s2)
  end.
Proof.
  unfold handleDir, bind at 1, modify. unfold bind at 1.
  destruct (walk D path _) as [[[] | p] s2]; [ | reflexivity ].
  unfold bind, get, print, modify, ret, summary.
  destruct (_ >=? _); simpl; [ | reflexivity ].
  now rewrite <- app_assoc.
Qed.

Lemma walk_unfold path (s : State D) :
  walk D path s =
  match walkDir D (world s) path with
  | Some t =>
      match walkTree D t s with
      | (Done _, s') => (Done tt, s')
      | (Panic p, s') => (Panic p, s')
      end
  | None => (Panic NilDereference, s)
  end.
Proof.
  unfold walk, bind at 1, get.
  destruct (walkDir D (world s) path) as [t | ]; [ | reflexivity ].
  unfold bind. now destruct (walkTree D t s) as [[r | p] s'].
Qed.

Lemma walkEntries_files l :
  Forall (fun t => forall (s : State D) r s',
              walkTree D t s = (Done r, s') ->
              files (count s') = (files (count s) + fileCount D (exclude s) t)%nat) l ->
  forall (s : State D) r s',
    walkEntries D l s = (Done r, s') ->
    files (count s') = (files (count s) + fileCounts D (exclude s) l)%nat.
Proof.
  induction 1 as [| t l Ht _ IH]; intros s r s' H.
  - inversion H; subst. simpl. lia.
  - rewrite walkEntries_cons in H.
    apply bind_inv in H as [(r1 & s1 & E & H) | (q & _ & Hq)]; [ | discriminate Hq ].
    pose proof (Ht _ _ _ E) as Hf1.
    apply walkTree_count in E as (-> & _ & He1).
    rewrite (IH _ _ _ H), Hf1, He1. unfold fileCounts. simpl. lia.
Qed.

Lemma walkTree_files t :
  forall (s : State D) r s',
    walkTree D t s = (Done r, s') ->
    files (count s') = (files (count s) + fileCount D (exclude s) t)%nat.
Proof.
  induction t as [path info | path readErr entries IH] using DirTree_induction;
    intros s r s' H.
  - rewrite walkTree_File in H. unfold walkCallback in H.
    destruct info as [info | ].
    + apply bind_inv in H as [([] & s1 & E & H) | (q & _ & Hq)]; [ | discriminate Hq ].
      inversion H; subst.
      pose proof (handleFile_counts D path info s) as [Hf _]. rewrite E in Hf.
      simpl in *. lia.
    + inversion H; subst. simpl. lia.
  - rewrite walkTree_Directory in H. unfold bind at 1 in H.
    rewrite walkCallback_dir in H. cbn [fileCount].
    destruct (pruned D (exclude s) path) eqn:Hp.
    + inversion H; subst. lia.
    + assert (Hp' : pruned D (exclude (incDir s)) path = false) by exact Hp.
      destruct readErr.
      * unfold bind at 1 in H. rewrite walkCallback_dir, Hp' in H.
        apply (walkEntries_files _ IH) in H. exact H.
      * unfold bind at 1, ret in H.
        apply (walkEntries_files _ IH) in H. exact H.
Qed.

(** X18.  A walk that runs to its end counts as files exactly the
    entries that are not directories, whose [Info()] succeeds and that
    lie outside of the pruned directories; files that the filters
    reject are among them.  The summary of [handleDir] reports this
    number for the tree of the source, and a number of copied files
    that is not larger. *)
Theorem files_counted_by_a_walk :
  (forall t (s : State D) r s',
      walkTree D t s = (Done r, s') ->
      files (count s') = (files (count s) + fileCount D (exclude s) t)%nat)
  /\ (forall path t (s s' : State D),
      walkDir D (world s) path = Some t ->
      handleDir D path s = (Done tt, s') ->
      files (count s') = fileCount D (exclude s) t
      /\ (copied (count s') <= files (count s'))%nat).
Proof.
  split; [exact walkTree_files | ].
  intros path t s s' Hwalk H.
  rewrite handleDir_unfold, walk_unfold in H. cbn [world setCount] in H.
  rewrite Hwalk in H.
  destruct (walkTree D t (setCount _ s)) as [[r | p] s2] eqn:E; [ | discriminate H ].
  injection H as <-. cbn [count setOut].
  split.
  - now rewrite (walkTree_files _ _ _ _ E).
  - set (R := fun s s' : State D =>
                (copied (count s) <= files (count s))%nat ->
                (copied (count s') <= files (count s'))%nat).
    assert (HR : Respects R (walkTree D t)).
    { apply files_walkTree; unfold R; try (intros; simpl in *; lia); auto.
      intros p info s0. pose proof (handleFile_counts D p info s0). simpl in *. lia. }
    specialize (HR (setCount {| dir := 0; files := 0; copied := 0 |} s)).
    rewrite E in HR. apply HR. simpl. lia.
Qed.

End Directory.

Lemma files_counted_by_a_walk_witness :
  let D := Pruned.deps in
  let s := snd (backupLoop D ["=> /backup"; "!/d6/"] (initial D false Pruned.disk)) in
  let s' := snd (handleDir D "/d5" s) in
  exists t,
    walkDir D (world s) "/d5" = Some t
    /\ handleDir D "/d5" s = (Done tt, s')
    /\ fileCount D (exclude s) t = 2%nat
    /\ files (count s') = 2%nat.
Proof.
  intros D s s'.
  assert (H1 : walkDir D (world s) "/d5" = Pruned.trees "/d5") by reflexivity.
  assert (H2 : handleDir D "/d5" s = (Done tt, s'))
    by (unfold s'; apply pair_of_fst; vm_compute; reflexivity).
  eexists. split; [exact H1 | split; [exact H2 | split; [reflexivity | ]]].
  exact (proj1 (proj2 (files_counted_by_a_walk D) "/d5" _ s s' H1 H2)).
Defined.

(** ** What a source directory prints *)

Section Listing.

Context (D : Deps).

Lemma countFile_dry (s : State D) :
  dryRun s = true -> countFile D s = (Done tt, incFiles s).
Proof. intros H. unfold countFile, bind, modify, get. simpl. now rewrite H. Qed.



Lemma div_succ f p :
  0 <= f -> 0 < p ->
  (f + 1) / p = f / p + (if Z.rem (f + 1) p =? 0 then 1 else 0).
Proof.
  intros Hf Hp. rewrite Z.rem_mod_nonneg by lia.
  destruct (Z.eqb_spec ((f + 1) mod p) 0); Z.div_mod_to_equations; nia.
Qed.

Hypothesis positive : 0 < printDotFileCount D.

Lemma countFile_wet (s : State D) :
  dryRun s = false ->
  countFile D s =
  (Done tt,
   if Z.rem (Z.of_nat (S (files (count s)))) (printDotFileCount D) =? 0
   then setOut (out s ++ ["."])%list (incFiles s)
   else incFiles s).
Proof using positive.
  intros H. unfold countFile, bind, modify, get. simpl. rewrite H.
  destruct (Z.eqb_spec (printDotFileCount D) 0); [lia | ].
  now destruct (Z.rem _ _ =? 0).
Qed.

Lemma wet_syncFile_out src info (s : State D) :
  dryRun s = false -> out (snd (syncFile D src info s)) = out s.
Proof.
  intros Hdry.
  assert (Hcopy : forall (s1 : State D) dest,
             dryRun s1 = false -> out s1 = out s ->
             out (snd (copyStep D src dest info s1)) = out s).
  { intros s1 dest Hd Ho.
    apply (copyStep_ways D src dest info s1 (fun x => out (snd x) = out s)); cbn [snd].
    - congruence.
    - intros e w _ _. now rewrite msg_spec.
    - intros w _ _. exact Ho. }
  apply (syncFile_ways D src info s (fun x => out (snd x) = out s)); cbn [snd]; auto.
  - intros e w _ _ _. now rewrite msg_spec.
Qed.

(** X17.  Outside of a dry run, what [handleDir] prints for a source
    directory is one dot for every [printDotFileCount] files seen
    (the whole part of the quotient), then a line feed if at least one
    dot was printed, then the summary, and nothing else: no file name
    and no message. *)
Theorem progress_dots path (s s' : State D) :
  dryRun s = false ->
  handleDir D path s = (Done tt, s') ->
  let n := Z.of_nat (files (count s')) in
  out s' =
  (out s ++ repeat "." (Z.to_nat (n / printDotFileCount D))
   ++ (if n >=? printDotFileCount D then [nl] else [])
   ++ [summary (count s')])%list.
Proof using positive.
  intros Hdry H. cbv zeta.
  set (F := fun s : State D => Z.of_nat (files (count s))).
  set (R := fun s s' : State D =>
              dryRun s' = dryRun s
              /\ (dryRun s = false ->
                  F s <= F s'
                  /\ out s' =
                     (out s ++ repeat "."
                                 (Z.to_nat (F s' / printDotFileCount D
                                            - F s / printDotFileCount D)))%list)).
  assert (Hsame : forall s s' : State D,
             dryRun s' = dryRun s -> out s' = out s ->
             files (count s') = files (count s) -> R s s').
  { intros s0 s1 Hd Ho Hc. split; [exact Hd | ]. intros _. unfold F. rewrite Hc, Ho.
    split; [lia | ]. rewrite Z.sub_diag. simpl. now rewrite app_nil_r. }
  assert (HR : Respects R (walk D path)).
  { apply files_walk.
    - intros s0. now apply Hsame.
    - intros s1 s2 s3 [D1 H1] [D2 H2]. split; [congruence | ]. intros Hd.
      destruct (H1 Hd) as [L1 O1]. destruct (H2 (eq_trans D1 Hd)) as [L2 O2].
      split; [lia | ]. rewrite O2, O1, <- app_assoc, <- repeat_app. do 2 f_equal.
      pose proof (Z.div_le_mono _ _ _ positive L1).
      pose proof (Z.div_le_mono _ _ _ positive L2). lia.
    - intros p info s0. split.
      { pose proof (handleFile_settings D p info s0) as Hs. simpl in Hs.
        unfold settings in Hs. now injection Hs. }
      intros Hd. rewrite handleFile_unfold, (countFile_wet _ Hd).
      pose proof (div_succ (F s0) _ ltac:(unfold F; lia) positive) as Hdiv.
      replace (F s0 + 1) with (Z.of_nat (S (files (count s0)))) in Hdiv
        by (unfold F; lia).
      set (s1 := if Z.rem (Z.of_nat (S (files (count s0)))) (printDotFileCount D) =? 0
                 then setOut (out s0 ++ ["."])%list (incFiles s0) else incFiles s0) in *.
      assert (H1 : F s1 = Z.of_nat (S (files (count s0)))
                   /\ dryRun s1 = false
                   /\ out s1 =
                      (out s0 ++ repeat "."
                                   (Z.to_nat (F s1 / printDotFileCount D
                                              - F s0 / printDotFileCount D)))%list).
      { unfold s1, F.
        destruct (Z.rem _ _ =? 0); cbn [files count setOut incFiles setCount out dryRun];
          (split; [reflexivity | split; [exact Hd | ]]); rewrite Hdiv.
        - replace (F s0 / printDotFileCount D + 1 - Z.of_nat (files (count s0))
                   / printDotFileCount D) with 1 by (unfold F; lia).
          reflexivity.
        - replace (F s0 / printDotFileCount D + 0 - Z.of_nat (files (count s0))
                   / printDotFileCount D) with 0 by (unfold F; lia).
          simpl. now rewrite app_nil_r. }
      destruct H1 as (HF & Hd1 & Ho1).
      destruct (filtered s0 p info); cbn [snd].
      + split; [unfold F in *; lia | exact Ho1].
      + pose proof (syncFile_counts D p info s1) as [Hf _]. cbv zeta in Hf.
        rewrite (wet_syncFile_out p info s1 Hd1).
        assert (HF' : F (snd (syncFile D p info s1)) = F s1) by (unfold F; now rewrite Hf).
        rewrite HF'. split; [unfold F in *; lia | exact Ho1].
    - intros s0. now apply Hsame. }
  rewrite handleDir_unfold in H.
  specialize (HR (setCount {| dir := 0; files := 0; copied := 0 |} s)).
  destruct (walk D path _) as [[[] | p] s2]; [ | discriminate H ].
  injection H as <-. cbn [count setOut out].
  destruct HR as [_ HR]. destruct (HR Hdry) as [_ Ho].
  unfold F in Ho. simpl in Ho. rewrite Z.sub_0_r in Ho.
  now rewrite Ho, <- app_assoc.
Qed.

End Listing.


Lemma progress_dots_witness :
  let D := Dotted.deps in
  let s := snd (backupLine D "=> /backup" (initial D false Pruned.disk)) in
  let s' := snd (handleDir D "/d5" s) in
  0 < printDotFileCount D
  /\ dryRun s = false
  /\ handleDir D "/d5" s = (Done tt, s')
  /\ out s' =
     (out s ++ repeat "." (Z.to_nat (Z.of_nat (files (count s')) / printDotFileCount D))
      ++ (if Z.of_nat (files (count s')) >=? printDotFileCount D then [nl] else [])
      ++ [summary (count s')])%list
  /\ out s' = ["target /backup" ++ nl; "."; nl; "Dirs: 3, Files: 3, Copied: 3" ++ nl].
Proof.
  intros D s s'.
  assert (H0 : 0 < printDotFileCount D) by reflexivity.
  assert (H1 : dryRun s = false) by reflexivity.
  assert (H2 : handleDir D "/d5" s = (Done tt, s'))
    by (unfold s'; apply pair_of_fst; vm_compute; reflexivity).
  split; [exact H0 | split; [exact H1 | split; [exact H2 | split]]].
  - exact (progress_dots D H0 "/d5" s s' H1 H2).
  - vm_compute. reflexivity.
Defined.

(** ** The files that are due *)

Section Due.

Context (D : Deps).

Lemma due_ext (s1 s : State D) path info :
  settings s1 = settings s -> world s1 = world s ->
  due D s1 path info = due D s path info.
Proof.
  intros Hs Hw. unfold due. rewrite (filtered_settings D _ _ _ _ Hs), Hw.
  unfold settings in Hs. injection Hs as _ -> _ _ _. reflexivity.
Qed.

(** A dry run prints and counts a file exactly when it is due. *)
Lemma dry_handleFile_due path info (s s' : State D) :
  dryRun s = true ->
  handleFile D path info s = (Done tt, s') ->
  out s' = (out s ++ if due D s path info then [(path ++ nl)%string] else [])%list
  /\ copied (count s') =
     (copied (count s) + if due D s path info then 1 else 0)%nat
  /\ (isWin D = false -> world s' = world s).
Proof.
  intros Hdry. rewrite handleFile_unfold, (countFile_dry D _ Hdry). unfold due.
  destruct (filtered s path info) eqn:Hf; cbn [negb andb].
  - intros [= <-]. simpl. rewrite app_nil_r. auto with arith.
  - set (s1 := incFiles s).
    assert (Hlist : forall c dest,
               snd (copyStep D path dest info s1) = c ->
               out c = (out s ++ [(path ++ nl)%string])%list
               /\ copied (count c) = (copied (count s) + 1)%nat
               /\ (isWin D = false -> world c = world s)).
    { intros c dest <-.
      apply (copyStep_ways D path dest info s1
               (fun x => out (snd x) = (out s ++ [(path ++ nl)%string])%list
                         /\ copied (count (snd x)) = (copied (count s) + 1)%nat
                         /\ (isWin D = false -> world (snd x) = world s))); cbn [snd].
      - intros _. simpl. split; [reflexivity | split; [lia | reflexivity]].
      - intros e w Hd. simpl in Hd. congruence.
      - intros w Hd. simpl in Hd. congruence. }
    apply (syncFile_ways D path info s1
             (fun x => x = (Done tt, s') -> _)); cbn [world targetPath s1 incFiles setCount].
    + discriminate.
    + intros destInfo -> Hle [= <-].
      destruct (Z.ltb_spec (fs.ModTime destInfo) (fs.ModTime info)); [lia | ].
      simpl. rewrite app_nil_r. auto with arith.
    + intros destInfo -> Hlt Hwin _ E.
      destruct (Z.ltb_spec (fs.ModTime destInfo) (fs.ModTime info)); [ | lia ].
      pose proof (f_equal snd E) as E'. cbn [snd] in E'.
      assert (Hchmod :
                forall c dest w call,
                  snd (copyStep D path dest info (setWorld w call s1)) = c ->
                  out c = (out s ++ [(path ++ nl)%string])%list
                  /\ copied (count c) = (copied (count s) + 1)%nat).
      { intros c dest w call <-.
        apply (copyStep_ways D path dest info (setWorld w call s1)
                 (fun x => out (snd x) = (out s ++ [(path ++ nl)%string])%list
                           /\ copied (count (snd x)) = (copied (count s) + 1)%nat));
          cbn [snd].
        - intros _. simpl. split; [reflexivity | lia].
        - intros e w0 Hd. simpl in Hd. congruence.
        - intros w0 Hd. simpl in Hd. congruence. }
      destruct (Hchmod _ _ _ _ E') as [Ho Hc].
      split; [exact Ho | split; [exact Hc | congruence]].
    + intros destInfo -> Hlt _ E.
      destruct (Z.ltb_spec (fs.ModTime destInfo) (fs.ModTime info)); [ | lia ].
      apply (Hlist s' _ (f_equal snd E)).
    + intros -> _ E. apply (Hlist s' _ (f_equal snd E)).
    + intros e w _ Hd. simpl in Hd. congruence.
    + intros w _ Hd. simpl in Hd. congruence.
Qed.

End Due.

Section DueWalk.

Context (D : Deps).

Lemma dueFiles_ext (s1 s : State D) t :
  settings s1 = settings s -> world s1 = world s ->
  dueFiles D s1 t = dueFiles D s t.
Proof.
  intros Hs Hw.
  induction t as [path info | path readErr entries IH] using DirTree_induction.
  - destruct info as [info | ]; [ | reflexivity ].
    simpl. now rewrite (due_ext D _ _ _ _ Hs Hw).
  - simpl. assert (He : exclude s1 = exclude s).
    { unfold settings in Hs. now injection Hs. }
    rewrite He. destruct (pruned D (exclude s) path); [reflexivity | ].
    induction IH as [| t l Ht _ IHl]; [reflexivity | ]. now rewrite Ht, IHl.
Qed.

Lemma dueFilesOf_ext (s1 s : State D) l :
  settings s1 = settings s -> world s1 = world s ->
  dueFilesOf D s1 l = dueFilesOf D s l.
Proof.
  intros Hs Hw. induction l as [| t1 l IHl]; [reflexivity | ].
  unfold dueFilesOf in *. now rewrite (dueFiles_ext _ _ t1 Hs Hw), IHl.
Qed.

Hypothesis unix : isWin D = false.

Lemma walkEntries_due l :
  Forall (fun t => forall (s : State D) r s',
              dryRun s = true -> walkTree D t s = (Done r, s') ->
              dryWalked D (dueFiles D s t) s s') l ->
  forall (s : State D) r s',
    dryRun s = true -> walkEntries D l s = (Done r, s') ->
    dryWalked D (dueFilesOf D s l) s s'.
Proof using Type.
  induction 1 as [| t l Ht _ IH]; intros s r s' Hdry H.
  - inversion H; subst. unfold dryWalked. simpl. rewrite app_nil_r. auto with arith.
  - rewrite walkEntries_cons in H.
    apply bind_inv in H as [(r1 & s1 & E & H) | (q & _ & Hq)]; [ | discriminate Hq ].
    destruct (Ht _ _ _ Hdry E) as (S1 & W1 & O1 & C1).
    apply walkTree_count in E as (-> & _ & _).
    assert (Hdry1 : dryRun s1 = true).
    { unfold settings in S1. injection S1 as -> _ _ _ _. exact Hdry. }
    destruct (IH _ _ _ Hdry1 H) as (S2 & W2 & O2 & C2).
    rewrite (dueFilesOf_ext _ _ l S1 W1) in O2, C2.
    unfold dryWalked. change (dueFilesOf D s (t :: l))
      with (dueFiles D s t ++ dueFilesOf D s l)%list.
    rewrite map_app, length_app, O2, O1, C2, C1, <- app_assoc.
    repeat split; [congruence | congruence | lia].
Qed.

Lemma walkTree_due t :
  forall (s : State D) r s',
    dryRun s = true -> walkTree D t s = (Done r, s') ->
    dryWalked D (dueFiles D s t) s s'.
Proof using unix.
  induction t as [path info | path readErr entries IH] using DirTree_induction;
    intros s r s' Hdry H.
  - rewrite walkTree_File in H. unfold walkCallback in H.
    destruct info as [info | ].
    + apply bind_inv in H as [([] & s1 & E & H) | (q & _ & Hq)]; [ | discriminate Hq ].
      inversion H; subst.
      pose proof (handleFile_settings D path info s) as Hs. rewrite E in Hs.
      destruct (dry_handleFile_due D _ _ _ _ Hdry E) as (Ho & Hc & Hw).
      unfold dryWalked. simpl. rewrite Ho, Hc.
      destruct (due D s path info); simpl; auto.
    + inversion H; subst. unfold dryWalked. simpl. rewrite app_nil_r. auto with arith.
  - rewrite walkTree_Directory in H. unfold bind at 1 in H.
    rewrite walkCallback_dir in H. cbn [dueFiles].
    destruct (pruned D (exclude s) path) eqn:Hp.
    + inversion H; subst. unfold dryWalked. simpl. rewrite app_nil_r. auto with arith.
    + assert (Hp' : pruned D (exclude (incDir s)) path = false) by exact Hp.
      destruct readErr.
      * unfold bind at 1 in H. rewrite walkCallback_dir, Hp' in H.
        pose proof (walkEntries_due _ IH (incDir (incDir s)) _ _ Hdry H) as HW.
        rewrite (dueFilesOf_ext (incDir (incDir s)) s entries eq_refl eq_refl) in HW.
        exact HW.
      * unfold bind at 1, ret in H.
        pose proof (walkEntries_due _ IH (incDir s) _ _ Hdry H) as HW.
        rewrite (dueFilesOf_ext (incDir s) s entries eq_refl eq_refl) in HW. exact HW.
Qed.

(** X15.  Off Windows, a dry run over a source directory lists
    exactly the due files of its tree, in the order of the walk: the
    files that pass the filters and whose destination is missing or
    older than the file.  Their number is the copied count of the
    summary, and the file system is left as it was. *)
Theorem dry_run_lists_the_due_files path t (s s' : State D) :
  dryRun s = true ->
  walkDir D (world s) path = Some t ->
  handleDir D path s = (Done tt, s') ->
  out s' =
  (out s ++ map (fun p => (p ++ nl)%string) (dueFiles D s t)
   ++ (if Z.of_nat (files (count s')) >=? printDotFileCount D then [nl] else [])
   ++ [summary (count s')])%list
  /\ copied (count s') = length (dueFiles D s t)
  /\ world s' = world s.
Proof using unix.
  intros Hdry Hwalk H.
  rewrite handleDir_unfold, walk_unfold in H. cbn [world setCount] in H.
  rewrite Hwalk in H.
  destruct (walkTree D t (setCount _ s)) as [[r | p] s2] eqn:E; [ | discriminate H ].
  injection H as <-. cbn [count setOut out world].
  destruct (walkTree_due t (setCount {| dir := 0; files := 0; copied := 0 |} s) _ _ Hdry E)
    as (_ & W & O & C).
  rewrite (dueFiles_ext (setCount {| dir := 0; files := 0; copied := 0 |} s) s t
             eq_refl eq_refl) in O, C.
  simpl in O, C, W. rewrite O, C, <- app_assoc. auto.
Qed.

End DueWalk.

Lemma dry_run_lists_the_due_files_witness :
  let D := Pruned.deps in
  let s := snd (backupLoop D ["=> /backup"; "!/d6/"] (initial D true Pruned.disk)) in
  let s' := snd (handleDir D "/d5" s) in
  exists t,
    isWin D = false
    /\ dryRun s = true
    /\ walkDir D (world s) "/d5" = Some t
    /\ handleDir D "/d5" s = (Done tt, s')
    /\ dueFiles D s t = ["/d5/f1"; "/d5/d7/f2"]
    /\ copied (count s') = length (dueFiles D s t)
    /\ world s' = world s.
Proof.
  intros D s s'.
  assert (H0 : isWin D = false) by reflexivity.
  assert (H1 : dryRun s = true) by reflexivity.
  assert (H2 : walkDir D (world s) "/d5" = Pruned.trees "/d5") by reflexivity.
  assert (H3 : handleDir D "/d5" s = (Done tt, s'))
    by (unfold s'; apply pair_of_fst; vm_compute; reflexivity).
  eexists. split; [exact H0 | split; [exact H1 | split; [exact H2 | split; [exact H3 | ]]]].
  split; [vm_compute; reflexivity | ].
  exact (proj2 (dry_run_lists_the_due_files D H0 "/d5" _ s s' H1 H2 H3)).
Defined.

Section DryAndReal.

Context (D : Deps).

(** In a dry run [handleFile] ends normally when the volume name is
    no longer than the path. *)
Lemma dry_handleFile_Done path info (s : State D) :
  dryRun s = true ->
  (String.length (VolumeName D path) <= String.length path)%nat ->
  fst (handleFile D path info s) = Done tt.
Proof.
  intros Hdry Hvol. rewrite handleFile_unfold, (countFile_dry D _ Hdry).
  destruct (filtered s path info); [reflexivity | ].
  assert (Hcopy : forall (s1 : State D) dest,
             dryRun s1 = true -> fst (copyStep D path dest info s1) = Done tt).
  { intros s1 dest Hd.
    apply (copyStep_ways D path dest info s1 (fun x => fst x = Done tt)); cbn [fst].
    - reflexivity.
    - intros e w Hd'. congruence.
    - intros w Hd'. congruence. }
  apply (syncFile_ways D path info (incFiles s) (fun x => fst x = Done tt)); cbn [fst];
    try (intros; apply Hcopy; exact Hdry); try reflexivity.
  - intros H. lia.
  - intros e w _ Hd. simpl in Hd. congruence.
Qed.

(** X16.  A dry run and a real run agree on which files need work.
    From two states with the same settings and the same file system,
    one in dry-run mode and one not, [handleFile] lists the file and
    counts it as copied in the dry run exactly when the file is due,
    and the real run makes a writing call for the file exactly when it
    is due; for a file that is not due the real run changes neither
    the file system nor the count of copies nor the messages. *)
Theorem dry_run_lists_what_a_real_run_writes path info (s t : State D) :
  dryRun s = true ->
  dryRun t = false ->
  targetPath t = targetPath s ->
  startDate t = startDate s ->
  maxSize t = maxSize s ->
  exclude t = exclude s ->
  world t = world s ->
  (String.length (VolumeName D path) <= String.length path)%nat ->
  printDotFileCount D <> 0 ->
  let s' := snd (handleFile D path info s) in
  let t' := snd (handleFile D path info t) in
  out s' = (out s ++ if due D s path info then [(path ++ nl)%string] else [])%list
  /\ copied (count s') = (copied (count s) + if due D s path info then 1 else 0)%nat
  /\ (due D s path info = true <-> calls t' <> calls t)
  /\ (due D s path info = false ->
      world t' = world t /\ copied (count t') = copied (count t) /\ msgs t' = msgs t).
Proof.
  intros Hdry Hwet Ht Hd Hm He Hw Hvol Hdots. cbv zeta.
  assert (Hdue : due D t path info = due D s path info).
  { unfold due, filtered, excluded. now rewrite Ht, Hd, Hm, He, Hw. }
  pose proof (dry_handleFile_Done path info s Hdry Hvol) as HDone.
  destruct (handleFile D path info s) as [r s'] eqn:E. simpl in HDone. subst r.
  destruct (dry_handleFile_due D _ _ _ _ Hdry E) as (Ho & Hc & _).
  cbn [snd]. split; [exact Ho | split; [exact Hc | ]].
  rewrite <- Hdue.
  assert (Hcalls : fileCalls D t path info = [] <-> due D t path info = false).
  { unfold fileCalls, syncCalls, due. rewrite Hwet.
    destruct (Z.eqb_spec (printDotFileCount D) 0); [contradiction | ]. simpl.
    destruct (filtered t path info); simpl; [tauto | ].
    destruct (Nat.ltb_spec (String.length path) (String.length (VolumeName D path)));
      [lia | ].
    destruct (stat D (world t) _) as [destInfo | ].
    - destruct (fs.ModTime destInfo <? fs.ModTime info); simpl; [ | tauto ].
      split; [ | discriminate ].
      destruct (isWin D && _); discriminate.
    - split; discriminate. }
  split.
  - rewrite handleFile_calls. split.
    + intros Hdue' Hsame. rewrite <- (app_nil_r (calls t)) in Hsame at 2.
      apply app_inv_head in Hsame. apply Hcalls in Hsame. congruence.
    + intros Hne. destruct (due D t path info); [reflexivity | ].
      destruct Hne. rewrite (proj2 Hcalls eq_refl). apply app_nil_r.
  - intros Hdue'. rewrite handleFile_unfold.
    pose proof (countFile_keeps D t) as (Hs & Hw' & _ & Hm' & Hc' & _). cbv zeta in *.
    destruct (countFile D t) as [[[] | p] t1] eqn:Ec; cbn [snd] in *; [ | auto ].
    unfold due in Hdue'.
    destruct (filtered t path info) eqn:Hf; cbn [negb andb] in Hdue'; [auto | ].
    destruct (stat D (world t) (destPathOf D (targetPath t) path)) as [destInfo | ] eqn:Hs';
      [ | discriminate Hdue' ].
    apply Z.ltb_ge in Hdue'.
    assert (Hsync : snd (syncFile D path info t1) = t1).
    { apply (syncFile_ways D path info t1 (fun x => snd x = t1)); cbn [snd];
        unfold settings in Hs; injection Hs as _ Ht1 _ _ _; rewrite ?Ht1, ?Hw';
        try reflexivity; intros; try congruence;
        match goal with
        | H1 : stat D _ _ = Some ?d, H2 : fs.ModTime ?d < _ |- _ =>
            rewrite Hs' in H1; injection H1 as <-; lia
        end. }
    rewrite Hsync. auto.
Qed.

End DryAndReal.

Lemma dry_run_lists_what_a_real_run_writes_witness :
  let D := Cases.unixDeps in
  let s := snd (backupLine D "=> /backup" (initial D true Cases.relativeDisk)) in
  let t := snd (backupLine D "=> /backup" (initial D false Cases.relativeDisk)) in
  let info := Cases.file 20 420 in
  (dryRun s = true /\ dryRun t = false
   /\ targetPath t = targetPath s /\ startDate t = startDate s
   /\ maxSize t = maxSize s /\ exclude t = exclude s /\ world t = world s
   /\ (String.length (VolumeName D "f1") <= String.length "f1")%nat
   /\ printDotFileCount D <> 0)
  /\ due D s "f1" info = true
  /\ out (snd (handleFile D "f1" info s)) = ["target /backup" ++ nl; "f1" ++ nl]
  /\ calls (snd (handleFile D "f1" info t)) <> calls t.
Proof.
  intros D s t info.
  assert (H1 : dryRun s = true) by reflexivity.
  assert (H2 : dryRun t = false) by reflexivity.
  assert (H3 : targetPath t = targetPath s) by reflexivity.
  assert (H4 : startDate t = startDate s) by reflexivity.
  assert (H5 : maxSize t = maxSize s) by reflexivity.
  assert (H6 : exclude t = exclude s) by reflexivity.
  assert (H7 : world t = world s) by reflexivity.
  assert (H8 : (String.length (VolumeName D "f1") <= String.length "f1")%nat)
    by (vm_compute; lia).
  assert (H9 : printDotFileCount D <> 0) by discriminate.
  assert (Hdue : due D s "f1" info = true) by (vm_compute; reflexivity).
  destruct (dry_run_lists_what_a_real_run_writes D "f1" info s t
              H1 H2 H3 H4 H5 H6 H7 H8 H9) as (Ho & _ & Hc & _).
  split; [repeat split; assumption | ].
  split; [exact Hdue | split].
  - rewrite Ho, Hdue. vm_compute. reflexivity.
  - apply Hc. exact Hdue.
Defined.

(** ** The destination of a source *)

Section Destination.

Context (D : Deps).

Lemma append_inj_l (a x y : string) : a ++ x = a ++ y -> x = y.
Proof. induction a as [| c a IH]; simpl; [auto | ]. intros [= H]. auto. Qed.

Lemma sliceFrom_0 (a : string) : sliceFrom 0 a = a.
Proof. unfold sliceFrom. rewrite Nat.sub_0_r. apply substring_all. Qed.

(** X21.  The destination of a source is the target followed by the
    source path without its volume name.  Two sources have the same
    destination exactly when they agree after their volume names, so
    the same path on two drives is backed up to one place; where
    paths have no volume name the destination is the target followed
    by the whole path, and different sources have different
    destinations. *)
Theorem destination_ignores_volume target a b :
  (destPathOf D target a = destPathOf D target b
   <-> sliceFrom (String.length (VolumeName D a)) a
       = sliceFrom (String.length (VolumeName D b)) b)
  /\ ((forall p, VolumeName D p = "") ->
      destPathOf D target a = target ++ a
      /\ (destPathOf D target a = destPathOf D target b -> a = b)).
Proof.
  split.
  - unfold destPathOf. split; [apply append_inj_l | now intros ->].
  - intros Hvol. unfold destPathOf. rewrite !Hvol. simpl. rewrite !sliceFrom_0.
    split; [reflexivity | apply append_inj_l].
Qed.

End Destination.


Lemma destination_ignores_volume_witness :
  sliceFrom (String.length (VolumeName Cases.winDeps "c:\d1\f1")) "c:\d1\f1"
  = sliceFrom (String.length (VolumeName Cases.winDeps "d:\d1\f1")) "d:\d1\f1"
  /\ destPathOf Cases.winDeps "c:\backup" "c:\d1\f1" = "c:\backup\d1\f1"
  /\ destPathOf Cases.winDeps "c:\backup" "d:\d1\f1" = "c:\backup\d1\f1".
Proof.
  assert (H : sliceFrom (String.length (VolumeName Cases.winDeps "c:\d1\f1")) "c:\d1\f1"
              = sliceFrom (String.length (VolumeName Cases.winDeps "d:\d1\f1")) "d:\d1\f1")
    by reflexivity.
  pose proof (proj2 (proj1 (destination_ignores_volume Cases.winDeps "c:\backup"
                              "c:\d1\f1" "d:\d1\f1")) H) as E.
  split; [exact H | split; [reflexivity | ]].
  rewrite <- E. reflexivity.
Defined.

(** ** [copyImpl] *)

Section CopyImplFacts.

Import Copying.

Context (os : Os).

Ltac settle :=
  intros; simpl in *;
  repeat match goal with
         | H : ex _ |- _ => destruct H
         | H : _ /\ _ |- _ => destruct H
         | H : _ \/ _ |- _ => destruct H
         | H : False |- _ => destruct H
         end;
  simplify_eq; try congruence; eauto 10.

Lemma runDeferred_log files (fs0 : Fs os) :
  snd (runDeferred os files fs0) = map DidClose files.
Proof.
  revert fs0. induction files as [| f rest IH]; intros fs0; [reflexivity | ].
  simpl. destruct (Close os fs0 f) as [e fs1].
  specialize (IH fs1). destruct (runDeferred os rest fs1) as [fs2 log].
  simpl in *. now rewrite IH.
Qed.

(** X22.  [copyImpl] returns [nil] exactly when opening the source,
    creating the destination and copying the content all succeed;
    what [Chmod], [Chtimes] and [Close] answer is dropped.  Mode 0660
    and the modification time of the source are given to the
    destination exactly on that path, so a failed copy never sets
    them; and when the source cannot be opened the destination is not
    touched by any call. *)
Theorem copyImpl_reports_three_failures src dest info (fs0 : Fs os) :
  let err := fst (fst (copyImpl os src dest info fs0)) in
  let log := snd (copyImpl os src dest info fs0) in
  (err = None <->
   exists r w fs1 fs2 fs3,
     Open os fs0 src = (inr r, fs1)
     /\ Create os fs1 dest = (inr w, fs2)
     /\ ioCopy os fs2 w r = (None, fs3))
  /\ (err = None <->
      exists now, In (DidChtimes dest now (fs.ModTime info)) log)
  /\ (err = None <-> In (DidChmod dest 432) log)
  /\ ((exists e fs1, Open os fs0 src = (inl e, fs1)) -> touched os log = [src]).
Proof.
  cbv zeta. unfold copyImpl.
  destruct (Open os fs0 src) as [[e | r] fs1] eqn:EO.
  - repeat split; try discriminate; settle.
  - destruct (Create os fs1 dest) as [[e | w] fs2] eqn:EC.
    + pose proof (runDeferred_log [r] fs2) as Hlog.
      destruct (runDeferred os [r] fs2) as [fs3 log]. simpl in Hlog. subst log.
      repeat split; try discriminate; settle.
    + destruct (ioCopy os fs2 w r) as [[e | ] fs3] eqn:EI.
      * pose proof (runDeferred_log [w; r] fs3) as Hlog.
        destruct (runDeferred os [w; r] fs3) as [fs4 log]. simpl in Hlog. subst log.
        repeat split; try discriminate; settle.
      * destruct (Chmod os fs3 dest 432) as [e1 fs4].
        destruct (Chtimes os fs4 dest (timeNow os fs4) (fs.ModTime info)) as [e2 fs5].
        destruct (runDeferred os [w; r] fs5) as [fs6 log].
        repeat split; try reflexivity; settle.
Qed.

(** X23.  On every path through [copyImpl], each file that was opened
    or created is closed exactly once, the one opened last first, and
    the closing calls come after all the other calls. *)
Theorem copyImpl_closes_what_it_opens src dest info (fs0 : Fs os) :
  let log := snd (copyImpl os src dest info fs0) in
  closed os log = rev (opened os log)
  /\ exists before,
       log = (before ++ map DidClose (rev (opened os log)))%list
       /\ closed os before = [].
Proof.
  cbv zeta. unfold copyImpl.
  destruct (Open os fs0 src) as [[e | r] fs1].
  - split; [reflexivity | ]. now exists [DidOpen src None].
  - destruct (Create os fs1 dest) as [[e | w] fs2].
    + pose proof (runDeferred_log [r] fs2) as Hlog.
      destruct (runDeferred os [r] fs2) as [fs3 log]. simpl in Hlog. subst log.
      split; [reflexivity | ]. now exists [DidOpen src (Some r); DidCreate dest None].
    + destruct (ioCopy os fs2 w r) as [[e | ] fs3].
      * pose proof (runDeferred_log [w; r] fs3) as Hlog.
        destruct (runDeferred os [w; r] fs3) as [fs4 log]. simpl in Hlog. subst log.
        split; [reflexivity | ].
        now exists [DidOpen src (Some r); DidCreate dest (Some w); DidCopy w r false].
      * destruct (Chmod os fs3 dest 432) as [e1 fs4].
        destruct (Chtimes os fs4 dest (timeNow os fs4) (fs.ModTime info)) as [e2 fs5].
        pose proof (runDeferred_log [w; r] fs5) as Hlog.
        destruct (runDeferred os [w; r] fs5) as [fs6 log]. simpl in Hlog. subst log.
        split; [reflexivity | ].
        now exists [DidOpen src (Some r); DidCreate dest (Some w); DidCopy w r true;
                    DidChmod dest 432;
                    DidChtimes dest (timeNow os fs4) (fs.ModTime info)].
Qed.

End CopyImplFacts.
